(** * distlib.locators: a shallow embedding and its verified properties

    The development follows [src/distlib/locators.py]:

    - [PyStr]: the [str] operations the module relies on
      ([startswith], [endswith], [lower], slicing, [posixpath.basename]);
    - [Re]: a backtracking matcher with the semantics of Python's [re]
      for the constructs used by the module's patterns;
    - [UrlLib]: [urlparse] / [urlunparse];
    - the module constants, [Locator.convert_url_to_download_info],
      [Locator._update_version_data], [Page], [SimpleScrapingLocator]
      (fetch cache, worker loop, work queue),
      [DirectoryLocator.get_project], [AggregatingLocator.get_project]
      and [locate].

    The methods come in two layers.  The first has them on the inputs
    on which the helpers [urlparse], [urljoin], [Request] and
    [unescape] return.  The second, [Method], has them on any input,
    with the exceptions of these helpers; [Method.f] is [f] wherever
    the helpers return.

    Strings are byte strings (Python 2 [str]); every character class of
    the patterns is the ASCII one. *)

From Stdlib Require Import Ascii String List Bool Arith ZArith Lia Sorted.
From stdpp Require Import gmap strings.

Local Open Scope string_scope.

(** ** Python [str] operations *)

Module PyStr.

(** [s.startswith(p)] *)
Definition startswith (s p : string) : bool := String.prefix p s.

(** [s.endswith(suf)]: some suffix of [s] is [suf]. *)
Fixpoint endswith (s suf : string) : bool :=
  String.eqb s suf ||
  match s with
  | EmptyString => false
  | String _ s' => endswith s' suf
  end.

(** [s.endswith(tuple)] *)
Definition endswith_any (s : string) (sufs : list string) : bool :=
  existsb (endswith s) sufs.

(** [c in s] for a character [c] *)
Fixpoint contains (c : ascii) (s : string) : bool :=
  match s with
  | EmptyString => false
  | String a s' => Ascii.eqb a c || contains c s'
  end.

(** [s[:n]] for [0 <= n] *)
Definition take (n : nat) (s : string) : string := String.substring 0 n s.

(** [s[n:]] for [0 <= n] *)
Fixpoint drop (n : nat) (s : string) : string :=
  match n, s with
  | O, _ => s
  | S n', String _ s' => drop n' s'
  | S _, EmptyString => EmptyString
  end.

(** [s[:-n]] for [0 < n] *)
Definition drop_last (n : nat) (s : string) : string :=
  take (String.length s - n) s.

Definition is_upper (c : ascii) : bool :=
  Nat.leb 65 (nat_of_ascii c) && Nat.leb (nat_of_ascii c) 90.

Definition lower_char (c : ascii) : ascii :=
  if is_upper c then ascii_of_nat (nat_of_ascii c + 32) else c.

(** [s.lower()] *)
Fixpoint lower (s : string) : string :=
  match s with
  | EmptyString => EmptyString
  | String c s' => String (lower_char c) (lower s')
  end.

(** [s[s.rfind(c) + 1:]]: what follows the last [c], all of [s] when
    there is none *)
Fixpoint after_last (c : ascii) (s : string) : string :=
  match s with
  | EmptyString => EmptyString
  | String a s' =>
      if contains c s' then after_last c s'
      else if Ascii.eqb a c then s' else s
  end.

(** [posixpath.basename(p)]: [p[p.rfind('/') + 1:]] *)
Definition basename (p : string) : string := after_last "/" p.

(** every character of [s] satisfies [p] *)
Fixpoint all_chars (p : ascii -> bool) (s : string) : bool :=
  match s with
  | EmptyString => true
  | String c s' => p c && all_chars p s'
  end.

(** the first character of [s], if any, satisfies [p] *)
Definition starts_with (p : ascii -> bool) (s : string) : bool :=
  match s with
  | String a _ => p a
  | EmptyString => false
  end.

(** truthiness of a [str] *)
Definition truthy (s : string) : bool :=
  match s with EmptyString => false | _ => true end.

End PyStr.
Import PyStr.

(** ** Regular expressions, as Python's [re] matches them *)

Module Re.

(** The constructs occurring in the module's patterns.  Repetition is
    only ever applied to a character class there. *)
Inductive regex : Type :=
| Eps                              (* empty pattern *)
| Cls (p : ascii -> bool)          (* one character of a class *)
| Cat (r1 r2 : regex)              (* r1 r2 *)
| Or (r1 r2 : regex)               (* r1|r2, left alternative first *)
| Star (p : ascii -> bool)         (* [..]*   greedy *)
| Maybe (r : regex)                (* r?      greedy *)
| Group (n : nat) (r : regex)      (* (r), capturing group number n *)
| Bos                              (* ^ *)
| Eos.                             (* $ *)

(** [[..]+] *)
Definition Plus (p : ascii -> bool) : regex := Cat (Cls p) (Star p).

(** a capture: start and end offsets in the subject *)
Definition captures := list (nat * (nat * nat)).

(** what remains to be matched after a sub-pattern: offset, rest of the
    subject, captures so far *)
Definition kont := nat -> string -> captures -> option (nat * captures).

(** [$] without MULTILINE: at the end, or just before a final newline *)
Definition at_eos (s : string) : bool :=
  match s with
  | EmptyString => true
  | String c EmptyString => Ascii.eqb c "010"
  | _ => false
  end.

(** greedy repetition of a class: the longest run first, then shorter
    ones while the rest of the pattern fails *)
Fixpoint star_m (p : ascii -> bool) (i : nat) (s : string) (c : captures)
    (k : kont) {struct s} : option (nat * captures) :=
  match s with
  | String a s' =>
      if p a then
        match star_m p (S i) s' c k with
        | Some r => Some r
        | None => k i s c
        end
      else k i s c
  | EmptyString => k i s c
  end.

Fixpoint m (r : regex) (i : nat) (s : string) (c : captures) (k : kont)
    {struct r} : option (nat * captures) :=
  match r with
  | Eps => k i s c
  | Cls p =>
      match s with
      | String a s' => if p a then k (S i) s' c else None
      | EmptyString => None
      end
  | Cat r1 r2 => m r1 i s c (fun j s' c' => m r2 j s' c' k)
  | Or r1 r2 =>
      match m r1 i s c k with
      | Some x => Some x
      | None => m r2 i s c k
      end
  | Star p => star_m p i s c k
  | Maybe r' =>
      match m r' i s c k with
      | Some x => Some x
      | None => k i s c
      end
  | Group n r' => m r' i s c (fun j s' c' => k j s' ((n, (i, j)) :: c'))
  | Bos => if Nat.eqb i 0 then k i s c else None
  | Eos => if at_eos s then k i s c else None
  end.

(** a match object: the subject, the span of the whole match, the groups *)
Record match_obj : Type := MatchObj {
  subject : string;
  m_start : nat;
  m_end : nat;
  m_caps : captures
}.

Definition accept : kont := fun j _ c => Some (j, c).

(** [pattern.match(s)]: anchored at offset 0 *)
Definition re_match (r : regex) (s : string) : option match_obj :=
  match m r 0 s nil accept with
  | Some (j, c) => Some (MatchObj s 0 j c)
  | None => None
  end.

Fixpoint search_from (r : regex) (w : string) (i : nat) (s : string)
    : option match_obj :=
  match m r i s nil accept with
  | Some (j, c) => Some (MatchObj w i j c)
  | None =>
      match s with
      | String _ s' => search_from r w (S i) s'
      | EmptyString => None
      end
  end.

(** [pattern.search(s)]: the leftmost match *)
Definition re_search (r : regex) (s : string) : option match_obj :=
  search_from r s 0 s.

Fixpoint lookup_cap (n : nat) (c : captures) : option (nat * nat) :=
  match c with
  | nil => None
  | (n', span) :: c' => if Nat.eqb n n' then Some span else lookup_cap n c'
  end.

(** [mo.group(n)], [None] when the group did not take part *)
Definition group (mo : match_obj) (n : nat) : option string :=
  match lookup_cap n (m_caps mo) with
  | Some (i, j) => Some (String.substring i (j - i) (subject mo))
  | None => None
  end.

(** character classes *)
Definition chr (a : ascii) : ascii -> bool := fun c => Ascii.eqb c a.
Definition chr_i (a : ascii) : ascii -> bool :=
  fun c => Ascii.eqb (lower_char c) (lower_char a).
Definition range (lo hi : ascii) : ascii -> bool :=
  fun c => Nat.leb (nat_of_ascii lo) (nat_of_ascii c) &&
           Nat.leb (nat_of_ascii c) (nat_of_ascii hi).
Definition range_i (lo hi : ascii) : ascii -> bool :=
  fun c => range lo hi (lower_char c).
Definition one_of (s : string) : ascii -> bool := fun c => contains c s.
Definition cup (p q : ascii -> bool) : ascii -> bool := fun c => p c || q c.
Definition non (p : ascii -> bool) : ascii -> bool := fun c => negb (p c).

(** [\d] *)
Definition digit : ascii -> bool := range "0" "9".
(** [\s]: space, \t, \n, \v, \f, \r *)
Definition space : ascii -> bool :=
  fun c => Ascii.eqb c " " ||
           (Nat.leb 9 (nat_of_ascii c) && Nat.leb (nat_of_ascii c) 13).
(** [.] without DOTALL *)
Definition dot : ascii -> bool := non (chr "010").

(** a literal string; [lit_i] under [re.I] *)
Fixpoint lit (s : string) : regex :=
  match s with
  | EmptyString => Eps
  | String a EmptyString => Cls (chr a)
  | String a s' => Cat (Cls (chr a)) (lit s')
  end.

Fixpoint lit_i (s : string) : regex :=
  match s with
  | EmptyString => Eps
  | String a EmptyString => Cls (chr_i a)
  | String a s' => Cat (Cls (chr_i a)) (lit_i s')
  end.

End Re.
Import Re.

Declare Scope re_scope.
Delimit Scope re_scope with re.
Infix "@@" := Cat (at level 40, left associativity) : re_scope.

(** ** Module constants *)

(** [EXTENSIONS = tuple(".tar.gz .tar.bz2 .tar .zip .tgz .egg".split())] *)
Definition EXTENSIONS : list string :=
  [".tar.gz"; ".tar.bz2"; ".tar"; ".zip"; ".tgz"; ".egg"].

Definition hex_lower : ascii -> bool := cup (range "a" "f") (range "0" "9").

(** [MD5_HASH = re.compile('^md5=([a-f0-9]+)$')] *)
Definition MD5_HASH : regex :=
  (Bos @@ lit "md5=" @@ Group 1 (Plus hex_lower) @@ Eos)%re.

(** [CHARSET]: semicolon, [\s*], [charset], [\s*], [=], [\s*], a group
    holding a greedy run of [.], [\s*], [$]; compiled with [re.I] *)
Definition CHARSET : regex :=
  (lit ";" @@ Star space @@ lit_i "charset" @@ Star space @@ lit "=" @@
   Star space @@ Group 1 (Star dot) @@ Star space @@ Eos)%re.

(** [HTML_CONTENT_TYPE = re.compile('text/html|application/xhtml')] *)
Definition HTML_CONTENT_TYPE : regex :=
  Or (lit "text/html") (lit "application/xhtml").

Definition name_char : ascii -> bool :=
  cup (range_i "a" "z") (cup (range "0" "9") (one_of "_.-")).
Definition version_char : ascii -> bool := cup (range "0" "9") (one_of "_.-").

(** [PROJECT_NAME_AND_VERSION]: group 1 is [[a-z0-9_.-]+], then a dash,
    then group 2: one of [[0-9]] and a greedy run of [[0-9_.-]];
    compiled with [re.I] *)
Definition PROJECT_NAME_AND_VERSION : regex :=
  (Group 1 (Plus name_char) @@ lit "-" @@
   Group 2 (Cls (range "0" "9") @@ Star version_char))%re.

(** [PYTHON_VERSION = re.compile(r'-py(\d\.?\d?)$')] *)
Definition PYTHON_VERSION : regex :=
  (lit "-py" @@
   Group 1 (Cls digit @@ Maybe (Cls (chr ".")) @@ Maybe (Cls digit)) @@
   Eos)%re.

(** ** [urlparse] and [urlunparse]

    The two functions come from the standard library through
    [distlib.compat].  They are modelled after [urllib.parse] for [str]
    arguments, without the parse cache.  [urlparse] below is the result
    on a URL that passes the bracket check on IPv6 hosts; the check,
    which ends in a [ValueError], is [netloc_error], and
    [Method.urlparse] raises where it fails. *)

Module UrlLib.

(** [(before, after)] around the first [c]; [(s, "")] when [c] is absent *)
Fixpoint split1 (c : ascii) (s : string) : string * string :=
  match s with
  | EmptyString => (EmptyString, EmptyString)
  | String a s' =>
      if Ascii.eqb a c then (EmptyString, s')
      else let '(u, v) := split1 c s' in (String a u, v)
  end.

(** the longest prefix of characters satisfying [p], and the rest *)
Fixpoint span (p : ascii -> bool) (s : string) : string * string :=
  match s with
  | EmptyString => (EmptyString, EmptyString)
  | String a s' =>
      if p a then let '(u, v) := span p s' in (String a u, v)
      else (EmptyString, s)
  end.

Definition scheme_char : ascii -> bool :=
  cup (range_i "a" "z") (cup (range "0" "9") (one_of "+-.")).

Definition uses_params : list string :=
  [""; "ftp"; "hdl"; "prospero"; "http"; "imap"; "https"; "shttp"; "rtsp";
   "rtspu"; "sip"; "sips"; "mms"; "sftp"; "tel"].

Definition uses_netloc : list string :=
  [""; "ftp"; "http"; "gopher"; "nntp"; "telnet"; "imap"; "wais"; "file";
   "mms"; "https"; "shttp"; "snews"; "prospero"; "rtsp"; "rtspu"; "rsync";
   "svn"; "svn+ssh"; "sftp"; "nfs"; "git"; "git+ssh"].

Definition mem (s : string) (l : list string) : bool :=
  existsb (String.eqb s) l.

(** the scheme part of [urlsplit]: [(scheme, rest)] *)
Definition split_scheme (url : string) : string * string :=
  if contains ":" url then
    let '(pre, rest) := split1 ":" url in
    if truthy pre then
      if String.eqb pre "http" then ("http", rest)
      else if all_chars scheme_char pre then
        if negb (truthy rest) || negb (all_chars digit rest)
        then (lower pre, rest)
        else (EmptyString, url)
      else (EmptyString, url)
    else (EmptyString, url)
  else (EmptyString, url).

(** [_splitnetloc(url, 2)] *)
Definition _splitnetloc (url : string) : string * string :=
  span (non (one_of "/?#")) (drop 2 url).

(** [urlsplit(url)]: scheme, netloc, path, query, fragment *)
Definition urlsplit (url : string)
    : string * string * string * string * string :=
  let '(scheme, url) := split_scheme url in
  let '(netloc, url) :=
    if startswith url "//" then _splitnetloc url else (EmptyString, url) in
  let '(url, fragment) :=
    if contains "#" url then split1 "#" url else (url, EmptyString) in
  let '(url, query) :=
    if contains "?" url then split1 "?" url else (url, EmptyString) in
  (scheme, netloc, url, query, fragment).

(** [url.find(';', url.rfind('/'))], as the pair [url[:i], url[i+1:]];
    [None] when there is no semicolon from the last slash on *)
Fixpoint split_params_after_slash (url : string) : option (string * string) :=
  match url with
  | EmptyString => None
  | String a url' =>
      if contains "/" url' then
        match split_params_after_slash url' with
        | Some (u, v) => Some (String a u, v)
        | None => None
        end
      else if contains ";" url then Some (split1 ";" url) else None
  end.

Definition _splitparams (url : string) : string * string :=
  if contains "/" url then
    match split_params_after_slash url with
    | Some uv => uv
    | None => (url, EmptyString)
    end
  else split1 ";" url.

Record ParseResult : Type := mkParseResult {
  scheme : string;
  netloc : string;
  path : string;
  params : string;
  query : string;
  fragment : string
}.

Definition urlparse (url : string) : ParseResult :=
  let '(scheme, netloc, url, query, fragment) := urlsplit url in
  let '(url, params) :=
    if mem scheme uses_params && contains ";" url then _splitparams url
    else (url, EmptyString) in
  mkParseResult scheme netloc url params query fragment.

Definition urlunsplit (scheme netloc url query fragment : string) : string :=
  let url :=
    if truthy netloc ||
       (truthy scheme && mem scheme uses_netloc &&
        negb (String.eqb (take 2 url) "//"))
    then
      let url :=
        if truthy url && negb (String.eqb (take 1 url) "/")
        then "/" ++ url else url in
      "//" ++ netloc ++ url
    else url in
  let url := if truthy scheme then scheme ++ ":" ++ url else url in
  let url := if truthy query then url ++ "?" ++ query else url in
  if truthy fragment then url ++ "#" ++ fragment else url.

Definition urlunparse (p : ParseResult) : string :=
  let url :=
    if truthy (params p) then path p ++ ";" ++ params p else path p in
  urlunsplit (scheme p) (netloc p) url (query p) (fragment p).

End UrlLib.
Import UrlLib.

(** ** Logging *)

Inductive level : Type := DEBUG | ERROR.

(** a call [logger.debug(fmt, args)] or [logger.exception(fmt, args)]
    (which logs at ERROR level) *)
Record log_record : Type := Log {
  log_level : level;
  log_fmt : string;
  log_args : list string
}.

(** ** [Locator.convert_url_to_download_info] *)

(** the [result] dictionary: four keys always present, two optional *)
Record DownloadInfo : Type := mkDownloadInfo {
  di_name : string;
  di_version : string;
  di_filename : string;
  di_url : string;
  di_python_version : option string;
  di_md5_digest : option string
}.

(** [m.group(n)] of a group that took part in the match *)
Definition group_str (mo : match_obj) (n : nat) : string :=
  match group mo n with Some s => s | None => EmptyString end.

(** [not project_name], for [None] or a string *)
Definition not_project_name (project_name : option string) : bool :=
  match project_name with
  | None => true
  | Some s => negb (truthy s)
  end.

Definition project_name_lower (project_name : option string) : string :=
  match project_name with Some s => lower s | None => EmptyString end.

(** lines 55-59: the Python-version tag at the end of [path], and
    [path] without it *)
Definition strip_python_version (path : string) : option string * string :=
  match re_search PYTHON_VERSION path with
  | Some mo => (Some (group_str mo 1), take (m_start mo) path)
  | None => (None, path)
  end.

(** what is left of the file name for [PROJECT_NAME_AND_VERSION] *)
Definition filename_stem (filename ext : string) : string :=
  snd (strip_python_version (drop_last (String.length ext) filename)).

(** lines 54-79: the body run for the first extension [ext] that the
    file name ends with *)
Definition parse_filename (u : ParseResult) (project_name : option string)
    (filename ext : string) : option DownloadInfo * list log_record :=
  let path := drop_last (String.length ext) filename in
  let '(pyver, path) := strip_python_version path in
  match re_match PROJECT_NAME_AND_VERSION path with
  | None => (None, [Log DEBUG "No match for project/version: %s" [path]])
  | Some mo =>
      let name := group_str mo 1 in
      let version := group_str mo 2 in
      if not_project_name project_name ||
         String.eqb (project_name_lower project_name) (lower name)
      then
        (Some {|
           di_name := name;
           di_version := version;
           di_filename := filename;
           di_url := urlunparse (mkParseResult (scheme u) (netloc u)
                                   (UrlLib.path u) (params u) (query u)
                                   EmptyString);
           di_python_version :=
             match pyver with
             | Some v => if truthy v then Some v else None
             | None => None
             end;
           di_md5_digest :=
             match re_match MD5_HASH (fragment u) with
             | Some mo' => Some (group_str mo' 1)
             | None => None
             end
         |}, [])
      else (None, [])
  end.

(** lines 50-80: the loop over [EXTENSIONS], left at the first extension
    the file name ends with; [.egg] is skipped *)
Fixpoint ext_loop (exts : list string) (u : ParseResult)
    (project_name : option string) (filename : string)
    : option DownloadInfo * list log_record :=
  match exts with
  | [] => (None, [])
  | ext :: exts' =>
      if String.eqb ext ".egg" then ext_loop exts' u project_name filename
      else if endswith filename ext
      then parse_filename u project_name filename ext
      else ext_loop exts' u project_name filename
  end.

(** the function with the debug records it emits *)
Definition convert_url_to_download_info_log (url : string)
    (project_name : option string) : option DownloadInfo * list log_record :=
  let u := urlparse url in
  if endswith_any (path u) EXTENSIONS
  then ext_loop EXTENSIONS u project_name (basename (path u))
  else (None, []).

Definition convert_url_to_download_info (url : string)
    (project_name : option string) : option DownloadInfo :=
  fst (convert_url_to_download_info_log url project_name).

(** ** Exceptions and the state of a [SimpleScrapingLocator] *)

(** the exception classes that matter to the handlers of [get_page];
    [HTTPError] is a subclass of [URLError], and every class here is a
    subclass of [Exception] *)
Inductive exn : Type :=
| HTTPError (code : Z)
| URLError
| KeyError
| NameError
| ValueError
| OtherException.

Inductive outcome (A : Type) : Type :=
| Ok (a : A)
| Raise (e : exn).
Arguments Ok {A} a.
Arguments Raise {A} e.

(** [Page]: the decoded body, the URL it was fetched from and the base
    URL against which its links are resolved *)
Record Page : Type := mkPage {
  page_data : string;
  page_url : string;
  page_base_url : string
}.

(** Modelled from the spec: the metadata record of [distlib.metadata], a
    mapping read and written by key (Name, Version, Download-URL,
    Requires-Python), and the distribution record of [distlib.database]
    built around it. *)
Record Distribution : Type := mkDistribution {
  metadata : gmap string string;
  md5_digest : option string
}.

(** [queue.Queue]: the pending items and the count of unfinished tasks.
    [n_get] and [n_done] are ghost counters of the [get] and [task_done]
    calls made so far. *)
Record Queue : Type := mkQueue {
  items : list (option string);
  unfinished_tasks : nat;
  n_get : nat;
  n_done : nat
}.

(** the instance attributes; [log] collects the records handed to the
    module logger, [opened] the URLs handed to [urlopen] *)
Record State : Type := mkState {
  base_url : string;
  project_name : string;
  _cache : gmap string (option Page);
  _seen : gset string;
  _to_fetch : Queue;
  result : gmap string Distribution;
  log : list log_record;
  opened : list string
}.

Definition set_cache (f : gmap string (option Page) -> gmap string (option Page))
    (st : State) : State :=
  mkState (base_url st) (project_name st) (f (_cache st)) (_seen st)
    (_to_fetch st) (result st) (log st) (opened st).
Definition set_seen (f : gset string -> gset string) (st : State) : State :=
  mkState (base_url st) (project_name st) (_cache st) (f (_seen st))
    (_to_fetch st) (result st) (log st) (opened st).
Definition set_to_fetch (f : Queue -> Queue) (st : State) : State :=
  mkState (base_url st) (project_name st) (_cache st) (_seen st)
    (f (_to_fetch st)) (result st) (log st) (opened st).
Definition set_result
    (f : gmap string Distribution -> gmap string Distribution) (st : State)
    : State :=
  mkState (base_url st) (project_name st) (_cache st) (_seen st)
    (_to_fetch st) (f (result st)) (log st) (opened st).
Definition add_log (r : log_record) (st : State) : State :=
  mkState (base_url st) (project_name st) (_cache st) (_seen st)
    (_to_fetch st) (result st) (log st ++ [r]) (opened st).
Definition add_opened (url : string) (st : State) : State :=
  mkState (base_url st) (project_name st) (_cache st) (_seen st)
    (_to_fetch st) (result st) (log st) (opened st ++ [url]).

(** ** A state and exception monad for the methods *)

Definition M (A : Type) : Type := State -> outcome A * State.

Definition ret {A} (a : A) : M A := fun st => (Ok a, st).
Definition raise {A} (e : exn) : M A := fun st => (Raise e, st).
Definition bind {A B} (c : M A) (k : A -> M B) : M B :=
  fun st =>
    match c st with
    | (Ok a, st') => k a st'
    | (Raise e, st') => (Raise e, st')
    end.
Definition get_state : M State := fun st => (Ok st, st).
Definition modify (f : State -> State) : M unit := fun st => (Ok tt, f st).
(** an outcome of a collaborator, brought into the monad *)
Definition lift {A} (o : outcome A) : M A := fun st => (o, st).

Declare Scope m_scope.
Delimit Scope m_scope with M.
Notation "'let*' x := c 'in' k" := (bind c (fun x => k))
  (at level 10, x name, c at level 100, k at level 200, only parsing)
  : m_scope.

(** [try: body except ...: handler], for handlers that catch every
    class of [exn] *)
Definition try_except {A} (body : M A) (handler : exn -> M A) : M A :=
  fun st =>
    match body st with
    | (Ok a, st') => (Ok a, st')
    | (Raise e, st') => handler e st'
    end.

(** [try: body finally: fin]: [fin] runs on both exits, and an exception
    of [body] is raised again after it (one of [fin] replaces it) *)
Definition try_finally {A} (body : M A) (fin : M unit) : M A :=
  fun st =>
    match body st with
    | (r, st') =>
        match fin st' with
        | (Ok _, st'') => (r, st'')
        | (Raise e, st'') => (Raise e, st'')
        end
    end.

(** [for x in xs: body x] *)
Fixpoint for_each {A} (xs : list A) (body : A -> M unit) : M unit :=
  match xs with
  | [] => ret tt
  | x :: xs' => bind (body x) (fun _ => for_each xs' body)
  end.

Definition logger_debug (fmt : string) (args : list string) : M unit :=
  modify (add_log (Log DEBUG fmt args)).
(** [logger.exception] logs at ERROR level *)
Definition logger_exception (fmt : string) (args : list string) : M unit :=
  modify (add_log (Log ERROR fmt args)).

(** ** [queue.Queue] operations *)

Definition put (x : option string) (q : Queue) : Queue :=
  mkQueue (items q ++ [x]) (S (unfinished_tasks q)) (n_get q) (n_done q).

(** [get()] blocks on an empty queue: [None] *)
Definition get (q : Queue) : option (option string * Queue) :=
  match items q with
  | [] => None
  | x :: rest =>
      Some (x, mkQueue rest (unfinished_tasks q) (S (n_get q)) (n_done q))
  end.

(** [task_done()] on the queue; [None] when it is called more often
    than items were put (a [ValueError]) *)
Definition task_done_q (q : Queue) : option Queue :=
  match unfinished_tasks q with
  | O => None
  | S n => Some (mkQueue (items q) n (n_get q) (S (n_done q)))
  end.

Definition task_done : M unit :=
  fun st =>
    match task_done_q (_to_fetch st) with
    | None => (Raise ValueError, st)
    | Some q => (Ok tt, set_to_fetch (fun _ => q) st)
    end.

(** an item of the queue is a URL or the sentinel [None]; [if url:] *)
Definition item_truthy (x : option string) : bool :=
  match x with
  | Some u => truthy u
  | None => false
  end.

(** ** [Page] *)

Definition dquote : ascii := "034".
Definition squote : ascii := "039".

(** [Page._base]: [<base], [\s+], [href], [\s*], [=], [\s*], an optional
    quote, and a group of one or more characters other than quotes and
    [>]; compiled with [re.I | re.S] *)
Definition Page_base : regex :=
  (lit_i "<base" @@ Plus space @@ lit_i "href" @@ Star space @@ lit "=" @@
   Star space @@ Maybe (Cls (cup (chr squote) (chr dquote))) @@
   Group 1 (Plus (non (cup (chr squote) (cup (chr dquote) (chr ">"))))))%re.

(** [Page._href]: [href], [\s*], [=], [\s*], then a double-quoted value
    (group 1), a single-quoted value (group 2) or a bare value up to
    [>] or white space (group 3); compiled with [re.I | re.S] *)
Definition Page_href : regex :=
  (lit_i "href" @@ Star space @@ lit "=" @@ Star space @@
   Or (Cls (chr dquote) @@ Group 1 (Star (non (chr dquote))) @@
       Cls (chr dquote))
      (Or (Cls (chr squote) @@ Group 2 (Star (non (chr squote))) @@
           Cls (chr squote))
          (Group 3 (Star (non (cup (chr ">") space))))))%re.

(** [Page.__init__] *)
Definition new_Page (data url : string) : Page :=
  mkPage data url
    match re_search Page_base data with
    | Some mo => group_str mo 1
    | None => url
    end.

(** [pattern.finditer(s)]: the successive matches, each searched from
    the end of the one before; [fuel] bounds their number *)
Fixpoint finditer_from (fuel : nat) (r : regex) (w : string) (i : nat)
    : list match_obj :=
  match fuel with
  | O => []
  | S fuel' =>
      match search_from r w i (drop i w) with
      | Some mo =>
          mo :: finditer_from fuel' r w
                  (if Nat.eqb (m_end mo) (m_start mo) then S (m_end mo)
                   else m_end mo)
      | None => []
      end
  end.

Definition finditer (r : regex) (w : string) : list match_obj :=
  finditer_from (S (String.length w)) r w 0.

(** [a or b] on optional strings *)
Definition py_or (a b : option string) : option string :=
  match a with
  | Some s => if truthy s then a else b
  | None => b
  end.

Section Crawler.

(** *** Collaborators of the scraping locator

    The transport, the decompressors, the codecs, the file system and the
    URL helpers of [distlib.compat] and [distlib.util] are parameters. *)

(** what [urlopen] hands back: [headers.get('Content-Type')],
    [headers.get('Content-Encoding')], [geturl()] and [read()] *)
Record Response : Type := mkResponse {
  content_type_header : option string;
  content_encoding_header : option string;
  geturl : string;
  read : outcome string
}.

Variable urlopen : string -> outcome Response.
Variable zlib_decompress : string -> outcome string.
Variable gzip_read : string -> outcome string.
Variable bytes_decode : string -> string -> outcome string.
Variable isdir : string -> bool.
Variable urljoin : string -> option string -> string.
Variable unescape : string -> string.
Variable ensure_slash : string -> string.

(** [Page.links] *)
Definition links (p : Page) : gset string :=
  list_to_set
    (map (fun mo =>
            let url := py_or (group mo 1) (py_or (group mo 2) (group mo 3)) in
            unescape (urljoin (page_base_url p) url))
         (finditer Page_href (page_data p))).

(** *** [SimpleScrapingLocator.decoders] *)

(** the module has no global named [d] *)
Definition global_d : outcome string := Raise NameError.

(** [lambda b: gzip.GzipFile(fileobj=BytesIO(d)).read()]: the body reads
    [d], not the parameter [b] *)
Definition gzip_lambda (b : string) : outcome string :=
  match global_d with
  | Ok d => gzip_read d
  | Raise e => Raise e
  end.

Definition decoders : gmap string (string -> outcome string) :=
  <["deflate" := zlib_decompress]> (<["gzip" := gzip_lambda]> ∅).

(** *** [SimpleScrapingLocator.get_page]

    The definitions of this section take [urlparse], [urljoin] and
    [Request] where they return; [Method.get_page] has the statements
    before the [try] block with their failures. *)

(** lines 266-268: a [file:] URL of a directory is replaced by the URL
    of its [index.html] *)
Definition request_url (url : string) : string :=
  let u := urlparse url in
  if String.eqb (scheme u) "file" && isdir (UrlLib.path u)
  then urljoin (ensure_slash url) (Some "index.html")
  else url.

Definition is_match (r : regex) (s : string) : bool :=
  match re_match r s with Some _ => true | None => false end.

(** lines 277-297, the [try] block; its value is what [result] holds at
    the end of the block *)
Definition get_page_try (url : string) : M (option Page) :=
  (let* _ := logger_debug "Fetching %s" [url] in
   let* _ := modify (add_opened url) in
   let* resp := lift (urlopen url) in
   let* _ := logger_debug "Fetched %s" [url] in
   let content_type :=
     match content_type_header resp with
     | Some s => s
     | None => EmptyString
     end in
   if negb (is_match HTML_CONTENT_TYPE content_type) then ret None
   else
     let final_url := geturl resp in
     let* data := lift (read resp) in
     let* data :=
       match content_encoding_header resp with
       | Some encoding =>
           if truthy encoding then
             match decoders !! encoding with   (* fail if not found *)
             | Some decoder => lift (decoder data)
             | None => raise KeyError
             end
           else ret data
       | None => ret data
       end in
     let encoding :=
       match re_search CHARSET content_type with
       | Some mo => group_str mo 1
       | None => "utf-8"
       end in
     let* data := lift (bytes_decode data encoding) in
     let result := new_Page data final_url in
     let* _ := modify (set_cache (fun c => <[final_url := Some result]> c)) in
     ret (Some result))%M.

(** lines 298-304, the handlers; [result] is assigned last in the [try]
    block, so it still holds [None] when a handler runs *)
Definition get_page_except (url : string) (e : exn) : M (option Page) :=
  (let* _ :=
     match e with
     | HTTPError code =>
         if negb (Z.eqb code 404)
         then logger_exception "Fetch failed: %s: %s" [url]
         else ret tt
     | _ => logger_exception "Fetch failed: %s: %s" [url]
     end in
   ret None)%M.

Definition get_page (url : string) : M (option Page) :=
  (let url := request_url url in
   let* st := get_state in
   match _cache st !! url with
   | Some result =>
       let* _ := logger_debug "Returning %s from cache: %s" [url] in
       ret result
   | None =>
       fun st0 =>
         match try_except (get_page_try url) (get_page_except url) st0 with
         | (r, st1) =>
             let result :=
               match r with Ok p => p | Raise _ => None end in
             (* finally: even if None (failure) *)
             (r, set_cache (fun c => <[url := result]> c) st1)
         end
   end)%M.

(** *** [Locator._update_version_data]

    The download info is a record here, which the function reads;
    [Method._update_version_data] has the dictionary, from which the
    method pops the name and the version. *)

Definition _update_version_data (result : gmap string Distribution)
    (info : DownloadInfo) : gmap string Distribution :=
  let name := di_name info in
  let version := di_version info in
  let dist :=
    match result !! version with
    | Some dist => dist
    | None =>
        mkDistribution (<["Version" := version]> (<["Name" := name]> ∅)) None
    end in
  let md := metadata dist in
  let digest :=
    match di_md5_digest info with
    | Some h => Some h
    | None => md5_digest dist
    end in
  let md :=
    match di_python_version info with
    | Some v => <["Requires-Python" := v]> md
    | None => md
    end in
  let md :=
    if decide (md !! "Download-URL" = Some (di_url info)) then md
    else <["Download-URL" := di_url info]> md in
  <[version := mkDistribution md digest]> result.

(** *** The worker: [_process_download], [_should_queue], [_fetch]

    on links and pages that the helpers accept; [Method.process_link],
    [Method.fetch_body] and [Method._fetch] raise where a helper
    does *)

Definition _process_download (url : string) : M (option DownloadInfo) :=
  (let* st := get_state in
   let '(info, records) :=
     convert_url_to_download_info_log url (Some (project_name st)) in
   let* _ := modify (fun st => fold_left (fun s r => add_log r s) records st) in
   match info with
   | Some i =>
       let* _ := modify (set_result (fun res => _update_version_data res i)) in
       ret info
   | None => ret info
   end)%M.

(** [netloc.split(':', 1)[0]] *)
Definition host_of (netloc : string) : string := fst (split1 ":" netloc).

Definition should_queue (link : string) : bool :=
  let u := urlparse link in
  if endswith_any (UrlLib.path u) (EXTENSIONS ++ [".exe"; ".pdf"]) then false
  else if negb (mem (scheme u) ["http"; "https"]) then false
  else if String.eqb (lower (host_of (netloc u))) "localhost" then false
  else true.

Definition _should_queue (link referrer : string) : M bool :=
  (let result := should_queue link in
   let* _ :=
     if negb result
     then logger_debug "Not queueing %s from %s" [link; referrer]
     else ret tt in
   ret result)%M.

(** lines 251-257: the body of [for link in page.links] *)
Definition process_link (url link : string) : M unit :=
  (let* st := get_state in
   if decide (link ∈ _seen st) then ret tt
   else
     let* _ := modify (set_seen (fun s => {[link]} ∪ s)) in
     let* info := _process_download link in
     match info with
     | Some _ => ret tt
     | None =>
         let* queue := _should_queue link url in
         if queue && startswith url (base_url st) then
           let* _ := logger_debug "Queueing %s from %s" [link; url] in
           modify (set_to_fetch (put (Some link)))
         else ret tt
     end)%M.

(** lines 246-257: the [try] block of the loop, for a dequeued [url] *)
Definition fetch_body (url : option string) : M unit :=
  (match url with
   | Some u =>
       if truthy u then
         let* page := get_page u in
         match page with
         | None => ret tt                        (* continue *)
         | Some p => for_each (elements (links p)) (process_link u)
         end
       else ret tt
   | None => ret tt
   end)%M.

(** what one pass through [while True] ends in *)
Inductive loop_exit : Type :=
| Continue                      (* back to [get()] *)
| Break                         (* the sentinel was seen *)
| Propagate (e : exn).          (* an exception leaves [_fetch] *)

(** one pass through the loop of [_fetch], for any [try] block [body];
    [None] when [get()] blocks *)
Definition fetch_iteration (body : option string -> M unit) (st : State)
    : option (loop_exit * State) :=
  match get (_to_fetch st) with
  | None => None
  | Some (url, q) =>
      match try_finally (body url) task_done (set_to_fetch (fun _ => q) st) with
      | (Ok _, st') =>
          Some (if negb (item_truthy url) then Break else Continue, st')
      | (Raise e, st') => Some (Propagate e, st')
      end
  end.

(** [_fetch], run for at most [fuel] passes by a worker of its own;
    [None] when it would block or [fuel] runs out *)
Fixpoint _fetch (fuel : nat) (st : State) : option (loop_exit * State) :=
  match fuel with
  | O => None
  | S fuel' =>
      match fetch_iteration fetch_body st with
      | Some (Continue, st') => _fetch fuel' st'
      | other => other
      end
  end.

(** [_wait_threads], first loop: one sentinel for each thread *)
Definition _wait_threads_put (threads : list nat) (q : Queue) : Queue :=
  fold_left (fun q _ => put None q) threads q.

(** [_prepare_threads]: the threads started, by number *)
Definition _prepare_threads (num_workers : nat) : list nat :=
  seq 0 num_workers.

End Crawler.

(** ** The pool of workers around one queue

    [get_project] starts [num_workers] threads running [_fetch], puts the
    seed URL, waits in [join()] for the count of unfinished tasks to
    reach zero, and then runs [_wait_threads].  The threads interleave at
    the queue operations, which the queue makes atomic. *)

Inductive worker : Type :=
| Waiting                         (* at [get()] *)
| Working (url : option string)   (* inside the [try] block, holding [url] *)
| Exited                          (* left the loop at [break] *)
| Dead (e : exn).                 (* an exception left [_fetch] *)

Inductive producer : Type :=
| Seeding                 (* before [put(url)] *)
| Joining                 (* in [self._to_fetch.join()] *)
| Stopping (n : nat)      (* in [_wait_threads], [n] sentinels still to put *)
| JoiningThreads          (* in [t.join()] *)
| Returned.

Record pool : Type := mkPool {
  pool_queue : Queue;
  pool_workers : list worker;
  pool_producer : producer
}.

Definition initial_pool (num_workers : nat) : pool :=
  mkPool (mkQueue [] 0 0 0)
    (map (fun _ => Waiting) (_prepare_threads num_workers)) Seeding.

Definition is_working (w : worker) : bool :=
  match w with Working _ => true | _ => false end.

Definition working (ws : list worker) : nat :=
  List.length (List.filter is_working ws).

Definition stopped (w : worker) : bool :=
  match w with Exited | Dead _ => true | _ => false end.

Inductive pool_step : pool -> pool -> Prop :=
| worker_get q ws pr i x q' :
    ws !! i = Some Waiting ->
    get q = Some (x, q') ->
    pool_step (mkPool q ws pr) (mkPool q' (<[i := Working x]> ws) pr)
| worker_put q ws pr i x link :
    ws !! i = Some (Working x) ->
    pool_step (mkPool q ws pr) (mkPool (put (Some link) q) ws pr)
| worker_done q ws pr i x q' :
    ws !! i = Some (Working x) ->
    task_done_q q = Some q' ->
    pool_step (mkPool q ws pr)
      (mkPool q' (<[i := if item_truthy x then Waiting else Exited]> ws) pr)
| worker_raise q ws pr i x e q' :
    ws !! i = Some (Working x) ->
    task_done_q q = Some q' ->
    pool_step (mkPool q ws pr) (mkPool q' (<[i := Dead e]> ws) pr)
| producer_seed q ws url :
    pool_step (mkPool q ws Seeding) (mkPool (put (Some url) q) ws Joining)
| producer_join q ws :
    unfinished_tasks q = 0 ->
    pool_step (mkPool q ws Joining) (mkPool q ws (Stopping (List.length ws)))
| producer_sentinel q ws n :
    pool_step (mkPool q ws (Stopping (S n)))
      (mkPool (put None q) ws (Stopping n))
| producer_sentinels_done q ws :
    pool_step (mkPool q ws (Stopping 0)) (mkPool q ws JoiningThreads)
| producer_return q ws :
    forallb stopped ws = true ->
    pool_step (mkPool q ws JoiningThreads) (mkPool q ws Returned).

Inductive reachable (num_workers : nat) : pool -> Prop :=
| reachable_init : reachable num_workers (initial_pool num_workers)
| reachable_step s s' :
    reachable num_workers s -> pool_step s s' -> reachable num_workers s'.

(** the sentinels among the pending items *)
Definition sentinels (q : Queue) : nat :=
  List.length (List.filter (fun x => negb (item_truthy x)) (items q)).

(** ** [AggregatingLocator.get_project] *)

Section Aggregating.

Variable Dist : Type.

(** a locator, as the mapping its [get_project] returns for a name *)
Definition locator : Type := string -> gmap string Dist.

(** [if r:] for a dictionary *)
Definition dict_truthy (r : gmap string Dist) : bool :=
  negb (bool_decide (r = ∅)).

(** the [for] loop from locator number [i] on; the second component
    lists the locators whose [get_project] was called, in order *)
Fixpoint aggregating_loop (locators : list locator) (merge : bool)
    (name : string) (i : nat) (result : gmap string Dist) (called : list nat)
    : gmap string Dist * list nat :=
  match locators with
  | [] => (result, called)
  | l :: rest =>
      let r := l name in
      let called := (called ++ [i])%list in
      if dict_truthy r then
        if merge
        then aggregating_loop rest merge name (S i) (r ∪ result) called
                                                    (* result.update(r) *)
        else (r, called)                            (* result = r; break *)
      else aggregating_loop rest merge name (S i) result called
  end.

Definition aggregating_get_project (locators : list locator) (merge : bool)
    (name : string) : gmap string Dist * list nat :=
  aggregating_loop locators merge name 0 ∅ [].

(** ** [locate] *)

(** Modelled from the spec: the collaborator of [distlib.version].  A
    predicate parses into a project name and a constraint; matching a
    version against the constraint gives a boolean or fails; the legacy
    key of a version is compared with [<]. *)
Record VersionPredicate : Type := mkVersionPredicate {
  vp_name : string;
  vp_match : string -> outcome bool
}.

Variable parse_predicate : string -> VersionPredicate.
Variable key : Type.
Variable legacy_version_key : string -> key.
Variable key_lt : key -> key -> bool.

(** the locator wrapped by [default_locator] *)
Variable scraping_get_project : locator.

Definition default_locator_get_project (name : string) : gmap string Dist :=
  fst (aggregating_get_project [scraping_get_project] false name).

(** [sorted(l, key=legacy_version_key)]: stable, ascending *)
Fixpoint insert_sorted (x : string) (l : list string) : list string :=
  match l with
  | [] => [x]
  | y :: l' =>
      if key_lt (legacy_version_key x) (legacy_version_key y)
      then x :: y :: l'
      else y :: insert_sorted x l'
  end.

Definition sorted (l : list string) : list string :=
  fold_left (fun acc x => insert_sorted x acc) l [].

(** lines 358-363: the versions on which [vp.match] returns true; one on
    which it raises is passed over *)
Fixpoint matching (vp : VersionPredicate) (ks : list string) : list string :=
  match ks with
  | [] => []
  | k :: ks' =>
      match vp_match vp k with
      | Ok true => k :: matching vp ks'
      | Ok false => matching vp ks'
      | Raise _ => matching vp ks'           (* except Exception: pass *)
      end
  end.

(** the keys of a dictionary, in its iteration order *)
Definition keys (d : gmap string Dist) : list string :=
  (map_to_list d).*1.

Definition locate (predicate : string) : option Dist :=
  let vp := parse_predicate predicate in
  let versions := default_locator_get_project (vp_name vp) in
  if dict_truthy versions then
    let slist := matching vp (keys versions) in
    let slist := if Nat.ltb 1 (List.length slist) then sorted slist else slist in
    match last slist with
    | Some k => versions !! k                     (* versions[slist[-1]] *)
    | None => None
    end
  else None.

End Aggregating.

(** ** Vocabulary of the statements *)

(** what [PROJECT_NAME_AND_VERSION] still has to match after the name
    has ended at offset [j]: a dash, a digit, and a greedy run of version
    characters *)
Definition after_name (j : nat) (s : string) (c : captures)
    : option (nat * captures) :=
  m (lit "-" @@ Group 2 (Cls (range "0" "9") @@ Star version_char))%re
    j s ((1, (0, j)) :: c) accept.

(** [s] reads [name - version rest]: a non-empty name over
    [[a-z0-9_.-]] (either case), a dash, a version over [[0-9_.-]] that
    starts with a digit and is not continued by [rest] *)
Definition name_version_split (s name version rest : string) : Prop :=
  s = name ++ "-" ++ version ++ rest /\
  name <> "" /\
  all_chars name_char name = true /\
  starts_with digit version = true /\
  all_chars version_char version = true /\
  starts_with version_char rest = false.

(** [n] is a candidate project name in [s]: a non-empty prefix over the
    name characters, followed by a dash and a digit *)
Definition name_candidate (s n : string) : Prop :=
  exists t, s = n ++ "-" ++ t /\ n <> "" /\
            all_chars name_char n = true /\ starts_with digit t = true.

(** a dash followed by a digit occurs in [s] *)
Fixpoint has_dash_digit (s : string) : bool :=
  match s with
  | EmptyString => false
  | String a s' => (Ascii.eqb a "-" && starts_with digit s') || has_dash_digit s'
  end.

(** the extensions of [EXTENSIONS] other than [.egg] *)
Definition archive_extensions : list string :=
  [".tar.gz"; ".tar.bz2"; ".tar"; ".zip"; ".tgz"].

Definition newline : string := String "010" "".



(** the expected project name, if one is given, is [name] up to case *)
Definition expected_name (project_name : option string) (name : string)
    : Prop :=
  not_project_name project_name = true \/
  project_name_lower project_name = lower name.

(** the parsed URL with its fragment removed, as handed to [urlunparse] *)
Definition without_fragment (u : ParseResult) : ParseResult :=
  mkParseResult (scheme u) (netloc u) (UrlLib.path u) (params u) (query u)
    EmptyString.

(** the split that the specification describes: the version takes all
    that follows the dash, and no candidate name is shorter *)
Definition shortest_name_split (stem name version : string) : Prop :=
  stem = name ++ "-" ++ version /\
  name_candidate stem name /\
  forall n, name_candidate stem n -> String.length name <= String.length n.

(** the one failure that [get_page] does not log *)
Definition is_404 (e : exn) : bool :=
  match e with
  | HTTPError code => Z.eqb code 404
  | _ => false
  end.

(** [headers.get('Content-Type', '')] *)
Definition content_type (resp : Response) : string :=
  match content_type_header resp with
  | Some s => s
  | None => EmptyString
  end.

(** the charset named by the content type, UTF-8 by default *)
Definition charset_of (content_type : string) : string :=
  match re_search CHARSET content_type with
  | Some mo => group_str mo 1
  | None => "utf-8"
  end.

(** a link is in scope: its scheme is [http] or [https], its host is
    not [localhost], and its path does not end in an archive, [.exe] or
    [.pdf] extension *)
Definition in_scope (link : string) : bool :=
  let u := urlparse link in
  mem (scheme u) ["http"; "https"] &&
  negb (String.eqb (lower (host_of (netloc u))) "localhost") &&
  negb (endswith_any (UrlLib.path u) (EXTENSIONS ++ [".exe"; ".pdf"])).

(** a computation that leaves the queue as it is *)
Definition keeps_queue {A} (c : M A) : Prop :=
  forall st, _to_fetch (snd (c st)) = _to_fetch st.

(** [put] of each URL of [links], in order *)
Definition put_all (links : list string) (q : Queue) : Queue :=
  fold_left (fun q l => put (Some l) q) links q.

(** a computation whose only effect on the queue is to put URLs *)
Definition only_puts {A} (c : M A) : Prop :=
  forall st, exists links, _to_fetch (snd (c st)) = put_all links (_to_fetch st).

(** the worker after a pass through the loop *)
Definition worker_after (exit : loop_exit) : worker :=
  match exit with
  | Continue => Waiting
  | Break => Exited
  | Propagate e => Dead e
  end.

(** every pending item has been counted as an unfinished task *)
Definition queue_counted (q : Queue) : Prop :=
  List.length (items q) <= unfinished_tasks q.

(** the count of unfinished tasks is the number of pending items plus
    the number of workers holding one; the same for the ghost counters *)
Definition pool_invariant (s : pool) : Prop :=
  unfinished_tasks (pool_queue s) =
  List.length (items (pool_queue s)) + working (pool_workers s) /\
  n_get (pool_queue s) = n_done (pool_queue s) + working (pool_workers s).

(** the entry for [k] of the last locator of [ls] that has one *)
Fixpoint lookup_latest {Dist : Type} (ls : list (locator Dist))
    (name k : string) : option Dist :=
  match ls with
  | [] => None
  | l :: rest =>
      match lookup_latest rest name k with
      | Some v => Some v
      | None => l name !! k
      end
  end.

(** [a] does not come after [b] in the order of the legacy keys *)
Definition key_le {key : Type} (legacy_version_key : string -> key)
    (key_lt : key -> key -> bool) (a b : string) : Prop :=
  key_lt (legacy_version_key b) (legacy_version_key a) = false.

(** a computation that leaves [f] of the state as it is *)
Definition keeps {A X} (f : State -> X) (c : M A) : Prop :=
  forall st, f (snd (c st)) = f st.

(** a computation whose final state is related to its initial one *)
Definition preserves {A} (R : State -> State -> Prop) (c : M A) : Prop :=
  forall st, R st (snd (c st)).

(** every URL of the cache stays in it *)
Definition cache_grows (st st' : State) : Prop :=
  dom (_cache st) ⊆ dom (_cache st').

(** what group 1 of [PYTHON_VERSION] can hold: a digit, then an optional
    dot, then an optional digit *)
Definition python_tag (t : string) : bool :=
  match t with
  | String d rest =>
      digit d &&
      match rest with
      | EmptyString => true
      | String a EmptyString => chr "." a || digit a
      | String a (String b EmptyString) => chr "." a && digit b
      | _ => false
      end
  | EmptyString => false
  end.

(** every record of a result is filed under its own version, and names
    its project and where to download it from *)
Definition filed_under_version (r : gmap string Distribution) : Prop :=
  forall v d, r !! v = Some d ->
    metadata d !! "Version" = Some v /\
    is_Some (metadata d !! "Name") /\
    is_Some (metadata d !! "Download-URL").

(** ** [DirectoryLocator.get_project] *)

Section Directory.

(** [os.walk(self.base_dir)], as the directories visited with the files
    of each, and [pathname2url(os.path.abspath(os.path.join(root, fn)))] *)
Variable walk : list (string * list string).
Variable path_url : string -> string -> string.

(** lines 321-326: the body of [for fn in files] *)
Definition directory_file (name root : string)
    (result : gmap string Distribution) (fn : string)
    : gmap string Distribution :=
  if endswith_any fn EXTENSIONS then
    let url := path_url root fn in
    match convert_url_to_download_info url (Some name) with
    | Some info => _update_version_data result info
    | None => result
    end
  else result.

Definition directory_get_project (name : string) : gmap string Distribution :=
  fold_left
    (fun result '(root, files) =>
       fold_left (directory_file name root) files result)
    walk ∅.

(** the files of the walk, each with its directory, in the order of the
    two loops *)
Definition walked_files : list (string * string) :=
  flat_map (fun '(root, files) => map (fun fn => (root, fn)) files) walk.

End Directory.

(** the characters of group 1 of [Page._base]: no quote and no [>] *)
Definition base_char : ascii -> bool :=
  non (cup (chr squote) (cup (chr dquote) (chr ">"))).

(** the optional quote in front of it *)
Definition quote_char : ascii -> bool := cup (chr squote) (chr dquote).

(** ** The methods with the failures of their helpers

    The definitions so far give what the methods do on the inputs on
    which their helpers return.  Four helpers of [distlib.compat] can
    raise instead, outside any [try] block of the module: [urlparse]
    (through [urlsplit], on a netloc with one square bracket and not the
    other), [Request], [urljoin] and [unescape].  The module below has
    the methods as they run on any input: [Method.f] raises where [f] of
    the source raises, and agrees with the definitions above where it
    returns.  [os.path.isdir] and [ensure_slash] stay functions that
    return. *)

(** the test of [urlsplit] that ends in
    [raise ValueError("Invalid IPv6 URL")] *)
Definition netloc_error (netloc : string) : bool :=
  (contains "[" netloc && negb (contains "]" netloc)) ||
  (contains "]" netloc && negb (contains "[" netloc)).

(** [urlparse(url)] raises *)
Definition unparsable (url : string) : bool :=
  netloc_error (netloc (urlparse url)).

Module Method.

(** [urlparse(url)]: the netloc is split off before the test, and is
    empty when the URL has none *)
Definition urlparse (url : string) : outcome ParseResult :=
  if unparsable url then Raise ValueError else Ok (UrlLib.urlparse url).

(** *** [Locator.convert_url_to_download_info] *)

Definition convert_url_to_download_info_log (url : string)
    (project_name : option string)
    : outcome (option DownloadInfo * list log_record) :=
  match urlparse url with
  | Raise e => Raise e
  | Ok u =>
      Ok (if endswith_any (path u) EXTENSIONS
          then ext_loop EXTENSIONS u project_name (basename (path u))
          else (None, []))
  end.

Definition convert_url_to_download_info (url : string)
    (project_name : option string) : outcome (option DownloadInfo) :=
  match convert_url_to_download_info_log url project_name with
  | Raise e => Raise e
  | Ok r => Ok (fst r)
  end.

(** *** [Locator._update_version_data] *)

(** the dictionary that [convert_url_to_download_info] builds *)
Definition info_dict (i : DownloadInfo) : gmap string string :=
  <["name" := di_name i]>
    (<["version" := di_version i]>
       (<["filename" := di_filename i]>
          (<["url" := di_url i]>
             (match di_python_version i with
              | Some v => <["python-version" := v]>
              | None => fun d => d
              end
                (match di_md5_digest i with
                 | Some h => <["md5_digest" := h]> ∅
                 | None => ∅
                 end))))).

(** [d.pop(key)]: the value and what is left of [d] *)
Definition pop (key : string) (d : gmap string string)
    : outcome (string * gmap string string) :=
  match d !! key with
  | Some v => Ok (v, delete key d)
  | None => Raise KeyError
  end.

(** the method on the dictionaries it is given: how it ends, and the
    two dictionaries as it leaves them.  A record that is in [result]
    already is updated in place, so what lines 94-97 did to it stays
    when line 98 raises. *)
Definition _update_version_data (result : gmap string Distribution)
    (info : gmap string string)
    : outcome unit * (gmap string Distribution * gmap string string) :=
  match pop "name" info with
  | Raise e => (Raise e, (result, info))
  | Ok (name, info) =>
      match pop "version" info with
      | Raise e => (Raise e, (result, info))
      | Ok (version, info) =>
          let known := result !! version in
          let dist :=
            match known with
            | Some dist => dist
            | None =>
                mkDistribution
                  (<["Version" := version]> (<["Name" := name]> ∅)) None
            end in
          let md := metadata dist in
          let digest :=
            match info !! "md5_digest" with
            | Some h => Some h
            | None => md5_digest dist
            end in
          let md :=
            match info !! "python-version" with
            | Some v => <["Requires-Python" := v]> md
            | None => md
            end in
          match info !! "url" with
          | None =>
              (Raise KeyError,
               (match known with
                | Some _ => <[version := mkDistribution md digest]> result
                | None => result
                end, info))
          | Some url =>
              let md :=
                if decide (md !! "Download-URL" = Some url) then md
                else <["Download-URL" := url]> md in
              (Ok tt, (<[version := mkDistribution md digest]> result, info))
          end
      end
  end.

(** *** [_process_download], [_should_queue] and the loop over the links *)

Definition _process_download (url : string) : M (option DownloadInfo) :=
  (let* st := get_state in
   let* r := lift (convert_url_to_download_info_log url
                     (Some (project_name st))) in
   let* _ := modify (fun st => fold_left (fun s r => add_log r s) (snd r) st) in
   match fst r with
   | Some i =>
       fun st1 =>
         match _update_version_data (result st1) (info_dict i) with
         | (Ok _, (res, _)) => (Ok (Some i), set_result (fun _ => res) st1)
         | (Raise e, (res, _)) => (Raise e, set_result (fun _ => res) st1)
         end
   | None => ret None
   end)%M.

Definition should_queue (link : string) : outcome bool :=
  match urlparse link with
  | Raise e => Raise e
  | Ok u =>
      Ok (if endswith_any (UrlLib.path u) (EXTENSIONS ++ [".exe"; ".pdf"])
          then false
          else if negb (mem (scheme u) ["http"; "https"]) then false
          else if String.eqb (lower (host_of (netloc u))) "localhost"
               then false
               else true)
  end.

Definition _should_queue (link referrer : string) : M bool :=
  (let* result := lift (should_queue link) in
   let* _ :=
     if negb result
     then logger_debug "Not queueing %s from %s" [link; referrer]
     else ret tt in
   ret result)%M.

(** lines 251-257 *)
Definition process_link (url link : string) : M unit :=
  (let* st := get_state in
   if decide (link ∈ _seen st) then ret tt
   else
     let* _ := modify (set_seen (fun s => {[link]} ∪ s)) in
     let* info := _process_download link in
     match info with
     | Some _ => ret tt
     | None =>
         let* queue := _should_queue link url in
         if queue && startswith url (base_url st) then
           let* _ := logger_debug "Queueing %s from %s" [link; url] in
           modify (set_to_fetch (put (Some link)))
         else ret tt
     end)%M.

Section Locator.

Variable urlopen : string -> outcome Response.
Variable zlib_decompress : string -> outcome string.
Variable gzip_read : string -> outcome string.
Variable bytes_decode : string -> string -> outcome string.
Variable isdir : string -> bool.
Variable ensure_slash : string -> string.

(** [unescape(url)], [urljoin(base, url)] and
    [Request(url, headers=...)], which return or raise *)
Variable unescape : string -> outcome string.
Variable urljoin : string -> option string -> outcome string.
Variable Request : string -> outcome unit.

(** an exception of one of the four helpers: the [ValueError] of
    [urlparse], or what [Request], [urljoin] or [unescape] raises on
    some argument *)
Definition helper_failure (e : exn) : Prop :=
  e = ValueError \/
  (exists u, Request u = Raise e) \/
  (exists base u, urljoin base u = Raise e) \/
  (exists u, unescape u = Raise e).

(** [Page.links]: the loop ends at the first [urljoin] or [unescape]
    that raises *)
Definition links (p : Page) : outcome (gset string) :=
  fold_left
    (fun acc mo =>
       match acc with
       | Raise e => Raise e
       | Ok result =>
           let url := py_or (group mo 1) (py_or (group mo 2) (group mo 3)) in
           match urljoin (page_base_url p) url with
           | Raise e => Raise e
           | Ok url =>
               match unescape url with
               | Raise e => Raise e
               | Ok url => Ok ({[url]} ∪ result)
               end
           end
       end)
    (finditer Page_href (page_data p)) (Ok ∅).

(** lines 266-268 *)
Definition request_url (url : string) : outcome string :=
  match urlparse url with
  | Raise e => Raise e
  | Ok u =>
      if String.eqb (scheme u) "file" && isdir (UrlLib.path u)
      then urljoin (ensure_slash url) (Some "index.html")
      else Ok url
  end.

(** [SimpleScrapingLocator.get_page]; the [try] block and its handlers
    are [get_page_try] and [get_page_except] *)
Definition get_page (url : string) : M (option Page) :=
  (let* url := lift (request_url url) in
   let* st := get_state in
   match _cache st !! url with
   | Some result =>
       let* _ := logger_debug "Returning %s from cache: %s" [url] in
       ret result
   | None =>
       let* _ := lift (Request url) in
       fun st0 =>
         match try_except
                 (get_page_try urlopen zlib_decompress gzip_read bytes_decode
                    url)
                 (get_page_except url) st0 with
         | (r, st1) =>
             let result :=
               match r with Ok p => p | Raise _ => None end in
             (* finally: even if None (failure) *)
             (r, set_cache (fun c => <[url := result]> c) st1)
         end
   end)%M.

(** lines 246-257: the [try] block of the loop of [_fetch] *)
Definition fetch_body (url : option string) : M unit :=
  (match url with
   | Some u =>
       if truthy u then
         let* page := get_page u in
         match page with
         | None => ret tt                        (* continue *)
         | Some p =>
             let* ls := lift (links p) in
             for_each (elements ls) (process_link u)
         end
       else ret tt
   | None => ret tt
   end)%M.

(** [_fetch], for at most [fuel] passes; [None] when it would block or
    [fuel] runs out *)
Fixpoint _fetch (fuel : nat) (st : State) : option (loop_exit * State) :=
  match fuel with
  | O => None
  | S fuel' =>
      match fetch_iteration fetch_body st with
      | Some (Continue, st') => _fetch fuel' st'
      | other => other
      end
  end.

End Locator.

End Method.

(** ** A sample index, used to run the definitions on concrete input *)

Module Sample.

Definition index_url : string := "http://pypi.python.org/simple/".
Definition foo_url : string := "http://pypi.python.org/simple/foo/".
Definition bar_url : string := "http://pypi.python.org/simple/bar/".

Definition foo_html : string :=
  "<html><a href='foo-1.0.tar.gz#md5=0123abcd'>foo-1.0</a></html>".

(** [foo/] is served gzip-encoded, [bar/] does not exist, any other URL
    cannot be reached *)
Definition urlopen (url : string) : outcome Response :=
  if String.eqb url foo_url then
    Ok (mkResponse (Some "text/html; charset=utf-8") (Some "gzip") url
          (Ok foo_html))
  else if String.eqb url bar_url then Raise (HTTPError 404)
  else Raise URLError.

Definition zlib_decompress (b : string) : outcome string := Ok b.
Definition gzip_read (b : string) : outcome string := Ok b.
Definition bytes_decode (b encoding : string) : outcome string := Ok b.
Definition isdir (path : string) : bool := false.
Definition urljoin (base : string) (url : option string) : string :=
  match url with
  | Some u => base ++ u
  | None => base
  end.
Definition unescape (s : string) : string := s.
Definition ensure_slash (s : string) : string :=
  if endswith s "/" then s else s ++ "/".

Definition get_page : string -> M (option Page) :=
  get_page urlopen zlib_decompress gzip_read bytes_decode isdir urljoin
    ensure_slash.

(** a locator for project [foo] that has started one worker and put
    nothing yet *)
Definition state : State :=
  mkState index_url "foo" ∅ ∅ (mkQueue [] 0 0 0) ∅ [] [].

Definition fetch_body : option string -> M unit :=
  fetch_body urlopen zlib_decompress gzip_read bytes_decode isdir urljoin
    unescape ensure_slash.

Definition _fetch : nat -> State -> option (loop_exit * State) :=
  _fetch urlopen zlib_decompress gzip_read bytes_decode isdir urljoin
    unescape ensure_slash.

(** the same after [put(url)] of the project page *)
Definition seeded_state : State :=
  mkState index_url "foo" ∅ ∅ (mkQueue [Some foo_url] 1 0 0) ∅ [] [].

(** the same once the page is done and the sentinel is put *)
Definition stopping_state : State :=
  mkState index_url "foo" ∅ ∅ (mkQueue [None] 1 1 1) ∅ [] [].

End Sample.

(** ** Sample locators and a sample version order *)

Module SampleLocators.

(** an index that knows nothing, one with releases 1.0 and 2.0, and a
    mirror with another 2.0 and a 3.0 ; a distribution is its URL *)
Definition empty_index : locator string := fun _ => ∅.
Definition main_index : locator string :=
  fun _ => <["1.0" := "http://main/foo-1.0.tar.gz"]>
             (<["2.0" := "http://main/foo-2.0.tar.gz"]> ∅).
Definition mirror : locator string :=
  fun _ => <["2.0" := "http://mirror/foo-2.0.tar.gz"]>
             (<["3.0" := "http://mirror/foo-3.0.tar.gz"]> ∅).

(** [foo (>= 1.0, < 3.0)]: matching fails on anything that does not
    start with a digit *)
Definition sample_match (version : string) : outcome bool :=
  if starts_with digit version
  then Ok (String.leb "1.0" version && String.ltb version "3.0")
  else Raise ValueError.

Definition parse_predicate (predicate : string) : VersionPredicate :=
  mkVersionPredicate "foo" sample_match.

(** versions ordered by the code of their first character *)
Definition legacy_version_key (version : string) : nat :=
  match version with
  | String c _ => nat_of_ascii c
  | EmptyString => 0
  end.
Definition key_lt (a b : nat) : bool := Nat.ltb a b.

(** the spec's scenario: 1.0, 2.0 and a version that cannot be matched *)
Definition scraped : locator string :=
  fun _ => <["1.0" := "http://main/foo-1.0.tar.gz"]>
             (<["2.0" := "http://main/foo-2.0.tar.gz"]>
                (<["bogus" := "http://main/foo-bogus.tar.gz"]> ∅)).

Definition locate : string -> option string :=
  locate string parse_predicate nat legacy_version_key key_lt scraped.

End SampleLocators.

(** ** A sample mirror: a redirect, a deflated page, an unknown encoding *)

Module SampleMirror.

Definition index_url : string := "http://mirror/simple/".
Definition foo_request : string := "http://mirror/simple/foo".
Definition foo_url : string := "http://mirror/simple/foo/".
Definition baz_url : string := "http://mirror/simple/baz/".

Definition foo_html : string :=
  "<html><a href='foo-1.0.tar.gz#md5=0123abcd'>foo-1.0</a> <a href='old/'>older</a> <a href='foo-1.0.tar.gz#md5=0123abcd'>again</a></html>".

(** [foo] redirects to [foo/], served deflated; [baz/] comes with an
    encoding that has no decoder; any other URL cannot be reached *)
Definition urlopen (url : string) : outcome Response :=
  if String.eqb url foo_request then
    Ok (mkResponse (Some "text/html") (Some "deflate") foo_url (Ok foo_html))
  else if String.eqb url baz_url then
    Ok (mkResponse (Some "text/html") (Some "br") baz_url (Ok foo_html))
  else Raise URLError.

Definition get_page : string -> M (option Page) :=
  get_page urlopen Sample.zlib_decompress Sample.gzip_read Sample.bytes_decode
    Sample.isdir Sample.urljoin Sample.ensure_slash.

Definition state : State :=
  mkState index_url "foo" ∅ ∅ (mkQueue [] 0 0 0) ∅ [] [].

(** two URLs and the sentinel are pending *)
Definition queued_state : State :=
  mkState index_url "foo" ∅ ∅
    (mkQueue [Some foo_request; Some baz_url; None] 3 0 0) ∅ [] [].

End SampleMirror.

(** ** A sample directory of archives *)

Module SampleDirectory.

Definition walk : list (string * list string) :=
  [("/srv/pkgs", ["README.txt"; "foo-1.0.tar.gz"; "foo-1.0.zip"]);
   ("/srv/pkgs/old", ["foo-0.9.tgz"; "bar-2.0.zip"; "foo-0.8.egg"])].

Definition path_url (root fn : string) : string := root ++ "/" ++ fn.

Definition get_project : string -> gmap string Distribution :=
  directory_get_project walk path_url.

End SampleDirectory.

(** ** A sample page with a link that [urlparse] rejects *)

Module SampleMethod.

Definition evil_url : string := "http://mirror/simple/evil/".
Definition evil_link : string := "http://[::1/foo-1.0.zip".
Definition good_link : string := "http://mirror/simple/foo-0.9.tar.gz".
Definition late_link : string := "http://mirror/simple/foo/old/".

Definition evil_html : string :=
  "<html><a href='http://[::1/foo-1.0.zip'>foo-1.0</a></html>".

(** [evil/] is served as it is; any other URL cannot be reached *)
Definition urlopen (url : string) : outcome Response :=
  if String.eqb url evil_url then
    Ok (mkResponse (Some "text/html") None evil_url (Ok evil_html))
  else Raise URLError.

(** [urljoin] parses the URL it is given, and fails where [urlparse]
    does; an absolute URL is returned as it is *)
Definition urljoin (base : string) (url : option string) : outcome string :=
  match url with
  | Some u =>
      if unparsable u then Raise ValueError
      else if contains ":" u then Ok u else Ok (base ++ u)
  | None => Ok base
  end.

(** [Request] wants a URL with a scheme *)
Definition Request (url : string) : outcome unit :=
  if contains ":" url then Ok tt else Raise ValueError.

Definition unescape (s : string) : outcome string := Ok s.

Definition get_page : string -> M (option Page) :=
  Method.get_page urlopen Sample.zlib_decompress Sample.gzip_read
    Sample.bytes_decode Sample.isdir Sample.ensure_slash urljoin Request.

Definition _fetch : nat -> State -> option (loop_exit * State) :=
  Method._fetch urlopen Sample.zlib_decompress Sample.gzip_read
    Sample.bytes_decode Sample.isdir Sample.ensure_slash unescape urljoin
    Request.

(** a worker on the sample mirror, whose pages have no such link *)
Definition mirror_fetch : nat -> State -> option (loop_exit * State) :=
  Method._fetch SampleMirror.urlopen Sample.zlib_decompress Sample.gzip_read
    Sample.bytes_decode Sample.isdir Sample.ensure_slash unescape urljoin
    Request.

Definition state : State :=
  mkState SampleMirror.index_url "foo" ∅ ∅ (mkQueue [] 0 0 0) ∅ [] [].

(** the page with the link, a second URL and the sentinel are pending *)
Definition queued_state : State :=
  mkState SampleMirror.index_url "foo" ∅ ∅
    (mkQueue [Some evil_url; Some SampleMirror.baz_url; None] 3 0 0) ∅ [] [].

End SampleMethod.

(** * Properties *)

(** ** Strings *)

#[local] Arguments String.append !s1 s2 : simpl nomatch.

Section StringFacts.

Lemma app_empty_r (s : string) : s ++ "" = s.
Proof. induction s as [|a s IH]; simpl; [reflexivity | now rewrite IH]. Qed.

Lemma app_assoc' (a b c : string) : (a ++ b) ++ c = a ++ (b ++ c).
Proof. induction a as [|x a IH]; simpl; [reflexivity | now rewrite IH]. Qed.

Lemma length_app (a b : string) :
  String.length (a ++ b) = String.length a + String.length b.
Proof. induction a as [|x a IH]; simpl; [reflexivity | now rewrite IH]. Qed.

Lemma app_inv_head (a b c : string) : a ++ b = a ++ c -> b = c.
Proof. induction a as [|x a IH]; simpl; intros H; [assumption | inversion H; auto]. Qed.

(** two ways of cutting one string: the shorter head is a prefix of the
    longer one *)
Lemma app_eq_app (a b a' b' : string) :
  a ++ b = a' ++ b' ->
  String.length a <= String.length a' ->
  exists y, a' = a ++ y /\ b = y ++ b'.
Proof.
  revert a'. induction a as [|x a IH]; intros a' H Hlen; simpl in *.
  - exists a'. split; [reflexivity | assumption].
  - destruct a' as [|x' a']; simpl in *; [lia |].
    inversion H; subst x'.
    destruct (IH a') as (y & -> & ->); [assumption | lia |].
    exists y. split; reflexivity.
Qed.

Lemma contains_app (c : ascii) (a b : string) :
  contains c (a ++ b) = contains c a || contains c b.
Proof.
  induction a as [|x a IH]; simpl; [reflexivity |].
  rewrite IH. now rewrite orb_assoc.
Qed.

Lemma all_chars_app (p : ascii -> bool) (a b : string) :
  all_chars p (a ++ b) = all_chars p a && all_chars p b.
Proof.
  induction a as [|x a IH]; simpl; [reflexivity |].
  rewrite IH. now rewrite andb_assoc.
Qed.

Lemma all_chars_contains (p : ascii -> bool) (c : ascii) (s : string) :
  all_chars p s = true -> contains c s = true -> p c = true.
Proof.
  induction s as [|a s IH]; simpl; [discriminate |].
  intros [Ha Hs]%andb_prop [Hc | Hc]%orb_prop.
  - apply Ascii.eqb_eq in Hc. now subst.
  - auto.
Qed.

Lemma endswith_nil (suf : string) : endswith "" suf = String.eqb "" suf.
Proof. simpl. apply orb_false_r. Qed.

Lemma endswith_cons (a : ascii) (s suf : string) :
  endswith (String a s) suf = String.eqb (String a s) suf || endswith s suf.
Proof. reflexivity. Qed.

Lemma endswith_refl (s : string) : endswith s s = true.
Proof.
  destruct s; [reflexivity |].
  rewrite endswith_cons, String.eqb_refl. reflexivity.
Qed.

Lemma endswith_iff (s suf : string) :
  endswith s suf = true <-> exists pre, s = pre ++ suf.
Proof.
  split.
  - induction s as [|a s IH].
    + rewrite endswith_nil. intros <-%String.eqb_eq. now exists "".
    + rewrite endswith_cons. intros [<-%String.eqb_eq | H]%orb_prop.
      * now exists "".
      * destruct (IH H) as [pre ->]. now exists (String a pre).
  - intros [pre ->]. induction pre as [|a pre IH].
    + apply endswith_refl.
    + change (String a pre ++ suf) with (String a (pre ++ suf)).
      rewrite endswith_cons, IH. apply orb_true_r.
Qed.

Lemma endswith_app (pre suf : string) : endswith (pre ++ suf) suf = true.
Proof. apply endswith_iff. now exists pre. Qed.

Lemma endswith_both (s a b : string) :
  endswith s a = true -> endswith s b = true ->
  endswith a b = true \/ endswith b a = true.
Proof.
  induction s as [|x s IH].
  - rewrite !endswith_nil. intros <-%String.eqb_eq <-%String.eqb_eq.
    now left.
  - rewrite !endswith_cons.
    intros [<-%String.eqb_eq | Ha]%orb_prop Hb.
    + left. rewrite endswith_cons. exact Hb.
    + apply orb_prop in Hb as [<-%String.eqb_eq | Hb].
      * right. rewrite endswith_cons, Ha. apply orb_true_r.
      * auto.
Qed.

Lemma endswith_contains (c : ascii) (s suf : string) :
  endswith s suf = true -> contains c suf = true -> contains c s = true.
Proof.
  intros [pre ->]%endswith_iff H. rewrite contains_app, H. apply orb_true_r.
Qed.

(** [after_last c s] is a suffix of [s] and holds no [c] *)
Lemma after_last_suffix (c : ascii) (s : string) :
  exists pre, s = pre ++ after_last c s.
Proof.
  induction s as [|a s [pre IH]]; simpl.
  - now exists "".
  - destruct (contains c s).
    + exists (String a pre). simpl. now rewrite <- IH.
    + destruct (Ascii.eqb a c).
      * now exists (String a "").
      * now exists "".
Qed.

Lemma after_last_free (c : ascii) (s : string) :
  contains c (after_last c s) = false.
Proof.
  induction s as [|a s IH]; simpl; [reflexivity |].
  destruct (contains c s) eqn:Hs; [assumption |].
  destruct (Ascii.eqb a c) eqn:Ha; [assumption |].
  simpl. now rewrite Ha, Hs.
Qed.

Lemma after_last_id (c : ascii) (s : string) :
  contains c s = false -> after_last c s = s.
Proof.
  destruct s as [|a s]; simpl; [reflexivity |].
  intros [Ha Hs]%orb_false_elim. now rewrite Hs, Ha.
Qed.

Lemma after_last_app (c : ascii) (a b : string) :
  after_last c (a ++ String c b) = after_last c b.
Proof.
  induction a as [|x a IH]; simpl.
  - destruct (contains c b) eqn:Hb; [reflexivity |].
    rewrite Ascii.eqb_refl. symmetry. now apply after_last_id.
  - rewrite contains_app. simpl. rewrite Ascii.eqb_refl. simpl.
    rewrite orb_true_r. exact IH.
Qed.

Lemma all_chars_after_last (p : ascii -> bool) (c : ascii) (s : string) :
  all_chars p s = true -> all_chars p (after_last c s) = true.
Proof.
  destruct (after_last_suffix c s) as [pre H]. intros Hs.
  rewrite H, all_chars_app in Hs. now apply andb_prop in Hs.
Qed.

(** a suffix without slash of a path is a suffix of its base name *)
Lemma basename_endswith (p ext : string) :
  contains "/" ext = false ->
  endswith p ext = true -> endswith (basename p) ext = true.
Proof.
  unfold basename. intros Hext. induction p as [|a p IH].
  - auto.
  - rewrite endswith_cons. intros [<-%String.eqb_eq | H]%orb_prop.
    + rewrite after_last_id by assumption. apply endswith_refl.
    + simpl. destruct (contains "/" p) eqn:Hp; [auto |].
      destruct (Ascii.eqb a "/"); [assumption |].
      rewrite endswith_cons, H. apply orb_true_r.
Qed.

Lemma endswith_basename (p ext : string) :
  endswith (basename p) ext = true -> endswith p ext = true.
Proof.
  intros [pre H]%endswith_iff.
  destruct (after_last_suffix "/" p) as [d Hd].
  apply endswith_iff. exists (d ++ pre).
  rewrite app_assoc'. unfold basename in H. now rewrite <- H.
Qed.

Lemma substring_0_app (a b : string) :
  String.substring 0 (String.length a) (a ++ b) = a.
Proof. induction a as [|x a IH]; simpl; [now destruct b | now rewrite IH]. Qed.

Lemma substring_app (a b c : string) :
  String.substring (String.length a) (String.length b) (a ++ b ++ c) = b.
Proof.
  induction a as [|x a IH]; simpl; [apply substring_0_app | exact IH].
Qed.

Lemma take_app (a b : string) : take (String.length a) (a ++ b) = a.
Proof. apply substring_0_app. Qed.

Lemma drop_last_app (a b : string) : drop_last (String.length b) (a ++ b) = a.
Proof.
  unfold drop_last. rewrite length_app.
  replace (String.length a + String.length b - String.length b)
    with (String.length a) by lia.
  apply take_app.
Qed.

Lemma drop_app (a b : string) : drop (String.length a) (a ++ b) = b.
Proof. induction a as [|x a IH]; simpl; [reflexivity | exact IH]. Qed.

End StringFacts.

(** ** The matcher *)

Section RegexFacts.

(** [[..]*] followed by [k]: when the whole fails, [k] fails after every
    run of the class *)
Lemma star_m_none p i s c k :
  star_m p i s c k = None ->
  forall u v, s = u ++ v -> all_chars p u = true ->
  k (i + String.length u) v c = None.
Proof.
  revert i. induction s as [|a s IH]; intros i H u v Huv Hu.
  - destruct u; [| discriminate]. simpl in *. subst v.
    now rewrite Nat.add_0_r.
  - simpl in H. destruct u as [|b u]; simpl in Huv.
    + subst v. simpl. rewrite Nat.add_0_r.
      destruct (p a); [| assumption].
      destruct (star_m p (S i) s c k); [discriminate | assumption].
    + inversion Huv; subst b s. simpl in Hu.
      apply andb_prop in Hu as [Ha Hu]. rewrite Ha in H.
      destruct (star_m p (S i) (u ++ v) c k) eqn:E; [discriminate |].
      replace (i + String.length (String a u))
        with (S i + String.length u) by (simpl; lia).
      now apply (IH (S i) E u v).
Qed.

(** when it succeeds, [k] succeeded after the longest run it accepts *)
Lemma star_m_some p i s c k r :
  star_m p i s c k = Some r ->
  exists u v,
    s = u ++ v /\ all_chars p u = true /\
    k (i + String.length u) v c = Some r /\
    (forall u' v', s = u' ++ v' -> all_chars p u' = true ->
       String.length u < String.length u' ->
       k (i + String.length u') v' c = None).
Proof.
  revert i. induction s as [|a s IH]; intros i H.
  - simpl in H. exists "", "". simpl. rewrite Nat.add_0_r.
    repeat split; try assumption.
    intros u' v' Huv _ Hlen. destruct u'; simpl in *; [lia | discriminate].
  - simpl in H. destruct (p a) eqn:Ha.
    + destruct (star_m p (S i) s c k) eqn:E.
      * inversion H; subst r.
        destruct (IH _ E) as (u & v & -> & Hu & Hk & Hmax).
        exists (String a u), v. simpl. rewrite Ha, Hu.
        replace (i + S (String.length u)) with (S i + String.length u) by lia.
        repeat split; try assumption.
        intros u' v' Huv Hu' Hlen.
        destruct u' as [|b u']; simpl in *; [lia |].
        inversion Huv; subst b.
        apply andb_prop in Hu' as [_ Hu'].
        replace (i + S (String.length u'))
          with (S i + String.length u') by lia.
        apply Hmax; [assumption | assumption | lia].
      * exists "", (String a s). simpl. rewrite Nat.add_0_r.
        repeat split; try assumption.
        intros u' v' Huv Hu' Hlen.
        destruct u' as [|b u']; simpl in *; [lia |].
        inversion Huv; subst b s.
        apply andb_prop in Hu' as [_ Hu'].
        replace (i + S (String.length u'))
          with (S i + String.length u') by lia.
        now apply (star_m_none _ _ _ _ _ E u' v').
    + exists "", (String a s). simpl. rewrite Nat.add_0_r.
      repeat split; try assumption.
      intros u' v' Huv Hu' Hlen.
      destruct u' as [|b u']; simpl in *; [lia |].
      inversion Huv; subst b. rewrite Ha in Hu'. discriminate.
Qed.

Lemma span_spec p s :
  s = fst (span p s) ++ snd (span p s) /\
  all_chars p (fst (span p s)) = true /\
  starts_with p (snd (span p s)) = false.
Proof.
  induction s as [|a s (IH1 & IH2 & IH3)]; simpl; [auto |].
  destruct (p a) eqn:Ha.
  - destruct (span p s) as [u v]. simpl in *. rewrite Ha.
    repeat split; [now f_equal | assumption | assumption].
  - simpl. now rewrite Ha.
Qed.


(** followed by something that cannot fail, [[..]*] takes its longest run *)
Lemma star_m_span p i s c k :
  (forall j t, k j t c <> None) ->
  star_m p i s c k =
  k (i + String.length (fst (span p s))) (snd (span p s)) c.
Proof.
  intros Hk. revert i. induction s as [|a s IH]; intros i; simpl.
  - now rewrite Nat.add_0_r.
  - destruct (p a).
    + rewrite IH. destruct (span p s) as [u v]. simpl.
      replace (i + S (String.length u)) with (S (i + String.length u)) by lia.
      destruct (k (S (i + String.length u)) v c) eqn:E; [reflexivity |].
      now apply Hk in E.
    + simpl. now rewrite Nat.add_0_r.
Qed.

(** [search] returns a match of the pattern at [m_start] *)
Lemma search_from_some r w i s mo :
  search_from r w i s = Some mo ->
  exists pre t res,
    s = pre ++ t /\ m r (i + String.length pre) t [] accept = Some res /\
    m_start mo = i + String.length pre /\ subject mo = w.
Proof.
  revert i. induction s as [|a s IH]; intros i H; simpl in H.
  - destruct (m r i "" [] accept) as [[j c]|] eqn:E; [| discriminate].
    inversion H; subst mo. exists "", "", (j, c). simpl.
    now rewrite Nat.add_0_r.
  - destruct (m r i (String a s) [] accept) as [[j c]|] eqn:E.
    + inversion H; subst mo. exists "", (String a s), (j, c). simpl.
      now rewrite Nat.add_0_r.
    + destruct (IH _ H) as (pre & t & res & -> & Hm & Hst & Hw).
      exists (String a pre), t, res. simpl.
      replace (i + S (String.length pre))
        with (S i + String.length pre) by lia.
      auto.
Qed.

Lemma search_from_none r w i s :
  (forall pre t, s = pre ++ t ->
     m r (i + String.length pre) t [] accept = None) ->
  search_from r w i s = None.
Proof.
  revert i. induction s as [|a s IH]; intros i H; simpl.
  - specialize (H "" "" eq_refl). simpl in H. rewrite Nat.add_0_r in H.
    now rewrite H.
  - pose proof (H "" (String a s) eq_refl) as H0. simpl in H0.
    rewrite Nat.add_0_r in H0. rewrite H0.
    apply IH. intros pre t ->.
    specialize (H (String a pre) t eq_refl). simpl in H.
    now replace (S i + String.length pre)
      with (i + S (String.length pre)) by lia.
Qed.

(** inversion of a successful match, one constructor at a time *)
Lemma m_cat r1 r2 i s c k :
  m (Cat r1 r2) i s c k = m r1 i s c (fun j s' c' => m r2 j s' c' k).
Proof. reflexivity. Qed.

Lemma m_group n r0 i s c k :
  m (Group n r0) i s c k =
  m r0 i s c (fun j s' c' => k j s' ((n, (i, j)) :: c')).
Proof. reflexivity. Qed.

Lemma m_bos s c k : m Bos 0 s c k = k 0 s c.
Proof. reflexivity. Qed.

Lemma m_star p i s c k : m (Star p) i s c k = star_m p i s c k.
Proof. reflexivity. Qed.

Lemma m_cls_inv p i s c k r :
  m (Cls p) i s c k = Some r ->
  exists a s', s = String a s' /\ p a = true /\ k (S i) s' c = Some r.
Proof.
  simpl. destruct s as [|a s']; [discriminate |].
  destruct (p a) eqn:Ha; [| discriminate]. intros H. now exists a, s'.
Qed.

Lemma m_maybe_inv r0 i s c k r :
  m (Maybe r0) i s c k = Some r ->
  m r0 i s c k = Some r \/ k i s c = Some r.
Proof.
  simpl. destruct (m r0 i s c k); [intros [= ->]; now left | now right].
Qed.

Lemma m_eos_inv i s c k r :
  m Eos i s c k = Some r -> at_eos s = true /\ k i s c = Some r.
Proof. simpl. destruct (at_eos s); [now split | discriminate]. Qed.

Lemma chr_eq a b : chr a b = true -> b = a.
Proof. unfold chr. now intros ?%Ascii.eqb_eq. Qed.

End RegexFacts.

(** one inversion step on [H : m r i s c k = Some _] *)
Ltac m_inv H :=
  let a := fresh "a" in
  let s' := fresh "s" in
  let Ha := fresh "Ha" in
  lazymatch type of H with
  | m (Cat _ _) _ _ _ _ = Some _ => rewrite m_cat in H
  | m (Group _ _) _ _ _ _ = Some _ => rewrite m_group in H
  | m Bos 0 _ _ _ = Some _ => rewrite m_bos in H
  | m (Cls _) _ _ _ _ = Some _ =>
      apply m_cls_inv in H as (a & s' & -> & Ha & H)
  | m (Maybe _) _ _ _ _ = Some _ => apply m_maybe_inv in H as [H | H]
  | m Eos _ _ _ _ = Some _ => apply m_eos_inv in H as [Ha H]
  end;
  cbv beta in H.

(** ** The patterns of the file-name parser *)

Section PatternFacts.

Lemma digit_version_char a : digit a = true -> version_char a = true.
Proof. unfold version_char, cup, digit. now intros ->. Qed.

Lemma after_name_some j s c r :
  after_name j s c = Some r ->
  exists d t,
    s = String "-" (String d t) /\ digit d = true /\
    r = (S (S j) + String.length (fst (span version_char t)),
         (2, (S j, S (S j) + String.length (fst (span version_char t))))
           :: (1, (0, j)) :: c).
Proof.
  unfold after_name. cbn [m lit].
  destruct s as [|a [|d t]]; try discriminate;
    unfold chr; destruct (Ascii.eqb_spec a "-") as [-> |]; try discriminate.
  fold digit. destruct (digit d) eqn:Hd; [| discriminate].
  rewrite star_m_span by (unfold accept; discriminate).
  unfold accept. intros [= <-]. now exists d, t.
Qed.

Lemma after_name_dash_digit j t c :
  starts_with digit t = true -> after_name j (String "-" t) c <> None.
Proof.
  destruct t as [|d t]; [discriminate |]. intros Hd. simpl in Hd.
  unfold after_name. cbn [m lit]. unfold chr. rewrite Ascii.eqb_refl.
  fold digit. rewrite Hd.
  rewrite star_m_span by (unfold accept; discriminate).
  unfold accept. discriminate.
Qed.

Lemma pnv_unfold s :
  m PROJECT_NAME_AND_VERSION 0 s [] accept =
  match s with
  | String a s' =>
      if name_char a
      then star_m name_char 1 s' [] (fun j t c => after_name j t c)
      else None
  | EmptyString => None
  end.
Proof. destruct s; reflexivity. Qed.

Lemma pnv_match_some s mo :
  re_match PROJECT_NAME_AND_VERSION s = Some mo ->
  exists name version rest,
    name_version_split s name version rest /\
    group_str mo 1 = name /\ group_str mo 2 = version /\
    (forall n', name_candidate s n' ->
       String.length n' <= String.length name).
Proof.
  unfold re_match. rewrite pnv_unfold.
  destruct s as [|a s']; [discriminate |].
  destruct (name_char a) eqn:Ha; [| discriminate].
  destruct (star_m name_char 1 s' [] _) as [[j c]|] eqn:E; [| discriminate].
  intros [= <-].
  apply star_m_some in E as (u & v & -> & Hu & HK & Hmax).
  apply after_name_some in HK as (d & t & -> & Hd & [= -> ->]).
  destruct (span_spec version_char t) as (Ht & Hvs & Hrest).
  set (vs := fst (span version_char t)) in *.
  set (rest := snd (span version_char t)) in *.
  exists (String a u), (String d vs), rest.
  assert (Hs : String a (u ++ String "-" (String d t)) =
               (String a u ++ "-") ++ String d vs ++ rest).
  { rewrite app_assoc'. simpl. now rewrite Ht at 1. }
  repeat split.
  - rewrite Hs, app_assoc'. reflexivity.
  - discriminate.
  - simpl. now rewrite Ha, Hu.
  - exact Hd.
  - simpl. now rewrite (digit_version_char _ Hd), Hvs.
  - exact Hrest.
  - unfold group_str, group. cbn [m_caps subject lookup_cap Nat.eqb].
    rewrite Nat.sub_0_r, Hs, app_assoc'.
    exact (substring_0_app (String a u) _).
  - unfold group_str, group. cbn [m_caps subject lookup_cap Nat.eqb].
    rewrite Hs.
    pose proof (substring_app (String a u ++ "-") (String d vs) rest) as Hsub.
    rewrite length_app in Hsub. simpl in Hsub |- *.
    replace (String.length u + 1) with (S (String.length u)) in Hsub by lia.
    match goal with
    | |- String.substring _ ?n _ = _ =>
        replace n with (S (String.length vs)) by lia
    end.
    exact Hsub.
  - intros n' (t' & Hn & Hne & Hn' & Ht').
    destruct (le_gt_dec (String.length n') (String.length (String a u)))
      as [Hle | Hgt]; [exact Hle |].
    exfalso.
    destruct n' as [|b u']; [now apply Hne |].
    simpl in Hn, Hn', Hgt. inversion Hn as [[Hb Hu']]; subst b.
    apply andb_prop in Hn' as [_ Hn'].
    apply (after_name_dash_digit (1 + String.length u') t' []); [exact Ht' |].
    apply (Hmax u' (String "-" t')); [exact Hu' | exact Hn' | lia].
Qed.

Lemma pnv_match_none s :
  re_match PROJECT_NAME_AND_VERSION s = None ->
  forall n', ~ name_candidate s n'.
Proof.
  unfold re_match. rewrite pnv_unfold.
  intros H n' (t' & Hn & Hne & Hn' & Ht').
  destruct n' as [|a u']; [now apply Hne |]. subst s.
  simpl in H, Hn'. apply andb_prop in Hn' as [Ha Hn']. rewrite Ha in H.
  destruct (star_m name_char 1 _ [] _) as [[j c]|] eqn:E; [discriminate |].
  apply (after_name_dash_digit (1 + String.length u') t' []); [exact Ht' |].
  now apply (star_m_none _ _ _ _ _ E u' (String "-" t')).
Qed.

End PatternFacts.

Section PythonVersionFacts.

Lemma digit_not_dash a : digit a = true -> Ascii.eqb a "-" = false.
Proof.
  intros H. destruct (Ascii.eqb_spec a "-") as [-> |]; [discriminate | reflexivity].
Qed.

Lemma version_char_not a :
  version_char a = true -> Ascii.eqb a "p" = false.
Proof.
  intros H. destruct (Ascii.eqb_spec a "p") as [-> |]; [discriminate | reflexivity].
Qed.

Lemma at_eos_no_dash t : at_eos t = true -> contains "-" t = false.
Proof.
  destruct t as [|a [|b t]]; simpl; try discriminate; [reflexivity |].
  intros ->%Ascii.eqb_eq. reflexivity.
Qed.

(** a match of [PYTHON_VERSION] starts with [-p] and holds no other dash *)
Lemma pyver_some i t r :
  m PYTHON_VERSION i t [] accept = Some r ->
  exists t', t = String "-" (String "p" t') /\ contains "-" t' = false.
Proof.
  unfold PYTHON_VERSION. cbn [lit]. intros H.
  repeat m_inv H;
    repeat match goal with
           | Hc : chr _ _ = true |- _ => apply chr_eq in Hc; subst
           | Hd : digit _ = true |- _ => apply digit_not_dash in Hd
           | He : at_eos _ = true |- _ => apply at_eos_no_dash in He
           end;
    (eexists; split; [reflexivity |]); cbn [contains];
    repeat match goal with
           | Hd : Ascii.eqb _ "-" = false |- _ => rewrite Hd; clear Hd
           end;
    assumption.
Qed.

(** no Python-version suffix on a stem that ends with its version *)
Lemma pyver_search_none name version :
  all_chars version_char version = true ->
  re_search PYTHON_VERSION (name ++ "-" ++ version) = None.
Proof.
  intros Hv. unfold re_search. apply search_from_none.
  intros pre t Hs.
  destruct (m PYTHON_VERSION _ t [] accept) eqn:E; [exfalso | reflexivity].
  apply pyver_some in E as (t' & -> & Ht').
  assert (H : after_last "-" (name ++ "-" ++ version) = String "p" t').
  { rewrite Hs. simpl. rewrite after_last_app. simpl.
    rewrite Ht'. reflexivity. }
  simpl in H. rewrite after_last_app in H.
  pose proof (all_chars_after_last version_char "-" version Hv) as Hs'.
  rewrite H in Hs'. simpl in Hs'. discriminate.
Qed.

End PythonVersionFacts.

Section Md5Facts.

Lemma at_eos_cases v : at_eos v = true -> v = "" \/ v = newline.
Proof.
  destruct v as [|a [|b v]]; simpl; try discriminate; [now left |].
  intros ->%Ascii.eqb_eq. now right.
Qed.

Lemma at_eos_not_hex v : at_eos v = true -> starts_with hex_lower v = false.
Proof. intros [-> | ->]%at_eos_cases; reflexivity. Qed.







End Md5Facts.

(** ** [convert_url_to_download_info] *)

Section ConvertFacts.

Lemma endswith_exclusive fn a b :
  endswith fn a = true ->
  endswith a b = false -> endswith b a = false ->
  endswith fn b = false.
Proof.
  intros Ha Hab Hba. destruct (endswith fn b) eqn:Hb; [| reflexivity].
  destruct (endswith_both _ _ _ Ha Hb) as [H | H]; congruence.
Qed.

Lemma ext_loop_cons ext exts u pn fn :
  ext_loop (ext :: exts) u pn fn =
  if String.eqb ext ".egg" then ext_loop exts u pn fn
  else if endswith fn ext then parse_filename u pn fn ext
       else ext_loop exts u pn fn.
Proof. reflexivity. Qed.

(** a file name ending in [.egg] goes through the loop untouched *)
Lemma ext_loop_egg u pn fn :
  endswith fn ".egg" = true -> ext_loop EXTENSIONS u pn fn = (None, []).
Proof.
  intros H. unfold EXTENSIONS. rewrite !ext_loop_cons.
  rewrite (endswith_exclusive fn ".egg" ".tar.gz" H eq_refl eq_refl),
    (endswith_exclusive fn ".egg" ".tar.bz2" H eq_refl eq_refl),
    (endswith_exclusive fn ".egg" ".tar" H eq_refl eq_refl),
    (endswith_exclusive fn ".egg" ".zip" H eq_refl eq_refl),
    (endswith_exclusive fn ".egg" ".tgz" H eq_refl eq_refl).
  reflexivity.
Qed.

(** one ending in another extension is parsed with that extension *)
Lemma ext_loop_archive u pn fn ext :
  In ext archive_extensions -> endswith fn ext = true ->
  ext_loop EXTENSIONS u pn fn = parse_filename u pn fn ext.
Proof.
  intros Hin H. unfold EXTENSIONS. rewrite !ext_loop_cons.
  simpl in Hin.
  destruct Hin as [<- | [<- | [<- | [<- | [<- | []]]]]];
    rewrite ?(endswith_exclusive fn _ ".tar.gz" H eq_refl eq_refl),
      ?(endswith_exclusive fn _ ".tar.bz2" H eq_refl eq_refl),
      ?(endswith_exclusive fn _ ".tar" H eq_refl eq_refl),
      ?(endswith_exclusive fn _ ".zip" H eq_refl eq_refl);
    rewrite H; reflexivity.
Qed.

Lemma in_archive_extensions_no_slash ext :
  In ext archive_extensions -> contains "/" ext = false.
Proof.
  simpl. intros [<- | [<- | [<- | [<- | [<- | []]]]]]; reflexivity.
Qed.

Lemma in_archive_extensions_EXTENSIONS ext :
  In ext archive_extensions -> In ext EXTENSIONS.
Proof.
  simpl. intros [<- | [<- | [<- | [<- | [<- | []]]]]]; auto 10.
Qed.

Lemma endswith_any_in s ext exts :
  In ext exts -> endswith s ext = true -> endswith_any s exts = true.
Proof.
  intros Hin H. unfold endswith_any. apply existsb_exists. eauto.
Qed.

Lemma convert_archive url pn ext :
  In ext archive_extensions ->
  endswith (UrlLib.path (urlparse url)) ext = true ->
  convert_url_to_download_info_log url pn =
  parse_filename (urlparse url) pn (basename (UrlLib.path (urlparse url))) ext.
Proof.
  intros Hin H. unfold convert_url_to_download_info_log.
  rewrite (endswith_any_in _ ext) by
    (auto using in_archive_extensions_EXTENSIONS).
  apply ext_loop_archive; [assumption |].
  apply basename_endswith; [now apply in_archive_extensions_no_slash | exact H].
Qed.

Lemma parse_filename_unfold u pn fn ext :
  parse_filename u pn fn ext =
  let stem := filename_stem fn ext in
  let pyver := fst (strip_python_version (drop_last (String.length ext) fn)) in
  match re_match PROJECT_NAME_AND_VERSION stem with
  | None => (None, [Log DEBUG "No match for project/version: %s" [stem]])
  | Some mo =>
      if not_project_name pn ||
         String.eqb (project_name_lower pn) (lower (group_str mo 1))
      then
        (Some {|
           di_name := group_str mo 1;
           di_version := group_str mo 2;
           di_filename := fn;
           di_url := urlunparse (without_fragment u);
           di_python_version :=
             match pyver with
             | Some v => if truthy v then Some v else None
             | None => None
             end;
           di_md5_digest :=
             match re_match MD5_HASH (fragment u) with
             | Some mo' => Some (group_str mo' 1)
             | None => None
             end
         |}, [])
      else (None, [])
  end.
Proof.
  unfold parse_filename, filename_stem.
  destruct (strip_python_version _) as [pyver stem]. reflexivity.
Qed.




End ConvertFacts.

(** ** The split of a stem that is exactly [name-version] *)

Section SplitFacts.

Lemma has_dash_digit_app x t :
  starts_with digit t = true -> has_dash_digit (x ++ "-" ++ t) = true.
Proof.
  intros Ht. induction x as [|a x IH]; simpl.
  - now rewrite Ht.
  - simpl in IH. rewrite IH. apply orb_true_r.
Qed.

Lemma length_zero_empty (s : string) : String.length s = 0 -> s = "".
Proof. now destruct s. Qed.

Lemma all_chars_starts_with p s t :
  all_chars p (s ++ t) = true -> starts_with p t = false -> t = "".
Proof.
  rewrite all_chars_app. intros [_ Ht]%andb_prop Hs.
  destruct t as [|a t]; [reflexivity |]. simpl in *.
  apply andb_prop in Ht as [Ha _]. congruence.
Qed.

Lemma pnv_match_exact name version :
  name <> "" -> all_chars name_char name = true ->
  starts_with digit version = true ->
  all_chars version_char version = true ->
  has_dash_digit version = false ->
  exists mo,
    re_match PROJECT_NAME_AND_VERSION (name ++ "-" ++ version) = Some mo /\
    group_str mo 1 = name /\ group_str mo 2 = version.
Proof.
  intros Hne Hname Hd Hver Hdd.
  assert (Hcand : name_candidate (name ++ "-" ++ version) name)
    by (exists version; auto).
  destruct (re_match PROJECT_NAME_AND_VERSION (name ++ "-" ++ version))
    as [mo|] eqn:E; [| now apply pnv_match_none with (n' := name) in E].
  exists mo. split; [reflexivity |].
  destruct (pnv_match_some _ _ E)
    as (name' & version' & rest' & Hsplit & <- & <- & Hmax).
  destruct Hsplit as (Hs & _ & _ & Hd' & _ & Hrest).
  pose proof (Hmax _ Hcand) as Hle.
  destruct (app_eq_app _ _ _ _ Hs Hle) as (y & Hy & Htail).
  destruct y as [|c y].
  - rewrite app_empty_r in Hy. simpl in Htail. injection Htail as Htail.
    rewrite Htail in Hver.
    rewrite (all_chars_starts_with _ _ _ Hver Hrest), app_empty_r in Htail.
    now split.
  - exfalso. simpl in Htail. injection Htail as _ Htail.
    rewrite Htail in Hdd.
    pose proof (has_dash_digit_app y (group_str mo 2 ++ rest')) as Hx.
    simpl in Hx. rewrite Hx in Hdd; [discriminate |].
    destruct (group_str mo 2); [discriminate | exact Hd'].
Qed.

End SplitFacts.

(** ** [urlparse] and [urlunparse]: where a [#] can be *)

Section UrlFacts.

Variable d : ascii.

Lemma split1_fst_free c s : contains c (fst (split1 c s)) = false.
Proof.
  induction s as [|a s IH]; simpl; [reflexivity |].
  destruct (Ascii.eqb a c) eqn:Ha; [reflexivity |].
  destruct (split1 c s) as [u v]. simpl in *. now rewrite Ha.
Qed.

Lemma split1_parts c s :
  contains d s = false ->
  contains d (fst (split1 c s)) = false /\
  contains d (snd (split1 c s)) = false.
Proof.
  induction s as [|a s IH]; simpl; [auto |].
  intros [Ha Hs]%orb_false_elim.
  destruct (Ascii.eqb a c); [auto |].
  destruct (split1 c s) as [u v]. simpl in *.
  destruct (IH Hs) as [Hu Hv]. now rewrite Ha, Hu.
Qed.

Lemma span_parts p s :
  contains d s = false ->
  contains d (fst (span p s)) = false /\
  contains d (snd (span p s)) = false.
Proof.
  induction s as [|a s IH]; simpl; [auto |].
  intros [Ha Hs]%orb_false_elim.
  destruct (p a).
  - destruct (span p s) as [u v]. simpl in *.
    destruct (IH Hs) as [Hu Hv]. now rewrite Ha, Hu.
  - simpl. now rewrite Ha, Hs.
Qed.

Lemma span_fst_free p s :
  p d = false -> contains d (fst (span p s)) = false.
Proof.
  intros Hd. induction s as [|a s IH]; simpl; [reflexivity |].
  destruct (p a) eqn:Ha; [| reflexivity].
  destruct (span p s) as [u v]. simpl in *. rewrite IH, orb_false_r.
  destruct (Ascii.eqb_spec a d) as [-> |]; [congruence | reflexivity].
Qed.

Lemma drop_parts n s : contains d s = false -> contains d (drop n s) = false.
Proof.
  revert s. induction n as [|n IH]; intros [|a s]; simpl; auto.
  intros [_ Hs]%orb_false_elim. auto.
Qed.

Lemma split_params_parts s u v :
  contains d s = false ->
  split_params_after_slash s = Some (u, v) ->
  contains d u = false /\ contains d v = false.
Proof.
  revert u v. induction s as [|a s IH]; intros u v; [discriminate |].
  intros Hs. pose proof Hs as Hs0.
  simpl in Hs. apply orb_false_elim in Hs as [Ha Hs].
  cbn [split_params_after_slash].
  destruct (contains "/" s).
  - destruct (split_params_after_slash s) as [[u' v']|]; [| discriminate].
    intros [= <- <-]. destruct (IH u' v' Hs eq_refl) as [Hu Hv].
    simpl. now rewrite Ha, Hu.
  - destruct (contains ";" (String a s)); [| discriminate].
    intros [= H].
    assert (H' : split1 ";" (String a s) = (u, v)) by exact H.
    pose proof (split1_parts ";" (String a s) Hs0) as [H1 H2].
    rewrite H' in H1, H2. auto.
Qed.

Lemma _splitparams_parts s :
  contains d s = false ->
  contains d (fst (_splitparams s)) = false /\
  contains d (snd (_splitparams s)) = false.
Proof.
  intros Hs. unfold _splitparams. destruct (contains "/" s).
  - destruct (split_params_after_slash s) as [[u v]|] eqn:E; simpl; [| auto].
    exact (split_params_parts _ _ _ Hs E).
  - now apply split1_parts.
Qed.

End UrlFacts.

Section FragmentFacts.

Lemma lower_char_hash a : Ascii.eqb (lower_char a) "#" = Ascii.eqb a "#".
Proof. destruct a as [[] [] [] [] [] [] [] []]; reflexivity. Qed.

Lemma lower_hash s : contains "#" (lower s) = contains "#" s.
Proof.
  induction s as [|a s IH]; simpl; [reflexivity |].
  now rewrite lower_char_hash, IH.
Qed.

Lemma all_chars_free p c s :
  p c = false -> all_chars p s = true -> contains c s = false.
Proof.
  intros Hc Hs. destruct (contains c s) eqn:E; [| reflexivity].
  rewrite (all_chars_contains _ _ _ Hs E) in Hc. discriminate.
Qed.

Lemma split_scheme_scheme_free url :
  contains "#" (fst (split_scheme url)) = false.
Proof.
  unfold split_scheme. destruct (contains ":" url); [| reflexivity].
  destruct (split1 ":" url) as [pre rest].
  destruct (truthy pre); [| reflexivity].
  destruct (String.eqb pre "http"); [reflexivity |].
  destruct (all_chars scheme_char pre) eqn:Hpre; [| reflexivity].
  destruct (_ || _); [| reflexivity].
  simpl. rewrite lower_hash. now apply (all_chars_free scheme_char).
Qed.

Lemma split_scheme_rest_parts c url :
  contains c url = false -> contains c (snd (split_scheme url)) = false.
Proof.
  intros H. unfold split_scheme. destruct (contains ":" url); [| assumption].
  pose proof (split1_parts c ":" url H) as [_ Hrest].
  destruct (split1 ":" url) as [pre rest]. simpl in Hrest.
  destruct (truthy pre); [| assumption].
  destruct (String.eqb pre "http"); [assumption |].
  destruct (all_chars scheme_char pre); [| assumption].
  destruct (_ || _); assumption.
Qed.

Lemma urlsplit_hash_free url :
  let '(scheme, netloc, path, query, _) := urlsplit url in
  contains "#" scheme = false /\ contains "#" netloc = false /\
  contains "#" path = false /\ contains "#" query = false.
Proof.
  unfold urlsplit.
  pose proof (split_scheme_scheme_free url) as Hsch.
  destruct (split_scheme url) as [sch u1]. simpl in Hsch.
  assert (Hnl : contains "#"
                  (fst (if startswith u1 "//" then _splitnetloc u1
                        else (EmptyString, u1))) = false).
  { destruct (startswith u1 "//"); [| reflexivity].
    unfold _splitnetloc. now apply span_fst_free. }
  destruct (if startswith u1 "//" then _ else _) as [nl u2]. simpl in Hnl.
  assert (Hu3 : contains "#"
                  (fst (if contains "#" u2 then split1 "#" u2
                        else (u2, EmptyString))) = false).
  { destruct (contains "#" u2) eqn:E; [apply split1_fst_free | exact E]. }
  destruct (if contains "#" u2 then _ else _) as [u3 frag]. simpl in Hu3.
  assert (Hu4 : contains "#"
                  (fst (if contains "?" u3 then split1 "?" u3
                        else (u3, EmptyString))) = false /\
                contains "#"
                  (snd (if contains "?" u3 then split1 "?" u3
                        else (u3, EmptyString))) = false).
  { destruct (contains "?" u3); [now apply split1_parts | now split]. }
  destruct (if contains "?" u3 then _ else _) as [u4 q]. simpl in Hu4.
  tauto.
Qed.

Lemma urlsplit_fragment_empty url :
  contains "#" url = false ->
  let '(_, _, _, _, fragment) := urlsplit url in fragment = "".
Proof.
  intros H. unfold urlsplit.
  pose proof (split_scheme_rest_parts "#" url H) as Hu1.
  destruct (split_scheme url) as [sch u1]. simpl in Hu1.
  assert (Hu2 : contains "#"
                  (snd (if startswith u1 "//" then _splitnetloc u1
                        else (EmptyString, u1))) = false).
  { destruct (startswith u1 "//"); [| exact Hu1].
    unfold _splitnetloc. apply span_parts. now apply drop_parts. }
  destruct (if startswith u1 "//" then _ else _) as [nl u2]. simpl in Hu2.
  rewrite Hu2.
  destruct (if contains "?" u2 then _ else _) as [u4 q]. reflexivity.
Qed.

Lemma urlparse_hash_free url :
  contains "#" (scheme (urlparse url)) = false /\
  contains "#" (netloc (urlparse url)) = false /\
  contains "#" (UrlLib.path (urlparse url)) = false /\
  contains "#" (params (urlparse url)) = false /\
  contains "#" (query (urlparse url)) = false.
Proof.
  unfold urlparse. pose proof (urlsplit_hash_free url) as H.
  destruct (urlsplit url) as [[[[sch nl] u] q] frag].
  destruct H as (Hsch & Hnl & Hu & Hq).
  pose proof (_splitparams_parts "#" u Hu) as [Hp1 Hp2].
  destruct (_ && _).
  - destruct (_splitparams u) as [u' ps]. simpl in *. tauto.
  - simpl. tauto.
Qed.

Lemma urlparse_fragment_empty url :
  contains "#" url = false -> fragment (urlparse url) = "".
Proof.
  intros H. unfold urlparse. pose proof (urlsplit_fragment_empty url H) as Hf.
  destruct (urlsplit url) as [[[[sch nl] u] q] frag].
  destruct (if _ && _ then _ else _) as [u' ps]. exact Hf.
Qed.

Lemma urlunsplit_hash_free sch nl url q :
  contains "#" sch = false -> contains "#" nl = false ->
  contains "#" url = false -> contains "#" q = false ->
  contains "#" (urlunsplit sch nl url q "") = false.
Proof.
  intros Hsch Hnl Hurl Hq. unfold urlunsplit. cbn [truthy].
  repeat match goal with
         | |- context [if ?b then _ else _] => destruct b
         end;
    rewrite ?contains_app; cbn [contains];
    rewrite ?contains_app; cbn [contains];
    rewrite ?Hsch, ?Hnl, ?Hurl, ?Hq; reflexivity.
Qed.

(** the URL put into the download info parses back without fragment *)
Lemma without_fragment_roundtrip url :
  fragment (urlparse (urlunparse (without_fragment (urlparse url)))) = "".
Proof.
  apply urlparse_fragment_empty.
  destruct (urlparse_hash_free url) as (Hsch & Hnl & Hu & Hp & Hq).
  unfold urlunparse, without_fragment. cbn [scheme netloc UrlLib.path params query fragment].
  apply urlunsplit_hash_free; try assumption.
  destruct (truthy _); [| assumption].
  rewrite !contains_app. cbn [contains]. now rewrite Hu, Hp.
Qed.

End FragmentFacts.

(** ** [get_page] *)

Section FetchFacts.

Variable urlopen : string -> outcome Response.
Variable zlib_decompress : string -> outcome string.
Variable gzip_read : string -> outcome string.
Variable bytes_decode : string -> string -> outcome string.
Variable isdir : string -> bool.
Variable urljoin : string -> option string -> string.
Variable ensure_slash : string -> string.

Local Abbreviation get_page' :=
  (get_page urlopen zlib_decompress gzip_read bytes_decode isdir urljoin
     ensure_slash).
Local Abbreviation get_page_try' :=
  (get_page_try urlopen zlib_decompress gzip_read bytes_decode).
Local Abbreviation request_url' := (request_url isdir urljoin ensure_slash).
Local Abbreviation decoders' := (decoders zlib_decompress gzip_read).

Lemma get_page_hit url st p :
  _cache st !! request_url' url = Some p ->
  get_page' url st =
  (Ok p,
   add_log (Log DEBUG "Returning %s from cache: %s" [request_url' url]) st).
Proof.
  intros H. unfold get_page, bind, get_state. now rewrite H.
Qed.

Lemma get_page_miss url st :
  _cache st !! request_url' url = None ->
  get_page' url st =
  match try_except (get_page_try' (request_url' url))
          (get_page_except (request_url' url)) st with
  | (r, st1) =>
      (r, set_cache (fun c => <[request_url' url :=
                                  match r with Ok p => p | Raise _ => None end]> c)
            st1)
  end.
Proof.
  intros H. unfold get_page, bind, get_state. now rewrite H.
Qed.

Lemma get_page_except_spec u e st :
  get_page_except u e st =
  (Ok None,
   if is_404 e then st
   else add_log (Log ERROR "Fetch failed: %s: %s" [u]) st).
Proof.
  unfold get_page_except, bind, logger_exception, modify, ret.
  destruct e; simpl; try reflexivity.
  now destruct (Z.eqb code 404).
Qed.

Lemma try_except_get_page u st :
  exists p st1,
    try_except (get_page_try' u) (get_page_except u) st = (Ok p, st1) /\
    (forall e st0, get_page_try' u st = (Raise e, st0) ->
       p = None /\
       st1 = if is_404 e then st0
             else add_log (Log ERROR "Fetch failed: %s: %s" [u]) st0).
Proof.
  unfold try_except.
  destruct (get_page_try' u st) as [[p | e] st0].
  - exists p, st0. split; [reflexivity | discriminate].
  - rewrite get_page_except_spec. eexists _, _. split; [reflexivity |].
    now intros e' st0' [= <- <-].
Qed.

Lemma get_page_returns url st :
  exists page st', get_page' url st = (Ok page, st').
Proof.
  destruct (_cache st !! request_url' url) as [p|] eqn:Hc.
  - rewrite (get_page_hit _ _ _ Hc). eauto.
  - rewrite (get_page_miss _ _ Hc).
    destruct (try_except_get_page (request_url' url) st)
      as (p & st1 & -> & _).
    eauto.
Qed.

Lemma cache_add_log r st : _cache (add_log r st) = _cache st.
Proof. reflexivity. Qed.

Lemma get_page_try_urlopen_fails u st e :
  urlopen u = Raise e ->
  get_page_try' u st =
  (Raise e, add_opened u (add_log (Log DEBUG "Fetching %s" [u]) st)).
Proof.
  intros H. unfold get_page_try, bind, logger_debug, modify, lift.
  now rewrite H.
Qed.

Lemma get_page_try_not_html u st resp :
  urlopen u = Ok resp ->
  is_match HTML_CONTENT_TYPE (content_type resp) = false ->
  get_page_try' u st =
  (Ok None,
   add_log (Log DEBUG "Fetched %s" [u])
     (add_opened u (add_log (Log DEBUG "Fetching %s" [u]) st))).
Proof.
  intros H Hct. unfold get_page_try, bind, logger_debug, modify, lift.
  rewrite H. fold (content_type resp). now rewrite Hct.
Qed.

(** the [try] block on an HTML response with a Content-Encoding *)
Lemma get_page_try_encoded u st resp body encoding :
  urlopen u = Ok resp ->
  is_match HTML_CONTENT_TYPE (content_type resp) = true ->
  read resp = Ok body ->
  content_encoding_header resp = Some encoding ->
  truthy encoding = true ->
  let st1 := add_log (Log DEBUG "Fetched %s" [u])
               (add_opened u (add_log (Log DEBUG "Fetching %s" [u]) st)) in
  get_page_try' u st =
  match decoders' !! encoding with
  | None => (Raise KeyError, st1)
  | Some decoder =>
      match decoder body with
      | Raise e => (Raise e, st1)
      | Ok data =>
          match bytes_decode data (charset_of (content_type resp)) with
          | Raise e => (Raise e, st1)
          | Ok text =>
              (Ok (Some (new_Page text (geturl resp))),
               set_cache (fun c => <[geturl resp :=
                                       Some (new_Page text (geturl resp))]> c)
                 st1)
          end
      end
  end.
Proof.
  intros H Hct Hread Henc Htruthy st1.
  unfold get_page_try, bind, logger_debug, modify, lift, raise, ret.
  rewrite H. fold (content_type resp). rewrite Hct, Hread, Henc, Htruthy.
  cbn [negb]. fold (charset_of (content_type resp)).
  destruct (decoders' !! encoding) as [decoder|]; [| reflexivity].
  destruct (decoder body) as [data | e]; [| reflexivity].
  destruct (bytes_decode data _) as [text | e]; reflexivity.
Qed.

Lemma decoders_gzip : decoders' !! "gzip" = Some (gzip_lambda gzip_read).
Proof.
  unfold decoders. rewrite lookup_insert_ne by discriminate.
  apply lookup_insert_eq.
Qed.

Lemma decoders_deflate : decoders' !! "deflate" = Some zlib_decompress.
Proof. unfold decoders. apply lookup_insert_eq. Qed.

Lemma decoders_other encoding :
  encoding <> "deflate" -> encoding <> "gzip" -> decoders' !! encoding = None.
Proof.
  intros H1 H2. unfold decoders.
  rewrite !lookup_insert_ne by congruence. apply lookup_empty.
Qed.

(** the function handed out for [gzip] raises on every body *)
Lemma gzip_lambda_raises b : gzip_lambda gzip_read b = Raise NameError.
Proof. reflexivity. Qed.

End FetchFacts.

(** ** The worker loop and the queue *)

Section MonadFacts.

Context {A B : Type}.

Lemma keeps_ret (a : A) : keeps_queue (ret a).
Proof. intros st. reflexivity. Qed.

Lemma keeps_raise (e : exn) : keeps_queue (@raise A e).
Proof. intros st. reflexivity. Qed.

Lemma keeps_lift (o : outcome A) : keeps_queue (lift o).
Proof. intros st. reflexivity. Qed.

Lemma keeps_bind (c : M A) (k : A -> M B) :
  keeps_queue c -> (forall a, keeps_queue (k a)) -> keeps_queue (bind c k).
Proof.
  intros Hc Hk st. unfold bind. specialize (Hc st).
  destruct (c st) as [[a | e] st1]; simpl in *; [| exact Hc].
  now rewrite Hk.
Qed.

Lemma keeps_try_except (body : M A) (handler : exn -> M A) :
  keeps_queue body -> (forall e, keeps_queue (handler e)) ->
  keeps_queue (try_except body handler).
Proof.
  intros Hb Hh st. unfold try_except. specialize (Hb st).
  destruct (body st) as [[a | e] st1]; simpl in *; [exact Hb |].
  now rewrite Hh.
Qed.

End MonadFacts.

Lemma keeps_modify (f : State -> State) :
  (forall st, _to_fetch (f st) = _to_fetch st) -> keeps_queue (modify f).
Proof. intros Hf st. apply Hf. Qed.

Lemma keeps_get_state : keeps_queue get_state.
Proof. intros st. reflexivity. Qed.

Lemma keeps_logger_debug fmt args : keeps_queue (logger_debug fmt args).
Proof. now apply keeps_modify. Qed.

Lemma keeps_logger_exception fmt args : keeps_queue (logger_exception fmt args).
Proof. now apply keeps_modify. Qed.

Lemma to_fetch_add_logs records st :
  _to_fetch (fold_left (fun s r => add_log r s) records st) = _to_fetch st.
Proof.
  revert st. induction records as [|r records IH]; intros st; simpl;
    [reflexivity | now rewrite IH].
Qed.

Lemma base_url_add_logs records st :
  base_url (fold_left (fun s r => add_log r s) records st) = base_url st.
Proof.
  revert st. induction records as [|r records IH]; intros st; simpl;
    [reflexivity | now rewrite IH].
Qed.

Lemma seen_add_logs records st :
  _seen (fold_left (fun s r => add_log r s) records st) = _seen st.
Proof.
  revert st. induction records as [|r records IH]; intros st; simpl;
    [reflexivity | now rewrite IH].
Qed.

Create HintDb keeps.

#[local] Hint Resolve keeps_ret keeps_raise keeps_lift keeps_get_state
  keeps_logger_debug keeps_logger_exception : keeps.

(** closes [keeps_queue c] for a computation built from the monad
    operations, case by case *)
Ltac keeps :=
  repeat first
    [ progress auto with keeps
    | apply keeps_bind; [| intros ?]
    | apply keeps_modify; intros ?; reflexivity
    | match goal with
      | |- keeps_queue (if ?b then _ else _) => destruct b
      | |- keeps_queue (match ?x with _ => _ end) => destruct x
      | |- keeps_queue (let '(_, _) := ?x in _) => destruct x
      end ].

Lemma should_queue_in_scope link : should_queue link = in_scope link.
Proof.
  unfold should_queue, in_scope.
  destruct (endswith_any _ _), (mem _ _), (String.eqb _ "localhost");
    reflexivity.
Qed.

(** what [process_link] does to the queue and to the seen-set *)
Lemma process_link_queue url link st :
  exists st',
    process_link url link st = (Ok tt, st') /\
    link ∈ _seen st' /\
    _to_fetch st' =
    if decide (link ∈ _seen st) then _to_fetch st
    else
      match convert_url_to_download_info link (Some (project_name st)) with
      | Some _ => _to_fetch st
      | None =>
          if should_queue link && startswith url (base_url st)
          then put (Some link) (_to_fetch st)
          else _to_fetch st
      end.
Proof.
  unfold process_link, bind, get_state.
  destruct (decide (link ∈ _seen st)) as [Hin | Hnot].
  - exists st. auto.
  - unfold modify at 1. unfold _process_download, bind, get_state.
    cbn [project_name set_seen].
    unfold convert_url_to_download_info.
    destruct (convert_url_to_download_info_log link (Some (project_name st)))
      as [info records].
    unfold modify at 1. cbn [fst].
    destruct info as [i |].
    + unfold modify, ret. eexists. split; [reflexivity |].
      cbn [_seen _to_fetch set_result].
      rewrite seen_add_logs, to_fetch_add_logs. cbn [_seen _to_fetch].
      split; [set_solver | reflexivity].
    + unfold ret at 1. unfold _should_queue, bind.
      destruct (should_queue link) eqn:Hq; cbn [negb andb];
        unfold logger_debug, modify, ret.
      * destruct (startswith url (base_url st));
          (eexists; split; [reflexivity |]);
          cbn [_seen _to_fetch set_to_fetch add_log];
          rewrite seen_add_logs, to_fetch_add_logs; cbn [_seen _to_fetch];
          (split; [set_solver | reflexivity]).
      * eexists. split; [reflexivity |].
        cbn [_seen _to_fetch add_log].
        rewrite seen_add_logs, to_fetch_add_logs. cbn [_seen _to_fetch].
        split; [set_solver | reflexivity].
Qed.

Section QueueFacts.

Variable urlopen : string -> outcome Response.
Variable zlib_decompress : string -> outcome string.
Variable gzip_read : string -> outcome string.
Variable bytes_decode : string -> string -> outcome string.
Variable isdir : string -> bool.
Variable urljoin : string -> option string -> string.
Variable unescape : string -> string.
Variable ensure_slash : string -> string.

Local Abbreviation get_page' :=
  (get_page urlopen zlib_decompress gzip_read bytes_decode isdir urljoin
     ensure_slash).
Local Abbreviation fetch_body' :=
  (fetch_body urlopen zlib_decompress gzip_read bytes_decode isdir urljoin
     unescape ensure_slash).

Lemma keeps_get_page_try u :
  keeps_queue (get_page_try urlopen zlib_decompress gzip_read bytes_decode u).
Proof. unfold get_page_try. keeps. Qed.

Lemma keeps_get_page_except u e : keeps_queue (get_page_except u e).
Proof. unfold get_page_except. keeps. Qed.

Lemma keeps_get_page url : keeps_queue (get_page' url).
Proof.
  unfold get_page. apply keeps_bind; [keeps |]. intros st0.
  destruct (_cache st0 !! _); [keeps |].
  intros st.
  pose proof (keeps_try_except _ _
                (keeps_get_page_try (request_url isdir urljoin ensure_slash url))
                (keeps_get_page_except
                   (request_url isdir urljoin ensure_slash url)) st) as H.
  destruct (try_except _ _ st) as [r st1]. exact H.
Qed.

Lemma keeps_process_download link : keeps_queue (_process_download link).
Proof.
  unfold _process_download. apply keeps_bind; [keeps |]. intros st0.
  destruct (convert_url_to_download_info_log _ _) as [info records].
  apply keeps_bind.
  - apply keeps_modify. intros st. apply to_fetch_add_logs.
  - intros _. keeps.
Qed.

Lemma keeps_should_queue link referrer : keeps_queue (_should_queue link referrer).
Proof. unfold _should_queue. keeps. Qed.

Lemma put_all_app l1 l2 q : put_all (l1 ++ l2) q = put_all l2 (put_all l1 q).
Proof. unfold put_all. apply fold_left_app. Qed.

Lemma put_all_counters links q :
  n_get (put_all links q) = n_get q /\
  n_done (put_all links q) = n_done q /\
  unfinished_tasks (put_all links q) = unfinished_tasks q + List.length links /\
  items (put_all links q) = (items q ++ map Some links)%list.
Proof.
  revert q. induction links as [|l links IH]; intros q; simpl.
  - rewrite app_nil_r. repeat split; lia.
  - destruct (IH (put (Some l) q)) as (H1 & H2 & H3 & H4).
    unfold put_all in *. rewrite H1, H2, H3, H4. simpl.
    rewrite <- app_assoc. repeat split; lia.
Qed.

Lemma only_puts_for_each url links st :
  exists st' puts,
    for_each links (process_link url) st = (Ok tt, st') /\
    _to_fetch st' = put_all puts (_to_fetch st).
Proof.
  revert st. induction links as [|link links IH]; intros st; simpl.
  - exists st, []. split; reflexivity.
  - unfold bind.
    destruct (process_link_queue url link st) as (st1 & -> & _ & Hq).
    destruct (IH st1) as (st' & puts & -> & Hq').
    assert (H1 : exists p1, _to_fetch st1 = put_all p1 (_to_fetch st)).
    { rewrite Hq.
      destruct (decide _); [now exists [] |].
      destruct (convert_url_to_download_info _ _); [now exists [] |].
      destruct (_ && _); [now exists [link] | now exists []]. }
    destruct H1 as [p1 H1].
    exists st', (p1 ++ puts)%list. split; [reflexivity |].
    now rewrite put_all_app, <- H1.
Qed.

(** where the helpers return, the [try] block of [_fetch] only puts
    URLs and returns *)
Lemma fetch_body_only_puts x st :
  exists st' puts,
    fetch_body' x st = (Ok tt, st') /\
    _to_fetch st' = put_all puts (_to_fetch st).
Proof.
  unfold fetch_body.
  destruct x as [u |]; [| now exists st, []].
  destruct (truthy u); [| now exists st, []].
  unfold bind.
  pose proof (keeps_get_page u st) as Hk.
  destruct (get_page_returns urlopen zlib_decompress gzip_read
              bytes_decode isdir urljoin ensure_slash u st)
    as (page & st1 & Hrun).
  rewrite Hrun in Hk |- *. simpl in Hk.
  destruct page as [p |].
  - destruct (only_puts_for_each u (elements (links urljoin unescape p)) st1)
      as (st' & puts & Hrun' & Hq).
    exists st', puts. split; [exact Hrun' | now rewrite Hq, Hk].
  - exists st1, []. split; [reflexivity | exact Hk].
Qed.

(** one pass of the loop, whatever the [try] block does as long as it
    only puts: one [get], one [task_done] *)
Lemma fetch_iteration_acks (body : option string -> M unit) st exit st' :
  (forall x, only_puts (body x)) ->
  queue_counted (_to_fetch st) ->
  fetch_iteration body st = Some (exit, st') ->
  n_get (_to_fetch st') = S (n_get (_to_fetch st)) /\
  n_done (_to_fetch st') = S (n_done (_to_fetch st)) /\
  exists x rest puts,
    items (_to_fetch st) = x :: rest /\
    items (_to_fetch st') = (rest ++ map Some puts)%list /\
    unfinished_tasks (_to_fetch st') + 1 =
    unfinished_tasks (_to_fetch st) + List.length puts /\
    match exit with
    | Continue => item_truthy x = true
    | Break => item_truthy x = false
    | Propagate e => exists st1, fst (body x st1) = Raise e
    end.
Proof.
  intros Hbody Hcount. unfold fetch_iteration, get, queue_counted in *.
  destruct (items (_to_fetch st)) as [|x rest] eqn:Hitems; [discriminate |].
  simpl in Hcount. unfold try_finally.
  set (st1 := set_to_fetch _ st).
  destruct (Hbody x st1) as [puts Hputs].
  destruct (body x st1) as [r st2] eqn:Hrun. cbn [snd] in Hputs.
  destruct (put_all_counters puts (_to_fetch st1)) as (H1 & H2 & H3 & H4).
  rewrite <- Hputs in H1, H2, H3, H4. subst st1. cbn in H1, H2, H3, H4.
  unfold task_done, task_done_q.
  destruct (unfinished_tasks (_to_fetch st2)) as [|n] eqn:Hn; [lia |].
  assert (Hex : forall e, r = Raise e ->
                          exists st1, fst (body x st1) = Raise e).
  { intros e ->. eexists. now rewrite Hrun. }
  destruct r as [[] | e]; intros [= <- <-]; cbn;
    (split; [lia |]); (split; [lia |]);
    exists x, rest, puts; (split; [reflexivity |]);
    (split; [assumption |]); (split; [lia |]).
  - now destruct (item_truthy x).
  - now apply Hex.
Qed.

End QueueFacts.

(** ** What [get_page] leaves alone *)

Section KeepsFacts.

Context {A B X : Type}.
Variable f : State -> X.

Lemma keeps_f_ret (a : A) : keeps f (ret a).
Proof. intros st. reflexivity. Qed.

Lemma keeps_f_raise (e : exn) : keeps f (@raise A e).
Proof. intros st. reflexivity. Qed.

Lemma keeps_f_lift (o : outcome A) : keeps f (lift o).
Proof. intros st. reflexivity. Qed.

Lemma keeps_f_bind (c : M A) (k : A -> M B) :
  keeps f c -> (forall a, keeps f (k a)) -> keeps f (bind c k).
Proof.
  intros Hc Hk st. unfold bind. specialize (Hc st).
  destruct (c st) as [[a | e] st1]; simpl in *; [| exact Hc].
  now rewrite Hk.
Qed.

Lemma keeps_f_try_except (body : M A) (handler : exn -> M A) :
  keeps f body -> (forall e, keeps f (handler e)) ->
  keeps f (try_except body handler).
Proof.
  intros Hb Hh st. unfold try_except. specialize (Hb st).
  destruct (body st) as [[a | e] st1]; simpl in *; [exact Hb |].
  now rewrite Hh.
Qed.

End KeepsFacts.

Lemma keeps_f_modify {X} (f : State -> X) (g : State -> State) :
  (forall st, f (g st) = f st) -> keeps f (modify g).
Proof. intros Hg st. apply Hg. Qed.

Lemma keeps_f_get_state {X} (f : State -> X) : keeps f get_state.
Proof. intros st. reflexivity. Qed.

Section PreservesFacts.

Context {A B : Type}.
Variable R : State -> State -> Prop.
Hypothesis R_refl : forall st, R st st.
Hypothesis R_trans : forall a b c, R a b -> R b c -> R a c.

Lemma preserves_ret (a : A) : preserves R (ret a).
Proof. intros st. apply R_refl. Qed.

Lemma preserves_raise (e : exn) : preserves R (@raise A e).
Proof. intros st. apply R_refl. Qed.

Lemma preserves_lift (o : outcome A) : preserves R (lift o).
Proof. intros st. apply R_refl. Qed.

Lemma preserves_bind (c : M A) (k : A -> M B) :
  preserves R c -> (forall a, preserves R (k a)) -> preserves R (bind c k).
Proof.
  intros Hc Hk st. unfold bind. specialize (Hc st).
  destruct (c st) as [[a | e] st1]; simpl in *; [| exact Hc].
  eapply R_trans; [exact Hc | apply Hk].
Qed.

Lemma preserves_try_except (body : M A) (handler : exn -> M A) :
  preserves R body -> (forall e, preserves R (handler e)) ->
  preserves R (try_except body handler).
Proof.
  intros Hb Hh st. unfold try_except. specialize (Hb st).
  destruct (body st) as [[a | e] st1]; simpl in *; [exact Hb |].
  eapply R_trans; [exact Hb | apply Hh].
Qed.

End PreservesFacts.

(** closes [keeps f c] for a computation built from the monad operations
    whose state changes all leave [f] alone *)
Ltac keeps_f :=
  repeat first
    [ apply keeps_f_ret | apply keeps_f_raise | apply keeps_f_lift
    | apply keeps_f_get_state
    | apply keeps_f_bind; [| intros ?]
    | apply keeps_f_modify; intros ?; reflexivity
    | match goal with
      | |- keeps _ (logger_debug _ _) =>
          apply keeps_f_modify; intros ?; reflexivity
      | |- keeps _ (logger_exception _ _) =>
          apply keeps_f_modify; intros ?; reflexivity
      | |- keeps _ (if ?b then _ else _) => destruct b
      | |- keeps _ (match ?x with _ => _ end) => destruct x
      end ].

(** case analysis on a scrutinee that holds no case analysis itself *)
Ltac destruct_innermost :=
  match goal with
  | |- context [match ?x with _ => _ end] =>
      lazymatch x with
      | context [match _ with _ => _ end] => fail
      | _ => destruct x
      end
  end.

Lemma cache_grows_refl st : cache_grows st st.
Proof. unfold cache_grows. reflexivity. Qed.

Lemma cache_grows_trans a b c :
  cache_grows a b -> cache_grows b c -> cache_grows a c.
Proof. unfold cache_grows. intros H1 H2. now transitivity (dom (_cache b)). Qed.

Lemma cache_grows_insert k v st :
  cache_grows st (set_cache (fun c => <[k := v]> c) st).
Proof.
  unfold cache_grows. cbn [_cache set_cache]. rewrite dom_insert_L.
  apply union_subseteq_r.
Qed.

Section FrameFacts.

Variable urlopen : string -> outcome Response.
Variable zlib_decompress : string -> outcome string.
Variable gzip_read : string -> outcome string.
Variable bytes_decode : string -> string -> outcome string.
Variable isdir : string -> bool.
Variable urljoin : string -> option string -> string.
Variable ensure_slash : string -> string.

Local Abbreviation get_page' :=
  (get_page urlopen zlib_decompress gzip_read bytes_decode isdir urljoin
     ensure_slash).
Local Abbreviation get_page_try' :=
  (get_page_try urlopen zlib_decompress gzip_read bytes_decode).
Local Abbreviation request_url' := (request_url isdir urljoin ensure_slash).

Lemma get_page_try_keeps {X} (f : State -> X) u :
  (forall r st, f (add_log r st) = f st) ->
  (forall u st, f (add_opened u st) = f st) ->
  (forall g st, f (set_cache g st) = f st) ->
  keeps f (get_page_try' u).
Proof.
  intros Hlog Hopen Hcache. unfold get_page_try.
  repeat first
    [ apply keeps_f_ret | apply keeps_f_raise | apply keeps_f_lift
    | apply keeps_f_bind; [| intros ?]
    | apply keeps_f_modify; intros ?;
      first [apply Hlog | apply Hopen | apply Hcache]
    | match goal with
      | |- keeps _ (logger_debug _ _) =>
          apply keeps_f_modify; intros ?; apply Hlog
      | |- keeps _ (if ?b then _ else _) => destruct b
      | |- keeps _ (match ?x with _ => _ end) => destruct x
      end ].
Qed.

Lemma get_page_except_keeps {X} (f : State -> X) u e :
  (forall r st, f (add_log r st) = f st) ->
  keeps f (get_page_except u e).
Proof.
  intros Hlog st. rewrite get_page_except_spec. cbn [snd].
  destruct (is_404 e); [reflexivity | apply Hlog].
Qed.

(** [get_page] keeps every field that is neither the cache, the log nor
    the record of opened URLs *)
Lemma get_page_keeps {X} (f : State -> X) url :
  (forall r st, f (add_log r st) = f st) ->
  (forall u st, f (add_opened u st) = f st) ->
  (forall g st, f (set_cache g st) = f st) ->
  keeps f (get_page' url).
Proof.
  intros Hlog Hopen Hcache.
  pose proof (fun u => get_page_try_keeps f u Hlog Hopen Hcache) as Htry.
  pose proof (fun u e => get_page_except_keeps f u e Hlog) as Hexc.
  intros st.
  destruct (_cache st !! request_url' url) as [p|] eqn:Hc.
  - rewrite (get_page_hit _ _ _ _ _ _ _ _ _ _ Hc). apply Hlog.
  - rewrite (get_page_miss _ _ _ _ _ _ _ _ _ Hc).
    pose proof (keeps_f_try_except f _ _ (Htry (request_url' url))
                  (Hexc (request_url' url)) st) as H.
    destruct (try_except _ _ st) as [r st1]. cbn [snd] in *.
    now rewrite Hcache.
Qed.

(** the [try] block opens its URL once, on every path *)
Lemma get_page_try_opened u st :
  opened (snd (get_page_try' u st)) = (opened st ++ [u])%list.
Proof.
  unfold get_page_try, bind, logger_debug, modify, lift, raise, ret.
  cbn [fst snd].
  cbv beta iota.
  repeat (destruct_innermost; cbv beta iota); cbn [fst snd]; reflexivity.
Qed.

Lemma get_page_try_cache_grows u : preserves cache_grows (get_page_try' u).
Proof.
  unfold get_page_try.
  repeat first
    [ apply (preserves_ret cache_grows cache_grows_refl)
    | apply (preserves_raise cache_grows cache_grows_refl)
    | apply (preserves_lift cache_grows cache_grows_refl)
    | apply (preserves_bind cache_grows cache_grows_trans); [| intros ?]
    | match goal with
      | |- preserves _ (logger_debug _ _) =>
          intros st0; change (dom (_cache st0) ⊆ dom (_cache st0)); reflexivity
      | |- preserves _ (modify (add_opened _)) =>
          intros st0; change (dom (_cache st0) ⊆ dom (_cache st0)); reflexivity
      | |- preserves _ (modify (set_cache _)) =>
          intros ?; apply cache_grows_insert
      | |- preserves _ (if ?b then _ else _) => destruct b
      | |- preserves _ (match ?x with _ => _ end) => destruct x
      end ].
Qed.

(** a page returned by the [try] block is in the cache under its URL *)
Lemma get_page_try_some u st p st1 :
  get_page_try' u st = (Ok (Some p), st1) ->
  _cache st1 !! page_url p = Some (Some p).
Proof.
  unfold get_page_try, bind, logger_debug, modify, lift, raise, ret.
  cbv beta iota.
  repeat (destruct_innermost; try discriminate; cbv beta iota);
    intros [= <- <-]; apply lookup_insert_eq.
Qed.

End FrameFacts.

(** ** The pool of workers *)

Section PoolFacts.

Lemma working_insert ws i w w' :
  ws !! i = Some w ->
  working (<[i := w']> ws) + Nat.b2n (is_working w) =
  working ws + Nat.b2n (is_working w').
Proof.
  unfold working. revert i.
  induction ws as [|a ws IH]; intros i H; [discriminate |].
  destruct i as [|i]; simpl in H |- *.
  - injection H as ->. destruct (is_working w), (is_working w'); simpl; lia.
  - specialize (IH i H). destruct (is_working a); simpl; lia.
Qed.

Lemma working_all_waiting (l : list nat) :
  working (map (fun _ => Waiting) l) = 0.
Proof. unfold working. induction l; simpl; auto. Qed.

Lemma initial_pool_invariant n : pool_invariant (initial_pool n).
Proof.
  unfold pool_invariant, initial_pool. simpl.
  now rewrite working_all_waiting.
Qed.

Lemma pool_step_invariant s s' :
  pool_invariant s -> pool_step s s' -> pool_invariant s'.
Proof.
  unfold pool_invariant. intros [Hu Hg] Hstep.
  destruct Hstep
    as [q ws pr i x q' Hi Hget | q ws pr i x link Hi
       | q ws pr i x q' Hi Hdone | q ws pr i x e q' Hi Hdone
       | q ws url | q ws Hzero | q ws n | q ws | q ws Hstopped];
    simpl in *;
    try (rewrite ?List.length_app; simpl; lia).
  - (* get *)
    unfold get in Hget.
    destruct (items q) as [|y rest] eqn:E; [discriminate |].
    injection Hget as -> <-.
    pose proof (working_insert ws i Waiting (Working x) Hi) as Hw.
    simpl in *. lia.
  - (* task_done *)
    unfold task_done_q in Hdone.
    destruct (unfinished_tasks q) as [|n] eqn:E; [discriminate |].
    injection Hdone as <-.
    pose proof (working_insert ws i (Working x)
                  (if item_truthy x then Waiting else Exited) Hi) as Hw.
    simpl in *. destruct (item_truthy x); simpl in *; lia.
  - (* an exception leaves the loop *)
    unfold task_done_q in Hdone.
    destruct (unfinished_tasks q) as [|n] eqn:E; [discriminate |].
    injection Hdone as <-.
    pose proof (working_insert ws i (Working x) (Dead e) Hi) as Hw.
    simpl in *. lia.
Qed.

Lemma reachable_invariant n s : reachable n s -> pool_invariant s.
Proof.
  induction 1; [apply initial_pool_invariant |].
  eauto using pool_step_invariant.
Qed.

Lemma pool_step_workers s s' :
  pool_step s s' ->
  List.length (pool_workers s') = List.length (pool_workers s).
Proof. destruct 1; simpl; rewrite ?length_insert; reflexivity. Qed.

Lemma reachable_workers n s :
  reachable n s -> List.length (pool_workers s) = n.
Proof.
  induction 1 as [| s s' _ IH Hstep].
  - unfold initial_pool, _prepare_threads. simpl.
    now rewrite length_map, length_seq.
  - now rewrite (pool_step_workers _ _ Hstep).
Qed.

(** a worker inside the [try] block can always acknowledge its item *)
Lemma working_task_done n q ws pr i x :
  reachable n (mkPool q ws pr) -> ws !! i = Some (Working x) ->
  exists q', task_done_q q = Some q'.
Proof.
  intros [Hu _]%reachable_invariant Hi. simpl in Hu.
  assert (0 < working ws).
  { pose proof (working_insert ws i (Working x) Waiting Hi). simpl in *. lia. }
  unfold task_done_q. destruct (unfinished_tasks q); [lia | eauto].
Qed.

Lemma put_all_steps q ws pr i x puts :
  ws !! i = Some (Working x) ->
  rtc pool_step (mkPool q ws pr) (mkPool (put_all puts q) ws pr).
Proof.
  intros Hi. revert q. induction puts as [|l puts IH]; intros q; simpl.
  - apply rtc_refl.
  - eapply rtc_l; [| apply IH]. now apply (worker_put q ws pr i x l).
Qed.

Lemma wait_threads_put_spec threads q :
  items (_wait_threads_put threads q) =
  (items q ++ repeat None (List.length threads))%list /\
  unfinished_tasks (_wait_threads_put threads q) =
  unfinished_tasks q + List.length threads.
Proof.
  unfold _wait_threads_put. revert q.
  induction threads as [|t threads IH]; intros q; simpl.
  - rewrite app_nil_r. split; [reflexivity | lia].
  - destruct (IH (put None q)) as [-> ->]. simpl.
    rewrite <- app_assoc. split; [reflexivity | lia].
Qed.

(** a pass of the loop of [_fetch] is a run of the pool: one [get], the
    puts of the [try] block, one [task_done] *)
Lemma fetch_iteration_steps (body : option string -> M unit) st exit st'
    ws pr i :
  (forall x, only_puts (body x)) ->
  queue_counted (_to_fetch st) ->
  fetch_iteration body st = Some (exit, st') ->
  ws !! i = Some Waiting ->
  rtc pool_step (mkPool (_to_fetch st) ws pr)
    (mkPool (_to_fetch st') (<[i := worker_after exit]> ws) pr).
Proof.
  intros Hbody Hcount Hrun Hi. unfold fetch_iteration in Hrun.
  destruct (get (_to_fetch st)) as [[x q1] |] eqn:Hget; [| discriminate].
  assert (Hq1 : unfinished_tasks q1 = unfinished_tasks (_to_fetch st) /\
                0 < unfinished_tasks (_to_fetch st)).
  { unfold get, queue_counted in *.
    destruct (items (_to_fetch st)); [discriminate |].
    injection Hget as _ <-. simpl in *. lia. }
  unfold try_finally in Hrun.
  set (st1 := set_to_fetch (fun _ => q1) st) in *.
  destruct (Hbody x st1) as [puts Hputs].
  destruct (body x st1) as [r st2]. cbn [snd] in Hputs.
  change (_to_fetch st1) with q1 in Hputs.
  destruct (put_all_counters puts q1) as (_ & _ & Hu & _).
  unfold task_done in Hrun.
  destruct (task_done_q (_to_fetch st2)) as [q3 |] eqn:Hdone.
  2:{ unfold task_done_q in Hdone. rewrite Hputs in Hdone.
      destruct (unfinished_tasks (put_all puts q1)); [lia | discriminate]. }
  assert (Hlt : i < List.length ws) by (now apply lookup_lt_Some in Hi).
  assert (Hw : <[i := Working x]> ws !! i = Some (Working x))
    by (now apply list_lookup_insert_eq).
  eapply rtc_l; [exact (worker_get _ ws pr i x q1 Hi Hget) |].
  etrans; [exact (put_all_steps q1 _ pr i x puts Hw) |].
  rewrite <- Hputs. apply rtc_once.
  destruct r as [[] | e]; injection Hrun as <- <-; cbn [_to_fetch set_to_fetch].
  - replace (worker_after (if negb (item_truthy x) then Break else Continue))
      with (if item_truthy x then Waiting else Exited)
      by (now destruct (item_truthy x)).
    pose proof (worker_done _ _ pr i x q3 Hw Hdone) as Hstep.
    now rewrite list_insert_insert_eq in Hstep.
  - pose proof (worker_raise _ _ pr i x e q3 Hw Hdone) as Hstep.
    now rewrite list_insert_insert_eq in Hstep.
Qed.

End PoolFacts.

(** ** [AggregatingLocator.get_project] and [locate] *)

Section AggregatingFacts.

Context {Dist : Type}.
Implicit Types (ls pre post : list (locator Dist)) (l : locator Dist).

Lemma dict_truthy_empty (r : gmap string Dist) :
  r = ∅ -> dict_truthy Dist r = false.
Proof. intros ->. reflexivity. Qed.

Lemma dict_truthy_nonempty (r : gmap string Dist) :
  r <> ∅ -> dict_truthy Dist r = true.
Proof. intros H. unfold dict_truthy. now rewrite bool_decide_eq_false_2. Qed.

Lemma aggregating_loop_all_empty ls merge name i result called :
  Forall (fun l => l name = ∅) ls ->
  aggregating_loop Dist ls merge name i result called =
  (result, (called ++ seq i (List.length ls))%list).
Proof.
  intros H. revert i called.
  induction H as [|l ls Hl _ IH]; intros i called; simpl.
  - now rewrite app_nil_r.
  - rewrite (dict_truthy_empty _ Hl), IH, <- app_assoc. reflexivity.
Qed.

Lemma aggregating_loop_first_hit pre l post name i result called :
  Forall (fun l' => l' name = ∅) pre -> l name <> ∅ ->
  aggregating_loop Dist (pre ++ l :: post) false name i result called =
  (l name, (called ++ seq i (List.length pre + 1))%list).
Proof.
  intros H Hl. revert i called.
  induction H as [|l' pre Hl' _ IH]; intros i called; simpl.
  - now rewrite (dict_truthy_nonempty _ Hl).
  - rewrite (dict_truthy_empty _ Hl'), IH, <- app_assoc. reflexivity.
Qed.

Lemma aggregating_loop_merge ls name i result called :
  aggregating_loop Dist ls true name i result called =
  (fold_left (fun acc l => l name ∪ acc) ls result,
   (called ++ seq i (List.length ls))%list).
Proof.
  revert i result called.
  induction ls as [|l ls IH]; intros i result called; simpl.
  - now rewrite app_nil_r.
  - destruct (dict_truthy Dist (l name)) eqn:E.
    + rewrite IH, <- app_assoc. reflexivity.
    + unfold dict_truthy in E. apply negb_false_iff, bool_decide_eq_true in E.
      rewrite IH, <- app_assoc, E, (left_id_L ∅ (∪)). reflexivity.
Qed.

Lemma merged_lookup ls name result k :
  fold_left (fun acc l => l name ∪ acc) ls result !! k =
  match lookup_latest ls name k with
  | Some v => Some v
  | None => result !! k
  end.
Proof.
  revert result. induction ls as [|l ls IH]; intros result; simpl.
  - reflexivity.
  - rewrite IH. destruct (lookup_latest ls name k); [reflexivity |].
    rewrite lookup_union. destruct (l name !! k), (result !! k); reflexivity.
Qed.

Lemma lookup_latest_is_Some ls name k :
  is_Some (lookup_latest ls name k) <->
  exists l, l ∈ ls /\ is_Some (l name !! k).
Proof.
  induction ls as [|l ls IH]; simpl.
  - split; [intros [v Hv]; discriminate | intros (l & Hl & _)].
    now apply elem_of_nil in Hl.
  - destruct (lookup_latest ls name k) as [v|] eqn:E.
    + split; [intros _ | eauto].
      destruct (proj1 IH) as (l' & Hl' & Hk); [eauto |].
      exists l'. split; [now right | exact Hk].
    + split.
      * intros Hk. exists l. split; [now left | exact Hk].
      * intros (l' & Hl' & Hk). apply elem_of_cons in Hl' as [-> | Hl'];
          [exact Hk |].
        destruct (proj2 IH) as [v Hv]; [eauto | discriminate].
Qed.

End AggregatingFacts.

Section CandidateFacts.

Context {Dist : Type}.

Lemma elem_of_matching vp k ks :
  k ∈ matching vp ks <-> k ∈ ks /\ vp_match vp k = Ok true.
Proof.
  induction ks as [|k' ks IH]; simpl.
  - rewrite elem_of_nil. tauto.
  - destruct (vp_match vp k') as [[] | e] eqn:E;
      rewrite ?elem_of_cons, IH; split;
      try (intros [[-> | H] Hk]; [congruence | tauto]);
      try (intros [-> | [H Hk]]; tauto); tauto.
Qed.

Lemma elem_of_keys (d : gmap string Dist) k :
  k ∈ keys Dist d <-> is_Some (d !! k).
Proof.
  unfold keys. rewrite list_elem_of_fmap. split.
  - intros ([k' v] & -> & H%elem_of_map_to_list). simpl. eauto.
  - intros [v H]. exists (k, v). split; [reflexivity |].
    now apply elem_of_map_to_list.
Qed.

End CandidateFacts.

Section SortFacts.

Variable key : Type.
Variable legacy_version_key : string -> key.
Variable key_lt : key -> key -> bool.

Hypothesis key_lt_asym :
  forall a b, key_lt a b = true -> key_lt b a = false.
Hypothesis key_le_trans :
  forall a b c,
    key_lt b a = false -> key_lt c b = false -> key_lt c a = false.

Local Abbreviation le := (key_le legacy_version_key key_lt).
Local Abbreviation insert_sorted' :=
  (insert_sorted key legacy_version_key key_lt).
Local Abbreviation sorted' := (sorted key legacy_version_key key_lt).

Lemma key_le_refl a : le a a.
Proof.
  unfold key_le.
  destruct (key_lt (legacy_version_key a) (legacy_version_key a)) eqn:E;
    [| reflexivity].
  now rewrite (key_lt_asym _ _ E) in E.
Qed.

Lemma elem_of_insert_sorted x y l :
  y ∈ insert_sorted' x l <-> y = x \/ y ∈ l.
Proof.
  induction l as [|z l IH]; simpl.
  - rewrite list_elem_of_singleton, elem_of_nil. tauto.
  - destruct (key_lt _ _); rewrite !elem_of_cons; [tauto |].
    rewrite IH. tauto.
Qed.

Lemma elem_of_fold_insert y l acc :
  y ∈ fold_left (fun acc x => insert_sorted' x acc) l acc <->
  y ∈ l \/ y ∈ acc.
Proof.
  revert acc. induction l as [|x l IH]; intros acc; simpl.
  - rewrite elem_of_nil. tauto.
  - rewrite IH, elem_of_insert_sorted, elem_of_cons. tauto.
Qed.

Lemma elem_of_sorted y l : y ∈ sorted' l <-> y ∈ l.
Proof. unfold sorted. rewrite elem_of_fold_insert, elem_of_nil. tauto. Qed.

Lemma insert_sorted_sorted x l :
  StronglySorted le l -> StronglySorted le (insert_sorted' x l).
Proof.
  induction 1 as [|y l Hl IH Hy]; simpl.
  - repeat constructor.
  - destruct (key_lt (legacy_version_key x) (legacy_version_key y)) eqn:E.
    + constructor; [now constructor |].
      assert (Hxy : le x y) by (unfold key_le; auto).
      constructor; [exact Hxy |].
      eapply Forall_impl; [exact Hy |]. intros z Hz. unfold key_le in *.
      eauto.
    + constructor; [exact IH |].
      apply Forall_forall. intros z Hz.
      apply elem_of_insert_sorted in Hz as [-> | Hz].
      * exact E.
      * rewrite Forall_forall in Hy. now apply Hy.
Qed.

Lemma sorted_sorted l : StronglySorted le (sorted' l).
Proof.
  unfold sorted.
  assert (H : forall acc, StronglySorted le acc ->
                StronglySorted le
                  (fold_left (fun acc x => insert_sorted' x acc) l acc)).
  { induction l as [|x l IH]; intros acc Hacc; simpl; [exact Hacc |].
    apply IH. now apply insert_sorted_sorted. }
  apply H. constructor.
Qed.

Lemma last_is_greatest l k :
  StronglySorted le l -> last l = Some k -> forall x, x ∈ l -> le x k.
Proof.
  induction 1 as [|y l Hl IH Hy]; [discriminate |].
  intros Hlast x Hx. destruct l as [|z l].
  - injection Hlast as <-. apply list_elem_of_singleton in Hx as ->.
    apply key_le_refl.
  - change (last (z :: l) = Some k) in Hlast.
    apply elem_of_cons in Hx as [-> | Hx]; [| now apply IH].
    rewrite Forall_forall in Hy. apply Hy.
    now apply last_Some_elem_of.
Qed.

End SortFacts.

Section LocateFacts.

Context {Dist : Type}.
Variable parse_predicate : string -> VersionPredicate.
Variable key : Type.
Variable legacy_version_key : string -> key.
Variable key_lt : key -> key -> bool.
Variable scraping_get_project : locator Dist.

Local Abbreviation sorted' := (sorted key legacy_version_key key_lt).

Lemma default_locator_is_scraping name :
  default_locator_get_project Dist scraping_get_project name =
  scraping_get_project name.
Proof.
  unfold default_locator_get_project, aggregating_get_project. simpl.
  destruct (dict_truthy Dist (scraping_get_project name)) eqn:E;
    [reflexivity |].
  unfold dict_truthy in E. apply negb_false_iff, bool_decide_eq_true in E.
  now rewrite E.
Qed.

(** the candidates of [locate], in the order in which the last one is
    picked *)
Lemma locate_unfold predicate :
  locate Dist parse_predicate key legacy_version_key key_lt
    scraping_get_project predicate =
  let vp := parse_predicate predicate in
  let versions := scraping_get_project (vp_name vp) in
  let slist := matching vp (keys Dist versions) in
  match last (if Nat.ltb 1 (List.length slist) then sorted' slist else slist)
  with
  | Some k => versions !! k
  | None => None
  end.
Proof.
  unfold locate. rewrite default_locator_is_scraping. cbv zeta.
  destruct (dict_truthy Dist _) eqn:E; [reflexivity |].
  unfold dict_truthy in E. apply negb_false_iff, bool_decide_eq_true in E.
  rewrite E. unfold keys. rewrite map_to_list_empty. reflexivity.
Qed.

End LocateFacts.

(** * The claims *)

(** ** The file-name parser *)

(** C9. A URL whose path ends in [.egg] is rejected, whatever the
    expected project name and whatever its file name looks like.  A URL
    whose path ends in one of [.tar.gz .tar.bz2 .tar .zip .tgz] is a
    candidate: its file name is handed to the name and version parser
    with that extension, which, for each of the five, accepts
    [foo-1.0]. *)
Theorem egg_rejected_archives_candidates :
  (forall url pn,
     endswith (UrlLib.path (urlparse url)) ".egg" = true ->
     convert_url_to_download_info_log url pn = (None, [])) /\
  (forall url pn ext,
     In ext archive_extensions ->
     endswith (UrlLib.path (urlparse url)) ext = true ->
     convert_url_to_download_info_log url pn =
     parse_filename (urlparse url) pn
       (basename (UrlLib.path (urlparse url))) ext) /\
  (forall ext,
     In ext archive_extensions ->
     exists info,
       convert_url_to_download_info ("http://host/foo-1.0" ++ ext)
         (Some "foo") = Some info /\
       di_name info = "foo" /\ di_version info = "1.0").
Proof.
  split; [| split].
  - intros url pn H. unfold convert_url_to_download_info_log.
    rewrite (endswith_any_in _ ".egg") by (simpl; auto 10).
    apply ext_loop_egg. now apply basename_endswith.
  - exact convert_archive.
  - simpl. intros ext [<- | [<- | [<- | [<- | [<- | []]]]]];
      eexists; (split; [vm_compute; reflexivity | split; reflexivity]).
Qed.

Lemma egg_rejected_archives_candidates_witness :
  convert_url_to_download_info_log "http://host/pkgs/foo-1.0.egg" (Some "foo")
  = (None, []) /\
  convert_url_to_download_info_log "http://host/pkgs/foo-1.0.zip" (Some "foo")
  = parse_filename (urlparse "http://host/pkgs/foo-1.0.zip") (Some "foo")
      "foo-1.0.zip" ".zip".
Proof.
  split.
  - apply (proj1 egg_rejected_archives_candidates). reflexivity.
  - apply (proj1 (proj2 egg_rejected_archives_candidates)
             "http://host/pkgs/foo-1.0.zip" (Some "foo") ".zip").
    + simpl. auto.
    + reflexivity.
Defined.




(** C3 (X2), as the code has it.  For a URL whose file name is
    [name-version] followed by one of the five accepted extensions, with
    [name] over the name characters, [version] over the version
    characters, digit first and without a dash followed by a digit, and
    the expected project name absent or equal to [name] up to case: the
    parser returns a download info with exactly that name and version,
    whose URL is the parsed URL put together again with an empty
    fragment (the query is kept) and so parses back without fragment. *)
Theorem archive_url_download_info url pn name version ext :
  In ext archive_extensions ->
  basename (UrlLib.path (urlparse url)) = name ++ "-" ++ version ++ ext ->
  name <> "" -> all_chars name_char name = true ->
  starts_with digit version = true ->
  all_chars version_char version = true ->
  has_dash_digit version = false ->
  expected_name pn name ->
  exists info,
    convert_url_to_download_info url pn = Some info /\
    di_name info = name /\ di_version info = version /\
    di_url info = urlunparse (without_fragment (urlparse url)) /\
    fragment (urlparse (di_url info)) = "".
Proof.
  intros Hin Hfn Hne Hname Hd Hver Hdd Hexp.
  assert (Hfn' : basename (UrlLib.path (urlparse url)) =
                 (name ++ "-" ++ version) ++ ext)
    by (rewrite Hfn, !app_assoc'; reflexivity).
  assert (Hpath : endswith (UrlLib.path (urlparse url)) ext = true).
  { apply endswith_basename. rewrite Hfn'. apply endswith_app. }
  unfold convert_url_to_download_info.
  rewrite (convert_archive url pn ext Hin Hpath), parse_filename_unfold.
  cbv zeta. unfold filename_stem. rewrite Hfn', drop_last_app.
  unfold strip_python_version. rewrite (pyver_search_none _ _ Hver).
  cbn [fst snd].
  destruct (pnv_match_exact name version Hne Hname Hd Hver Hdd)
    as (mo & -> & -> & ->).
  assert (Hok : not_project_name pn ||
                String.eqb (project_name_lower pn) (lower name) = true).
  { destruct Hexp as [-> | ->]; [reflexivity |].
    rewrite String.eqb_refl. apply orb_true_r. }
  rewrite Hok. eexists. split; [reflexivity |]. cbn [fst di_name di_version di_url].
  repeat split. apply without_fragment_roundtrip.
Qed.

Lemma archive_url_download_info_witness :
  exists info,
    convert_url_to_download_info
      "http://pypi.python.org/packages/source/F/Foo_bar/Foo_bar-1.0.2.tar.bz2?x=1#md5=00ff"
      (Some "foo_bar") = Some info /\
    di_name info = "Foo_bar" /\ di_version info = "1.0.2" /\
    di_url info =
    urlunparse (without_fragment (urlparse
      "http://pypi.python.org/packages/source/F/Foo_bar/Foo_bar-1.0.2.tar.bz2?x=1#md5=00ff")) /\
    fragment (urlparse (di_url info)) = "".
Proof.
  apply (archive_url_download_info _ (Some "foo_bar") "Foo_bar" "1.0.2"
           ".tar.bz2").
  - simpl. auto.
  - reflexivity.
  - discriminate.
  - reflexivity.
  - reflexivity.
  - reflexivity.
  - reflexivity.
  - right. reflexivity.
Defined.

(** C3 as stated fails twice: the query of the URL stays in the URL of
    the download info, and a file name [foo-1-2.tar.gz], which reads
    [foo], dash, version [1-2], is rejected for the expected name [foo]. *)
Lemma canonical_url_keeps_query :
  (exists info,
     convert_url_to_download_info
       "http://host/pkgs/foo-1.0.tar.gz?download=1#md5=0123abcd"
       (Some "foo") = Some info /\
     di_name info = "foo" /\ di_version info = "1.0" /\
     di_url info = "http://host/pkgs/foo-1.0.tar.gz?download=1" /\
     query (urlparse (di_url info)) = "download=1") /\
  (basename (UrlLib.path (urlparse "http://host/pkgs/foo-1-2.tar.gz")) =
   "foo" ++ "-" ++ "1-2" ++ ".tar.gz" /\
   all_chars version_char "1-2" = true /\
   convert_url_to_download_info "http://host/pkgs/foo-1-2.tar.gz"
     (Some "foo") = None).
Proof.
  split.
  - eexists. split; [vm_compute; reflexivity |]. repeat split.
  - repeat split.
Qed.

(** C4 (X3), as the code has it.  With the extension and the optional
    Python-version suffix stripped, the parser matches the remainder
    against name, dash, version with a greedy name: the name is the
    longest prefix over [[a-z0-9_.-]] (either case) followed by a dash
    and a digit, the version is the longest run over [[0-9_.-]] from
    that digit on, and what follows the version is ignored.  When no
    prefix qualifies the parser returns none and emits one debug
    record; no record above debug level is ever emitted. *)
Theorem name_version_longest_match url pn ext :
  In ext archive_extensions ->
  endswith (UrlLib.path (urlparse url)) ext = true ->
  let stem := filename_stem (basename (UrlLib.path (urlparse url))) ext in
  let res := convert_url_to_download_info_log url pn in
  (forall r, In r (snd res) -> log_level r = DEBUG) /\
  ((forall n, ~ name_candidate stem n) ->
   res = (None, [Log DEBUG "No match for project/version: %s" [stem]])) /\
  (forall info, fst res = Some info ->
     exists rest,
       name_version_split stem (di_name info) (di_version info) rest /\
       forall n, name_candidate stem n ->
                 String.length n <= String.length (di_name info)) /\
  (forall n, name_candidate stem n -> not_project_name pn = true ->
     exists info, fst res = Some info).
Proof.
  intros Hin Hpath stem res. subst res.
  rewrite (convert_archive url pn ext Hin Hpath), parse_filename_unfold.
  cbv zeta. fold stem.
  destruct (re_match PROJECT_NAME_AND_VERSION stem) as [mo|] eqn:E.
  - destruct (pnv_match_some _ _ E)
      as (name & version & rest & Hsplit & Hg1 & Hg2 & Hmax).
    assert (Hcand : name_candidate stem name).
    { destruct Hsplit as (Hs & Hne & Hname & Hd & _ & _).
      exists (version ++ rest). repeat split; try assumption.
      destruct version; [discriminate | exact Hd]. }
    repeat split.
    + destruct (_ || _); intros r [].
    + intros Hnone. now apply Hnone in Hcand.
    + destruct (_ || _); [| discriminate].
      intros info [= <-]. cbn [di_name di_version]. rewrite Hg1, Hg2.
      now exists rest.
    + intros n _ ->. cbn [orb fst]. eauto.
  - repeat split.
    + intros r [<- | []]. reflexivity.
    + discriminate.
    + intros n Hn. now apply (pnv_match_none _ E) in Hn.
Qed.

Lemma name_version_longest_match_witness :
  (forall r,
     In r (snd (convert_url_to_download_info_log
                  "http://host/pkgs/foo-1-2b.tar.gz" None)) ->
     log_level r = DEBUG) /\
  (forall info,
     fst (convert_url_to_download_info_log
            "http://host/pkgs/foo-1-2b.tar.gz" None) = Some info ->
     exists rest,
       name_version_split "foo-1-2b" (di_name info) (di_version info) rest /\
       forall n, name_candidate "foo-1-2b" n ->
                 String.length n <= String.length (di_name info)).
Proof.
  pose proof (name_version_longest_match "http://host/pkgs/foo-1-2b.tar.gz"
                None ".tar.gz") as H.
  cbv zeta in H.
  destruct H as (H1 & _ & H3 & _).
  - simpl. auto.
  - reflexivity.
  - split; [exact H1 | exact H3].
Defined.

(** C4 as stated fails: on [foo-1-2] the parser takes the name [foo-1],
    not the shortest candidate [foo]; on [foo-1.0a1] the version [1.0]
    does not take all that follows the dash. *)
Lemma name_is_not_shortest_prefix :
  (exists info,
     convert_url_to_download_info "http://host/pkgs/foo-1-2.tar.gz" None
     = Some info /\
     filename_stem "foo-1-2.tar.gz" ".tar.gz" = "foo-1-2" /\
     di_name info = "foo-1" /\ di_version info = "2" /\
     name_candidate "foo-1-2" "foo" /\
     ~ shortest_name_split "foo-1-2" (di_name info) (di_version info)) /\
  (exists info,
     convert_url_to_download_info "http://host/pkgs/foo-1.0a1.tar.gz" None
     = Some info /\
     filename_stem "foo-1.0a1.tar.gz" ".tar.gz" = "foo-1.0a1" /\
     di_name info = "foo" /\ di_version info = "1.0" /\
     ~ shortest_name_split "foo-1.0a1" (di_name info) (di_version info)).
Proof.
  assert (Hfoo : name_candidate "foo-1-2" "foo").
  { exists "1-2". repeat split. discriminate. }
  split.
  - eexists. split; [vm_compute; reflexivity |].
    repeat split; try exact Hfoo.
    intros (_ & _ & Hmin). specialize (Hmin "foo" Hfoo).
    cbn in Hmin. lia.
  - eexists. split; [vm_compute; reflexivity |].
    repeat split. intros (Hs & _). discriminate Hs.
Qed.

(** ** The fetch layer *)

Section FetchClaims.

Variable urlopen : string -> outcome Response.
Variable zlib_decompress : string -> outcome string.
Variable gzip_read : string -> outcome string.
Variable bytes_decode : string -> string -> outcome string.
Variable isdir : string -> bool.
Variable urljoin : string -> option string -> string.
Variable ensure_slash : string -> string.

Local Abbreviation get_page' :=
  (get_page urlopen zlib_decompress gzip_read bytes_decode isdir urljoin
     ensure_slash).
Local Abbreviation get_page_try' :=
  (get_page_try urlopen zlib_decompress gzip_read bytes_decode).
Local Abbreviation request_url' := (request_url isdir urljoin ensure_slash).

(** C2 (X5), on the code.  An HTML response whose Content-Encoding is
    [gzip] never becomes a page: the function stored for [gzip] reads
    the unbound name [d] instead of its parameter, the [NameError] is
    caught by [get_page], logged, and none is returned and cached,
    whatever the body is.  The claim expects the decoded page here, as
    the [deflate] entry gives it. *)
Theorem gzip_response_yields_no_page url st resp body :
  _cache st !! request_url' url = None ->
  urlopen (request_url' url) = Ok resp ->
  is_match HTML_CONTENT_TYPE (content_type resp) = true ->
  content_encoding_header resp = Some "gzip" ->
  read resp = Ok body ->
  exists st',
    get_page' url st = (Ok None, st') /\
    _cache st' !! request_url' url = Some None /\
    log st' =
    (log st ++
     [Log DEBUG "Fetching %s" [request_url' url];
      Log DEBUG "Fetched %s" [request_url' url];
      Log ERROR "Fetch failed: %s: %s" [request_url' url]])%list.
Proof.
  intros Hc Hresp Hct Henc Hread.
  rewrite (get_page_miss _ _ _ _ _ _ _ _ _ Hc). unfold try_except.
  rewrite (get_page_try_encoded urlopen zlib_decompress gzip_read bytes_decode
             _ st resp body "gzip" Hresp Hct Hread Henc eq_refl).
  cbv zeta. rewrite decoders_gzip, gzip_lambda_raises, get_page_except_spec.
  eexists. split; [reflexivity |].
  split; [apply lookup_insert_eq |].
  simpl. now rewrite <- !app_assoc.
Qed.

(** X6.  The sibling entry: on a cache miss, an HTML response encoded
    with [deflate] that decompresses and decodes becomes the page, which
    is cached under the requested URL and under the final URL. *)
Lemma deflate_response_yields_page url st resp body data text :
  _cache st !! request_url' url = None ->
  urlopen (request_url' url) = Ok resp ->
  is_match HTML_CONTENT_TYPE (content_type resp) = true ->
  content_encoding_header resp = Some "deflate" ->
  read resp = Ok body ->
  zlib_decompress body = Ok data ->
  bytes_decode data (charset_of (content_type resp)) = Ok text ->
  exists st',
    get_page' url st = (Ok (Some (new_Page text (geturl resp))), st') /\
    _cache st' !! request_url' url = Some (Some (new_Page text (geturl resp))) /\
    _cache st' !! geturl resp = Some (Some (new_Page text (geturl resp))).
Proof.
  intros Hc Hresp Hct Henc Hread Hz Hd.
  rewrite (get_page_miss _ _ _ _ _ _ _ _ _ Hc). unfold try_except.
  rewrite (get_page_try_encoded urlopen zlib_decompress gzip_read bytes_decode
             _ st resp body "deflate" Hresp Hct Hread Henc eq_refl).
  cbv zeta. rewrite decoders_deflate, Hz, Hd.
  eexists. split; [reflexivity |].
  split; [apply lookup_insert_eq |].
  cbn [_cache set_cache].
  destruct (decide (request_url' url = geturl resp)) as [-> | Hne].
  - apply lookup_insert_eq.
  - rewrite lookup_insert_ne by exact Hne. apply lookup_insert_eq.
Qed.

(** X7.  An encoding without entry in [decoders]: the [KeyError] of
    the lookup ends the fetch inside [get_page], which logs it at ERROR
    level, returns none and caches none. *)
Lemma unknown_encoding_yields_no_page url st resp body encoding :
  _cache st !! request_url' url = None ->
  urlopen (request_url' url) = Ok resp ->
  is_match HTML_CONTENT_TYPE (content_type resp) = true ->
  content_encoding_header resp = Some encoding ->
  truthy encoding = true ->
  encoding <> "deflate" -> encoding <> "gzip" ->
  read resp = Ok body ->
  exists st',
    get_page' url st = (Ok None, st') /\
    _cache st' !! request_url' url = Some None /\
    In (Log ERROR "Fetch failed: %s: %s" [request_url' url]) (log st').
Proof.
  intros Hc Hresp Hct Henc Htr Hn1 Hn2 Hread.
  rewrite (get_page_miss _ _ _ _ _ _ _ _ _ Hc). unfold try_except.
  rewrite (get_page_try_encoded urlopen zlib_decompress gzip_read bytes_decode
             _ st resp body encoding Hresp Hct Hread Henc Htr).
  cbv zeta. rewrite decoders_other by assumption.
  rewrite get_page_except_spec.
  eexists. split; [reflexivity |].
  split; [apply lookup_insert_eq |].
  simpl. apply in_or_app. right. now left.
Qed.

End FetchClaims.

Lemma gzip_response_yields_no_page_witness :
  exists st',
    Sample.get_page Sample.foo_url Sample.state = (Ok None, st') /\
    _cache st' !! Sample.foo_url = Some None /\
    log st' =
    [Log DEBUG "Fetching %s" [Sample.foo_url];
     Log DEBUG "Fetched %s" [Sample.foo_url];
     Log ERROR "Fetch failed: %s: %s" [Sample.foo_url]].
Proof.
  apply (gzip_response_yields_no_page Sample.urlopen Sample.zlib_decompress
           Sample.gzip_read Sample.bytes_decode Sample.isdir Sample.urljoin
           Sample.ensure_slash Sample.foo_url Sample.state
           (mkResponse (Some "text/html; charset=utf-8") (Some "gzip")
              Sample.foo_url (Ok Sample.foo_html))
           Sample.foo_html);
    reflexivity.
Defined.

(** ** The worker loop *)

(** C1 (X1), as the code has it.  A link of a fetched page that is not in
    the seen-set and does not parse as a download is marked seen, and is
    put on the queue exactly when it is in scope (scheme [http] or
    [https], host other than [localhost], path not ending in an archive,
    [.exe] or [.pdf] extension) and the URL of the page it was found on
    starts with the base URL of the locator. *)
Theorem link_enqueued_iff_in_scope url link st :
  link ∉ _seen st ->
  convert_url_to_download_info link (Some (project_name st)) = None ->
  exists st',
    process_link url link st = (Ok tt, st') /\
    link ∈ _seen st' /\
    _to_fetch st' =
    (if in_scope link && startswith url (base_url st)
     then put (Some link) (_to_fetch st)
     else _to_fetch st) /\
    (items (_to_fetch st') = (items (_to_fetch st) ++ [Some link])%list <->
     in_scope link = true /\ startswith url (base_url st) = true).
Proof.
  intros Hseen Hinfo.
  destruct (process_link_queue url link st) as (st' & Hrun & Hin & Hq).
  rewrite decide_False in Hq by exact Hseen.
  rewrite Hinfo, should_queue_in_scope in Hq.
  exists st'. split; [exact Hrun |]. split; [exact Hin |].
  split; [exact Hq |]. rewrite Hq.
  destruct (in_scope link), (startswith url (base_url st)); simpl;
    (split; [| try (intros [? ?]; discriminate); reflexivity]);
    try (intros _; split; reflexivity);
    intros H; apply (f_equal (@List.length _)) in H;
    rewrite List.length_app in H; simpl in H; lia.
Qed.

Lemma link_enqueued_iff_in_scope_witness :
  exists st',
    process_link Sample.foo_url "http://pypi.python.org/simple/foo/old/"
      Sample.state = (Ok tt, st') /\
    _to_fetch st' =
    put (Some "http://pypi.python.org/simple/foo/old/")
      (_to_fetch Sample.state).
Proof.
  destruct (link_enqueued_iff_in_scope Sample.foo_url
              "http://pypi.python.org/simple/foo/old/" Sample.state)
    as (st' & Hrun & _ & Hq & _).
  - set_solver.
  - reflexivity.
  - exists st'. split; [exact Hrun | exact Hq].
Defined.

(** C1 as stated fails: the prefix test is made on the URL of the page,
    not on the link.  A link outside the base URL found on a page inside
    it is put on the queue; a link inside the base URL found on a page
    outside it is not. *)
Lemma base_url_is_tested_on_the_page :
  (in_scope "http://example.com/home/" = true /\
   startswith "http://example.com/home/" (base_url Sample.state) = false /\
   items (_to_fetch (snd (process_link Sample.foo_url
                            "http://example.com/home/" Sample.state)))
   = [Some "http://example.com/home/"]) /\
  (in_scope Sample.bar_url = true /\
   startswith Sample.bar_url (base_url Sample.state) = true /\
   convert_url_to_download_info Sample.bar_url (Some "foo") = None /\
   items (_to_fetch (snd (process_link "http://example.com/home/"
                            Sample.bar_url Sample.state)))
   = []).
Proof. vm_compute. repeat split. Qed.

Section WorkerClaims.

Variable urlopen : string -> outcome Response.
Variable zlib_decompress : string -> outcome string.
Variable gzip_read : string -> outcome string.
Variable bytes_decode : string -> string -> outcome string.
Variable isdir : string -> bool.
Variable urljoin : string -> option string -> string.
Variable unescape : string -> string.
Variable ensure_slash : string -> string.

Local Abbreviation fetch_body' :=
  (fetch_body urlopen zlib_decompress gzip_read bytes_decode isdir urljoin
     unescape ensure_slash).
Local Abbreviation _fetch' :=
  (_fetch urlopen zlib_decompress gzip_read bytes_decode isdir urljoin
     unescape ensure_slash).

(** C6 (X8).  Every pass through the loop of [_fetch] makes one [get] and
    one [task_done], whether the [try] block returns, leaves by
    [continue], raises, or was handed the sentinel: this holds for any
    [try] block that only puts URLs, as the one of [_fetch] does.  In
    every state that the pool of workers reaches, the count of
    unfinished tasks is the number of pending items plus the number of
    workers inside the [try] block, so [task_done] is never refused and
    the count is zero, which is what [join()] waits for, as soon as the
    queue is empty and no worker holds an item.  [_wait_threads] puts
    one sentinel for each started worker, and a worker that gets the
    sentinel acknowledges it and leaves the loop. *)
Theorem every_dequeue_is_acknowledged :
  (forall (body : option string -> M unit) st exit st',
     (forall x, only_puts (body x)) ->
     queue_counted (_to_fetch st) ->
     fetch_iteration body st = Some (exit, st') ->
     n_get (_to_fetch st') = S (n_get (_to_fetch st)) /\
     n_done (_to_fetch st') = S (n_done (_to_fetch st))) /\
  (forall x, only_puts (fetch_body' x)) /\
  (forall (body : option string -> M unit) st exit st' ws pr i,
     (forall x, only_puts (body x)) ->
     queue_counted (_to_fetch st) ->
     fetch_iteration body st = Some (exit, st') ->
     ws !! i = Some Waiting ->
     rtc pool_step (mkPool (_to_fetch st) ws pr)
       (mkPool (_to_fetch st') (<[i := worker_after exit]> ws) pr)) /\
  (forall n s, reachable n s -> pool_invariant s) /\
  (forall n q ws pr i x,
     reachable n (mkPool q ws pr) -> ws !! i = Some (Working x) ->
     exists q', task_done_q q = Some q') /\
  (forall n q ws pr,
     reachable n (mkPool q ws pr) -> items q = [] -> working ws = 0 ->
     unfinished_tasks q = 0) /\
  (forall num_workers q,
     items (_wait_threads_put (_prepare_threads num_workers) q) =
     (items q ++ repeat None num_workers)%list) /\
  (forall fuel st rest,
     items (_to_fetch st) = None :: rest ->
     queue_counted (_to_fetch st) ->
     exists st',
       _fetch' (S fuel) st = Some (Break, st') /\
       items (_to_fetch st') = rest /\
       n_done (_to_fetch st') = S (n_done (_to_fetch st))).
Proof.
  assert (Hbody : forall x, only_puts (fetch_body' x)).
  { intros x st.
    destruct (fetch_body_only_puts urlopen zlib_decompress gzip_read
                bytes_decode isdir urljoin unescape ensure_slash x st)
      as (st' & puts & Hrun & Hq).
    exists puts. now rewrite Hrun. }
  split; [| split; [| split; [| split; [| split; [| split; [| split]]]]]].
  - intros body st exit st' Hb Hc Hrun.
    destruct (fetch_iteration_acks body st exit st' Hb Hc Hrun)
      as (Hg & Hd & _).
    now split.
  - exact Hbody.
  - intros body st exit st' ws pr i Hb Hc Hrun Hi.
    exact (fetch_iteration_steps body st exit st' ws pr i Hb Hc Hrun Hi).
  - intros n s. apply reachable_invariant.
  - intros n q ws pr i x. apply working_task_done.
  - intros n q ws pr [Hu _]%reachable_invariant Hitems Hw. simpl in Hu.
    rewrite Hu, Hitems, Hw. reflexivity.
  - intros num_workers q.
    destruct (wait_threads_put_spec (_prepare_threads num_workers) q) as [-> _].
    unfold _prepare_threads. now rewrite length_seq.
  - intros fuel st rest Hitems Hcount. unfold queue_counted in Hcount.
    rewrite Hitems in Hcount. simpl in Hcount.
    cbn [_fetch]. unfold fetch_iteration, get. rewrite Hitems.
    unfold try_finally. cbn [fetch_body ret].
    unfold task_done, task_done_q. cbn [_to_fetch set_to_fetch unfinished_tasks].
    destruct (unfinished_tasks (_to_fetch st)) as [|n] eqn:Hn; [lia |].
    cbn. eexists. split; [reflexivity |]. split; reflexivity.
Qed.

End WorkerClaims.

Lemma every_dequeue_is_acknowledged_witness :
  (exists exit st',
     fetch_iteration Sample.fetch_body Sample.seeded_state
     = Some (exit, st') /\
     n_get (_to_fetch st') = 1 /\ n_done (_to_fetch st') = 1) /\
  (exists st',
     Sample._fetch 1 Sample.stopping_state = Some (Break, st') /\
     items (_to_fetch st') = [] /\ n_done (_to_fetch st') = 2).
Proof.
  destruct (every_dequeue_is_acknowledged Sample.urlopen
              Sample.zlib_decompress Sample.gzip_read Sample.bytes_decode
              Sample.isdir Sample.urljoin Sample.unescape Sample.ensure_slash)
    as (Hacks & Hbody & _ & _ & _ & _ & _ & Hsentinel).
  split.
  - assert (E : exists exit st',
               fetch_iteration Sample.fetch_body Sample.seeded_state
               = Some (exit, st'))
      by (vm_compute; eexists _, _; reflexivity).
    destruct E as (exit & st' & E). exists exit, st'.
    split; [exact E |].
    apply (Hacks Sample.fetch_body Sample.seeded_state exit st' Hbody);
      [unfold queue_counted; simpl; lia | exact E].
  - apply (Hsentinel 0 Sample.stopping_state []);
      [reflexivity | unfold queue_counted; simpl; lia].
Defined.

(** ** The aggregating locator and the version resolver *)

(** C8 (X10).  In first-hit mode the aggregating locator returns the mapping
    of the first locator whose mapping is not empty, as it is, and calls
    no locator after it (it returns the empty mapping after calling them
    all when none has anything).  In merge mode it calls every locator
    and returns the union of their mappings, where the entry for a
    version is that of the last locator that has the version. *)
Theorem aggregating_first_hit_and_merge (Dist : Type) :
  (forall (pre post : list (locator Dist)) l name,
     Forall (fun l' => l' name = ∅) pre -> l name <> ∅ ->
     aggregating_get_project Dist (pre ++ l :: post) false name =
     (l name, seq 0 (List.length pre + 1))) /\
  (forall (ls : list (locator Dist)) name,
     Forall (fun l => l name = ∅) ls ->
     aggregating_get_project Dist ls false name =
     (∅, seq 0 (List.length ls))) /\
  (forall (ls : list (locator Dist)) name,
     snd (aggregating_get_project Dist ls true name) =
     seq 0 (List.length ls) /\
     (forall k,
        fst (aggregating_get_project Dist ls true name) !! k =
        lookup_latest ls name k) /\
     (forall k,
        is_Some (fst (aggregating_get_project Dist ls true name) !! k) <->
        exists l, l ∈ ls /\ is_Some (l name !! k))).
Proof.
  unfold aggregating_get_project. split; [| split].
  - intros pre post l name Hpre Hl.
    exact (aggregating_loop_first_hit pre l post name 0 ∅ [] Hpre Hl).
  - intros ls name Hls.
    exact (aggregating_loop_all_empty ls false name 0 ∅ [] Hls).
  - intros ls name. rewrite aggregating_loop_merge. cbn [fst snd].
    assert (Hk : forall k,
               fold_left (fun acc l => l name ∪ acc) ls ∅ !! k =
               lookup_latest ls name k).
    { intros k. pose proof (merged_lookup ls name ∅ k) as H.
      rewrite lookup_empty in H.
      destruct (lookup_latest ls name k); exact H. }
    split; [reflexivity |]. split; [exact Hk |].
    intros k. rewrite Hk. apply lookup_latest_is_Some.
Qed.

Lemma aggregating_first_hit_and_merge_witness :
  aggregating_get_project string
    [SampleLocators.empty_index; SampleLocators.main_index;
     SampleLocators.mirror] false "foo"
  = (SampleLocators.main_index "foo", [0; 1]).
Proof.
  apply (proj1 (aggregating_first_hit_and_merge string)
           [SampleLocators.empty_index] [SampleLocators.mirror]
           SampleLocators.main_index "foo").
  - repeat constructor.
  - intros H. apply (f_equal (fun m => m !! "1.0")) in H. discriminate H.
Defined.

Section LocateClaims.

Context {Dist : Type}.
Variable parse_predicate : string -> VersionPredicate.
Variable key : Type.
Variable legacy_version_key : string -> key.
Variable key_lt : key -> key -> bool.
Variable scraping_get_project : locator Dist.

Local Abbreviation locate' :=
  (locate Dist parse_predicate key legacy_version_key key_lt
     scraping_get_project).

(** C7 (X9).  Let the comparison of the legacy keys be asymmetric, with a
    transitive "not after".  [locate] asks the default locator, which
    aggregates the scraping locator alone, for the versions of the
    project named by the predicate.  A version on which matching fails
    is passed over like one that does not match; nothing is raised.
    The result is the record of a matching version that no matching
    version comes after in the order of the keys; it is none exactly
    when no version of the project matches, in particular when the
    project has none. *)
Theorem locate_returns_greatest_match predicate :
  (forall a b, key_lt a b = true -> key_lt b a = false) ->
  (forall a b c,
     key_lt b a = false -> key_lt c b = false -> key_lt c a = false) ->
  let vp := parse_predicate predicate in
  let versions := default_locator_get_project Dist scraping_get_project
                    (vp_name vp) in
  versions = scraping_get_project (vp_name vp) /\
  (forall d, locate' predicate = Some d ->
     exists k,
       versions !! k = Some d /\ vp_match vp k = Ok true /\
       forall k', is_Some (versions !! k') -> vp_match vp k' = Ok true ->
                  key_le legacy_version_key key_lt k' k) /\
  (locate' predicate = None <->
   forall k, is_Some (versions !! k) -> vp_match vp k <> Ok true).
Proof.
  intros Hasym Htrans vp versions. subst versions.
  rewrite default_locator_is_scraping. split; [reflexivity |].
  rewrite locate_unfold. cbv zeta. fold vp.
  set (versions := scraping_get_project (vp_name vp)).
  set (slist := matching vp (keys Dist versions)).
  set (cands := if Nat.ltb 1 (List.length slist)
                then sorted key legacy_version_key key_lt slist else slist).
  assert (Hcands : forall k, k ∈ cands <->
                             is_Some (versions !! k) /\ vp_match vp k = Ok true).
  { intros k.
    assert (Hs : k ∈ slist <->
                 is_Some (versions !! k) /\ vp_match vp k = Ok true).
    { unfold slist. split.
      - intros [H1 H2]%elem_of_matching. split; [| exact H2].
        now apply elem_of_keys.
      - intros [H1 H2]. apply elem_of_matching. split; [| exact H2].
        now apply elem_of_keys. }
    unfold cands. destruct (Nat.ltb 1 (List.length slist)); [| exact Hs].
    split.
    - intros H. apply Hs.
      now apply (elem_of_sorted key legacy_version_key key_lt k slist).
    - intros H. apply (elem_of_sorted key legacy_version_key key_lt k slist).
      now apply Hs. }
  assert (Hmax : forall k, last cands = Some k ->
                           forall k', k' ∈ cands ->
                                      key_le legacy_version_key key_lt k' k).
  { intros k Hlast k' Hk'. unfold cands in *.
    destruct (Nat.ltb 1 (List.length slist)) eqn:Hlen.
    - exact (last_is_greatest key legacy_version_key key_lt Hasym _ _
               (sorted_sorted key legacy_version_key key_lt Hasym Htrans _)
               Hlast k' Hk').
    - apply Nat.ltb_ge in Hlen.
      destruct slist as [|k0 [|k1 slist']]; simpl in Hlen; try lia.
      + now apply elem_of_nil in Hk'.
      + injection Hlast as <-. apply list_elem_of_singleton in Hk' as ->.
        now apply key_le_refl. }
  split.
  - intros d Hd. destruct (last cands) as [k|] eqn:Hlast; [| discriminate].
    exists k. split; [exact Hd |].
    pose proof (last_Some_elem_of _ _ Hlast) as Hk.
    apply Hcands in Hk as [_ Hk]. split; [exact Hk |].
    intros k' Hv Hm. apply (Hmax k eq_refl). apply Hcands. now split.
  - destruct (last cands) as [k|] eqn:Hlast.
    + pose proof (last_Some_elem_of _ _ Hlast) as Hk.
      apply Hcands in Hk as [[d Hd] Hk]. rewrite Hd. split; [discriminate |].
      intros H. exfalso. apply (H k); [eauto | exact Hk].
    + split; [| reflexivity]. intros _ k Hv Hm.
      apply last_None in Hlast.
      assert (Hk : k ∈ cands) by (apply Hcands; now split).
      rewrite Hlast in Hk. now apply elem_of_nil in Hk.
Qed.

End LocateClaims.

Lemma locate_returns_greatest_match_witness :
  exists k,
    default_locator_get_project string SampleLocators.scraped "foo" !! k
    = Some "http://main/foo-2.0.tar.gz" /\
    SampleLocators.sample_match k = Ok true /\
    forall k',
      is_Some (default_locator_get_project string SampleLocators.scraped
                 "foo" !! k') ->
      SampleLocators.sample_match k' = Ok true ->
      key_le SampleLocators.legacy_version_key SampleLocators.key_lt k' k.
Proof.
  destruct (locate_returns_greatest_match (Dist := string)
              SampleLocators.parse_predicate nat
              SampleLocators.legacy_version_key SampleLocators.key_lt
              SampleLocators.scraped "foo (>= 1.0, < 3.0)")
    as (_ & H & _).
  - intros a b Hab%Nat.ltb_lt. apply Nat.ltb_ge. lia.
  - intros a b c H1%Nat.ltb_ge H2%Nat.ltb_ge. apply Nat.ltb_ge. lia.
  - apply (H "http://main/foo-2.0.tar.gz"). vm_compute. reflexivity.
Defined.

(** * Further properties *)

(** ** The Python-version tag of a file name *)

Section TagFacts.

(** the leftmost match is the first one that succeeds *)
Lemma search_from_first r w i u v j c :
  (forall pre t, u ++ v = pre ++ t -> String.length pre < String.length u ->
     m r (i + String.length pre) t [] accept = None) ->
  m r (i + String.length u) v [] accept = Some (j, c) ->
  search_from r w i (u ++ v) = Some (MatchObj w (i + String.length u) j c).
Proof.
  revert i. induction u as [|a u IH]; intros i Hnone Hm.
  - simpl in *. rewrite Nat.add_0_r in Hm |- *.
    destruct v; simpl; now rewrite Hm.
  - pose proof (Hnone "" (String a u ++ v) eq_refl) as H0.
    simpl in H0, Hm |- *. rewrite Nat.add_0_r in H0. rewrite H0 by lia.
    replace (i + S (String.length u)) with (S i + String.length u)
      in Hm |- * by lia.
    apply IH; [| exact Hm].
    intros pre t Hs Hlen.
    specialize (Hnone (String a pre) t). simpl in Hnone.
    replace (i + S (String.length pre)) with (S i + String.length pre)
      in Hnone by lia.
    apply Hnone; [now rewrite Hs | lia].
Qed.

Lemma python_tag_no_dash tag : python_tag tag = true -> contains "-" tag = false.
Proof.
  assert (Hdot : forall a, chr "." a || digit a = true ->
                           Ascii.eqb a "-" = false).
  { intros a [->%chr_eq | H]%orb_prop; [reflexivity | now apply digit_not_dash]. }
  destruct tag as [|d [|a [|b [|x tag]]]]; cbn [python_tag contains];
    try discriminate.
  - intros [Hd _]%andb_prop. now rewrite (digit_not_dash _ Hd).
  - intros [Hd Ha]%andb_prop. now rewrite (digit_not_dash _ Hd), (Hdot _ Ha).
  - intros [Hd [Ha Hb]%andb_prop]%andb_prop. apply chr_eq in Ha. subst a.
    now rewrite (digit_not_dash _ Hd), (digit_not_dash _ Hb).
  - now rewrite andb_false_r.
Qed.

(** the pattern on [-py], a tag and at most a final newline *)
Lemma pyver_match_tag i tag nl :
  python_tag tag = true -> nl = "" \/ nl = newline ->
  m PYTHON_VERSION i ("-py" ++ tag ++ nl) [] accept =
  Some (i + 3 + String.length tag, [(1, (i + 3, i + 3 + String.length tag))]).
Proof.
  intros Htag Hnl. unfold PYTHON_VERSION.
  destruct tag as [|d [|a [|b [|x tag]]]]; cbn [python_tag] in Htag;
    try discriminate.
  - apply andb_prop in Htag as [Hd _].
    destruct Hnl as [-> | ->]; cbn; rewrite Hd; cbn; unfold accept;
      repeat f_equal; lia.
  - apply andb_prop in Htag as [Hd Ha].
    destruct Hnl as [-> | ->]; cbn; rewrite Hd; cbn;
      (destruct (chr "." a); [| simpl in Ha; rewrite Ha]); unfold accept;
      repeat f_equal; lia.
  - apply andb_prop in Htag as [Hd [Ha Hb]%andb_prop].
    apply chr_eq in Ha. subst a.
    destruct Hnl as [-> | ->]; cbn; rewrite Hd; cbn; rewrite Hb; cbn;
      unfold accept; repeat f_equal; lia.
  - rewrite andb_false_r in Htag. discriminate.
Qed.

(** the tag is found at the end of the stem and nowhere before *)
Lemma strip_python_version_tag stem tag :
  python_tag tag = true ->
  strip_python_version (stem ++ "-py" ++ tag) = (Some tag, stem).
Proof.
  intros Htag. unfold strip_python_version, re_search.
  rewrite (search_from_first PYTHON_VERSION _ 0 stem ("-py" ++ tag)
             (String.length stem + 3 + String.length tag)
             [(1, (String.length stem + 3,
                   String.length stem + 3 + String.length tag))]).
  - cbn [m_start Nat.add]. rewrite take_app. f_equal. f_equal.
    unfold group_str, group. cbn [m_caps subject lookup_cap Nat.eqb].
    replace (String.length stem + 3 + String.length tag -
             (String.length stem + 3)) with (String.length tag) by lia.
    pose proof (substring_app (stem ++ "-py") tag "") as H.
    rewrite length_app, app_empty_r, app_assoc' in H. exact H.
  - intros pre t Hs Hlen.
    destruct (m PYTHON_VERSION _ t [] accept) eqn:E; [exfalso | reflexivity].
    apply pyver_some in E as (t' & -> & Ht').
    assert (Hle : String.length pre <= String.length stem) by lia.
    symmetry in Hs.
    destruct (app_eq_app _ _ _ _ Hs Hle) as (y & -> & Hy).
    rewrite length_app in Hlen.
    destruct y as [|y0 [|y1 y]]; simpl in Hlen, Hy; [lia | discriminate |].
    injection Hy as _ _ Hy. rewrite Hy, contains_app in Ht'.
    simpl in Ht'. rewrite orb_true_r in Ht'. discriminate.
  - cbn [Nat.add].
    pose proof (pyver_match_tag (String.length stem) tag "" Htag
                  (or_introl eq_refl)) as H.
    rewrite app_empty_r in H. exact H.
Qed.

(** a match of [PYTHON_VERSION] reads [-py], a tag, and at most the final
    newline *)
Lemma pyver_match_inv i t r :
  m PYTHON_VERSION i t [] accept = Some r ->
  exists tag nl,
    t = "-py" ++ tag ++ nl /\ python_tag tag = true /\
    (nl = "" \/ nl = newline) /\
    r = (i + 3 + String.length tag,
         [(1, (i + 3, i + 3 + String.length tag))]).
Proof.
  assert (Heos : forall s, at_eos s = true -> s = "" \/ s = newline).
  { intros [|a [|b s]]; simpl; try discriminate; [now left |].
    intros ->%Ascii.eqb_eq. now right. }
  unfold PYTHON_VERSION. cbn [lit]. intros H.
  repeat m_inv H;
    repeat match goal with
           | Hc : chr _ _ = true |- _ => apply chr_eq in Hc; subst
           | He : at_eos _ = true |- _ => apply Heos in He
           end;
    unfold accept in H; injection H as <-.
  all: match goal with
       | Hnl : ?s = "" \/ _
         |- exists tag nl, String _ (String _ (String _ ?rest)) = _ /\ _ =>
           match rest with
           | String ?x (String ?y (String ?z s)) =>
               exists (String x (String y (String z ""))), s
           | String ?x (String ?y s) => exists (String x (String y "")), s
           | String ?x s => exists (String x ""), s
           end
       end;
    (split; [reflexivity |]);
    (split;
     [ cbn [python_tag];
       repeat match goal with
              | Hd : digit _ = true |- _ => rewrite Hd; clear Hd
              end;
       rewrite ?orb_true_r; reflexivity |]);
    (split; [assumption |]); simpl; repeat f_equal; lia.
Qed.

(** what [strip_python_version] returns was at the end of the path *)
Lemma strip_python_version_some path v stem :
  strip_python_version path = (Some v, stem) ->
  python_tag v = true /\
  (path = stem ++ "-py" ++ v \/ path = stem ++ "-py" ++ v ++ newline).
Proof.
  unfold strip_python_version, re_search.
  destruct (search_from PYTHON_VERSION path 0 path) as [mo|] eqn:E;
    [| discriminate].
  intros [= <- <-].
  pose proof E as E'.
  apply search_from_some in E' as (pre & t & res & Hs & Hm & Hst & Hw).
  apply pyver_match_inv in Hm as (tag & nl & -> & Htag & Hnl & ->).
  simpl in Hst.
  assert (Hmo : mo = MatchObj path (String.length pre)
                       (String.length pre + 3 + String.length tag)
                       [(1, (String.length pre + 3,
                             String.length pre + 3 + String.length tag))]).
  { rewrite Hs in E at 2.
    rewrite (search_from_first PYTHON_VERSION path 0 pre ("-py" ++ tag ++ nl)
               (String.length pre + 3 + String.length tag)
               [(1, (String.length pre + 3,
                     String.length pre + 3 + String.length tag))]) in E.
    - now injection E as <-.
    - intros pre' t' Hs' Hlen.
      destruct (m PYTHON_VERSION _ t' [] accept) eqn:E1; [exfalso | reflexivity].
      apply pyver_some in E1 as (t'' & -> & Ht'').
      assert (Hle : String.length pre' <= String.length pre) by lia.
      symmetry in Hs'.
      destruct (app_eq_app _ _ _ _ Hs' Hle) as (y & -> & Hy).
      rewrite length_app in Hlen.
      destruct y as [|y0 [|y1 y]]; simpl in Hlen, Hy; [lia | discriminate |].
      injection Hy as _ _ Hy. rewrite Hy, contains_app in Ht''.
      simpl in Ht''. rewrite orb_true_r in Ht''. discriminate.
    - cbn [Nat.add]. exact (pyver_match_tag _ tag nl Htag Hnl). }
  subst mo. cbn [m_start].
  unfold group_str, group. cbn [m_caps subject lookup_cap Nat.eqb].
  replace (String.length pre + 3 + String.length tag -
           (String.length pre + 3)) with (String.length tag) by lia.
  assert (Hsub : String.substring (String.length pre + 3) (String.length tag)
                   path = tag).
  { pose proof (substring_app (pre ++ "-py") tag nl) as H.
    rewrite length_app, app_assoc' in H. rewrite Hs. exact H. }
  rewrite Hsub. split; [exact Htag |].
  clear E Hw Hst Hsub. subst path. rewrite take_app.
  destruct Hnl as [-> | ->]; [left | right]; rewrite ?app_empty_r; reflexivity.
Qed.

End TagFacts.

(** ** What a download info says about its URL *)

Section InfoFacts.

Lemma ext_loop_some_in exts u pn fn info records :
  ext_loop exts u pn fn = (Some info, records) ->
  exists ext,
    In ext exts /\ ext <> ".egg" /\ endswith fn ext = true /\
    parse_filename u pn fn ext = (Some info, records).
Proof.
  induction exts as [|ext exts IH]; [discriminate |].
  rewrite ext_loop_cons.
  destruct (String.eqb_spec ext ".egg") as [-> | Hne].
  - intros (e & He & H)%IH. exists e. split; [now right | exact H].
  - destruct (endswith fn ext) eqn:Hends.
    + intros H. exists ext. repeat split; auto. now left.
    + intros (e & He & H)%IH. exists e. split; [now right | exact H].
Qed.

Lemma archive_extensions_not_egg ext :
  In ext EXTENSIONS -> ext <> ".egg" -> In ext archive_extensions.
Proof.
  simpl. intros [<- | [<- | [<- | [<- | [<- | [<- | []]]]]]] Hne; auto 10;
    now destruct Hne.
Qed.

Lemma strip_python_version_fst path v :
  fst (strip_python_version path) = Some v ->
  python_tag v = true /\
  (path = snd (strip_python_version path) ++ "-py" ++ v \/
   path = snd (strip_python_version path) ++ "-py" ++ v ++ newline).
Proof.
  destruct (strip_python_version path) as [pyver stem] eqn:E. simpl.
  intros ->. now apply strip_python_version_some.
Qed.

End InfoFacts.

(** X11.  Whatever URL it is given, a download info that
    [convert_url_to_download_info] returns is built from the parsed
    URL: the path ends in one of the five archive extensions; the file
    name is the last segment of the path; the URL is what [urlunparse]
    makes of the parsed URL with its fragment replaced by the empty
    string, and it parses back with an empty fragment; the name is the
    expected one up to case when one is expected; the stem of the file
    name (the name without extension and Python tag) is the name, a
    dash, the version and a rest that does not continue the version;
    and a Python version is present only when the file name without
    its extension is the stem followed by [-py] and a tag (a digit, an
    optional dot and an optional digit), with nothing behind the tag
    but, possibly, one newline.  No record is logged on that path. *)
Theorem download_info_sound url pn info records :
  convert_url_to_download_info_log url pn = (Some info, records) ->
  let u := urlparse url in
  let fn := basename (UrlLib.path u) in
  records = [] /\
  di_filename info = fn /\
  di_url info = urlunparse (without_fragment u) /\
  fragment (urlparse (di_url info)) = "" /\
  expected_name pn (di_name info) /\
  exists ext,
    In ext archive_extensions /\ endswith (UrlLib.path u) ext = true /\
    (exists rest,
       name_version_split (filename_stem fn ext) (di_name info)
         (di_version info) rest) /\
    (forall v, di_python_version info = Some v ->
       python_tag v = true /\
       (drop_last (String.length ext) fn = filename_stem fn ext ++ "-py" ++ v \/
        drop_last (String.length ext) fn =
        filename_stem fn ext ++ "-py" ++ v ++ newline)).
Proof.
  intros H u fn. unfold convert_url_to_download_info_log in H. fold u fn in H.
  destruct (endswith_any (UrlLib.path u) EXTENSIONS); [| discriminate].
  apply ext_loop_some_in in H as (ext & Hin & Hne & Hends & Hp).
  rewrite parse_filename_unfold in Hp. cbv zeta in Hp.
  destruct (re_match PROJECT_NAME_AND_VERSION (filename_stem fn ext))
    as [mo|] eqn:E; [| discriminate].
  destruct (not_project_name pn ||
            String.eqb (project_name_lower pn) (lower (group_str mo 1)))
    eqn:Hexp; [| discriminate].
  injection Hp as <- <-.
  cbn [di_filename di_url di_name di_version di_python_version].
  split; [reflexivity |]. split; [reflexivity |]. split; [reflexivity |].
  split; [apply without_fragment_roundtrip |].
  split.
  { apply orb_prop in Hexp as [Hexp | Hexp%String.eqb_eq];
      [now left | now right]. }
  exists ext.
  split; [now apply archive_extensions_not_egg |].
  split; [now apply endswith_basename |].
  split.
  - destruct (pnv_match_some _ _ E) as (name & version & rest & Hsplit & -> & -> & _).
    now exists rest.
  - intros v Hv. unfold filename_stem.
    apply strip_python_version_fst.
    destruct (fst (strip_python_version _)) as [v' |]; [| discriminate].
    destruct (truthy v'); [exact Hv | discriminate].
Qed.

Lemma download_info_sound_witness :
  exists info,
    convert_url_to_download_info_log
      "http://host/pkgs/Foo-1.0-py2.7.tar.gz#md5=0123abcd" (Some "foo")
    = (Some info, []) /\
    di_filename info = "Foo-1.0-py2.7.tar.gz" /\
    di_url info = "http://host/pkgs/Foo-1.0-py2.7.tar.gz" /\
    expected_name (Some "foo") (di_name info) /\
    di_python_version info = Some "2.7".
Proof.
  eexists. split; [vm_compute; reflexivity |].
  destruct (download_info_sound
              "http://host/pkgs/Foo-1.0-py2.7.tar.gz#md5=0123abcd"
              (Some "foo") _ [] eq_refl)
    as (_ & Hfn & Hurl & _ & Hname & _).
  split; [exact Hfn |]. split; [exact Hurl |]. split; [exact Hname |].
  reflexivity.
Defined.

(** X12.  A file name [name-version-pyTAG] followed by one of the five
    archive extensions, where [TAG] is a digit, an optional dot and an
    optional digit, gives a download info with that name, that version
    and the Python version [TAG]; the tag is not taken into the
    version. *)
Theorem python_tagged_archive_download_info url pn name version tag ext :
  In ext archive_extensions ->
  basename (UrlLib.path (urlparse url)) =
  name ++ "-" ++ version ++ "-py" ++ tag ++ ext ->
  name <> "" -> all_chars name_char name = true ->
  starts_with digit version = true ->
  all_chars version_char version = true ->
  has_dash_digit version = false ->
  python_tag tag = true ->
  expected_name pn name ->
  exists info,
    convert_url_to_download_info url pn = Some info /\
    di_name info = name /\ di_version info = version /\
    di_python_version info = Some tag.
Proof.
  intros Hin Hfn Hne Hname Hd Hver Hdd Htag Hexp.
  assert (Hfn' : basename (UrlLib.path (urlparse url)) =
                 ((name ++ "-" ++ version) ++ "-py" ++ tag) ++ ext)
    by (rewrite Hfn, !app_assoc'; reflexivity).
  assert (Hpath : endswith (UrlLib.path (urlparse url)) ext = true).
  { apply endswith_basename. rewrite Hfn'. apply endswith_app. }
  unfold convert_url_to_download_info.
  rewrite (convert_archive url pn ext Hin Hpath), parse_filename_unfold.
  cbv zeta. unfold filename_stem. rewrite Hfn', drop_last_app.
  rewrite (strip_python_version_tag _ tag Htag). cbn [fst snd].
  destruct (pnv_match_exact name version Hne Hname Hd Hver Hdd)
    as (mo & -> & -> & ->).
  assert (Hok : not_project_name pn ||
                String.eqb (project_name_lower pn) (lower name) = true).
  { destruct Hexp as [-> | ->]; [reflexivity |].
    rewrite String.eqb_refl. apply orb_true_r. }
  rewrite Hok. eexists. split; [reflexivity |].
  cbn [fst di_name di_version di_python_version].
  repeat split. destruct tag; [discriminate | reflexivity].
Qed.

Lemma python_tagged_archive_download_info_witness :
  exists info,
    convert_url_to_download_info "http://host/pkgs/Foo_bar-1.0.2-py27.zip"
      (Some "foo_bar") = Some info /\
    di_name info = "Foo_bar" /\ di_version info = "1.0.2" /\
    di_python_version info = Some "27".
Proof.
  apply (python_tagged_archive_download_info _ (Some "foo_bar") "Foo_bar"
           "1.0.2" "27" ".zip").
  - simpl. auto.
  - reflexivity.
  - discriminate.
  - reflexivity.
  - reflexivity.
  - reflexivity.
  - reflexivity.
  - reflexivity.
  - right. reflexivity.
Defined.

(** ** The patterns of the fetch layer *)

Section LiteralFacts.

(** a literal matches exactly when the subject starts with it *)
Lemma m_lit w i s c k :
  m (lit w) i s c k =
  if startswith s w
  then k (i + String.length w) (drop (String.length w) s) c
  else None.
Proof.
  unfold startswith. revert i s.
  induction w as [|a w IH]; intros i s.
  - destruct s; simpl; now rewrite Nat.add_0_r.
  - assert (Hcls : forall k',
               m (Cls (chr a)) i s c k' =
               match s with
               | String b s' => if Ascii.eqb b a then k' (S i) s' c else None
               | EmptyString => None
               end) by reflexivity.
    assert (Hgoal : match s with
                    | String b s' =>
                        if Ascii.eqb b a then m (lit w) (S i) s' c k else None
                    | EmptyString => None
                    end =
                    if String.prefix (String a w) s
                    then k (i + String.length (String a w))
                           (drop (String.length (String a w)) s) c
                    else None).
    { destruct s as [|b s']; [reflexivity |].
      cbn [String.prefix String.length drop].
      destruct (Ascii.eqb_spec b a) as [-> | Hne].
      - destruct (ascii_dec a a) as [_ | Hn]; [| now destruct Hn].
        rewrite IH. now replace (i + S (String.length w))
                          with (S i + String.length w) by lia.
      - destruct (ascii_dec a b) as [-> | _]; [now destruct Hne | reflexivity]. }
    destruct w as [|a' w'].
    + cbn [lit]. rewrite Hcls, <- Hgoal.
      destruct s as [|b s']; [reflexivity |]. now destruct (Ascii.eqb b a).
    + change (lit (String a (String a' w')))
        with (Cat (Cls (chr a)) (lit (String a' w'))).
      rewrite m_cat, Hcls. exact Hgoal.
Qed.

End LiteralFacts.

(** X13.  [HTML_CONTENT_TYPE.match] is a test on the start of the content
    type, with the case as written: the content type is taken for HTML
    exactly when it starts with [text/html] or with [application/xhtml];
    what follows, a charset parameter for one, does not matter. *)
Theorem html_content_type_by_prefix ct :
  is_match HTML_CONTENT_TYPE ct =
  startswith ct "text/html" || startswith ct "application/xhtml".
Proof.
  unfold is_match, re_match, HTML_CONTENT_TYPE.
  change (m (Or (lit "text/html") (lit "application/xhtml")) 0 ct [] accept)
    with (match m (lit "text/html") 0 ct [] accept with
          | Some x => Some x
          | None => m (lit "application/xhtml") 0 ct [] accept
          end).
  rewrite !m_lit. unfold accept.
  destruct (startswith ct "text/html"); [reflexivity |].
  now destruct (startswith ct "application/xhtml").
Qed.

Section CharsetFacts.

(** a greedy run that is followed by a match takes all of the run *)
Lemma star_m_run p i u v c k r :
  all_chars p u = true -> starts_with p v = false ->
  k (i + String.length u) v c = Some r ->
  star_m p i (u ++ v) c k = Some r.
Proof.
  intros Hu Hv. revert i. induction u as [|a u IH]; intros i Hk.
  - simpl in *. rewrite Nat.add_0_r in Hk.
    destruct v as [|b v]; [exact Hk |]. simpl in *. now rewrite Hv.
  - simpl in Hu. apply andb_prop in Hu as [Ha Hu].
    cbn [String.append star_m]. rewrite Ha.
    rewrite (IH Hu (S i)); [reflexivity |].
    now replace (S i + String.length u)
      with (i + String.length (String a u)) by (simpl; lia).
Qed.

Lemma star_m_all p i u c k r :
  all_chars p u = true ->
  k (i + String.length u) "" c = Some r ->
  star_m p i u c k = Some r.
Proof.
  intros Hu Hk. rewrite <- (app_empty_r u) at 1.
  now apply star_m_run.
Qed.

Lemma lower_length s : String.length (lower s) = String.length s.
Proof. induction s as [|a s IH]; simpl; [reflexivity | now rewrite IH]. Qed.

(** a literal under [re.I] matches what equals it up to case *)
Lemma m_lit_i w kw i rest c k :
  lower kw = lower w ->
  m (lit_i w) i (kw ++ rest) c k = k (i + String.length w) rest c.
Proof.
  revert kw i. induction w as [|a w IH]; intros kw i Hl.
  - destruct kw; [| discriminate]. simpl. now rewrite Nat.add_0_r.
  - destruct kw as [|b kw]; [discriminate |].
    simpl in Hl. injection Hl as Hb Hl.
    assert (Hcls : forall k',
               m (Cls (chr_i a)) i (String b kw ++ rest) c k' =
               k' (S i) (kw ++ rest) c).
    { intros k'. cbn [String.append m]. unfold chr_i.
      now rewrite Hb, Ascii.eqb_refl. }
    replace (i + String.length (String a w))
      with (S i + String.length w) by (simpl; lia).
    destruct w as [|a' w'].
    + destruct kw; [| discriminate].
      cbn [lit_i]. rewrite Hcls. simpl. now rewrite Nat.add_0_r.
    + change (lit_i (String a (String a' w')))
        with (Cat (Cls (chr_i a)) (lit_i (String a' w'))).
      rewrite m_cat, Hcls. now apply IH.
Qed.

Lemma m_chr_lit a i s c k : m (Cls (chr a)) i (String a s) c k = k (S i) s c.
Proof. cbn [m]. unfold chr. now rewrite Ascii.eqb_refl. Qed.

Lemma charset_needs_semicolon i s c k :
  starts_with (chr ";") s = false -> m CHARSET i s c k = None.
Proof.
  intros H. unfold CHARSET. rewrite !m_cat.
  cbn [lit m]. destruct s as [|a s]; [reflexivity |].
  simpl in H. now rewrite H.
Qed.

Lemma lower_c_not_space a : lower_char a = "c"%char -> space a = false.
Proof.
  destruct a as [[] [] [] [] [] [] [] []]; try discriminate; reflexivity.
Qed.

(** [CHARSET] on a charset parameter that runs to the end of the
    content type *)
Lemma charset_match i w1 kw w2 w3 enc :
  all_chars space w1 = true -> all_chars space w2 = true ->
  all_chars space w3 = true -> lower kw = "charset" ->
  all_chars dot enc = true -> starts_with space enc = false ->
  let j := i + 1 + String.length w1 + 7 + String.length w2 + 1 +
           String.length w3 in
  m CHARSET i (";" ++ w1 ++ kw ++ w2 ++ "=" ++ w3 ++ enc) [] accept =
  Some (j + String.length enc, [(1, (j, j + String.length enc))]).
Proof.
  intros H1 H2 H3 Hkw Henc Hsp j.
  assert (Hkw0 : starts_with space (kw ++ w2 ++ "=" ++ w3 ++ enc) = false).
  { destruct kw as [|a kw]; [discriminate |].
    simpl in Hkw. injection Hkw as Ha _. simpl. now apply lower_c_not_space. }
  unfold CHARSET. rewrite !m_cat.
  change (lit ";") with (Cls (chr ";")). change (lit "=") with (Cls (chr "=")).
  change (";" ++ w1 ++ kw ++ w2 ++ "=" ++ w3 ++ enc)
    with (String ";" (w1 ++ kw ++ w2 ++ "=" ++ w3 ++ enc)).
  rewrite m_chr_lit, m_star. apply star_m_run; [exact H1 | exact Hkw0 |].
  rewrite (m_lit_i "charset" kw) by exact Hkw.
  rewrite m_star. apply star_m_run; [exact H2 | reflexivity |].
  change ("=" ++ w3 ++ enc) with (String "=" (w3 ++ enc)).
  rewrite m_chr_lit, m_star. apply star_m_run; [exact H3 | exact Hsp |].
  rewrite m_group, m_star. apply star_m_all; [exact Henc |].
  rewrite m_star. cbn [star_m m at_eos]. unfold accept. subst j.
  cbn [String.length]. repeat f_equal; lia.
Qed.

End CharsetFacts.

(** X14.  The encoding that [get_page] decodes a page with.  A content type
    without semicolon gives UTF-8.  A content type whose first semicolon
    starts a [charset] parameter (in any case, with optional white space
    around the name and the equals sign) that runs to the end gives all
    that follows the equals sign and its white space, as it is: quotes
    and trailing blanks are part of the encoding name. *)
Theorem charset_of_content_type :
  (forall ct, contains ";" ct = false -> charset_of ct = "utf-8") /\
  (forall t w1 kw w2 w3 enc,
     contains ";" t = false ->
     all_chars space w1 = true -> all_chars space w2 = true ->
     all_chars space w3 = true -> lower kw = "charset" ->
     all_chars dot enc = true -> starts_with space enc = false ->
     charset_of (t ++ ";" ++ w1 ++ kw ++ w2 ++ "=" ++ w3 ++ enc) = enc).
Proof.
  assert (Hfail : forall t v pre t' i,
             contains ";" t = false -> t ++ v = pre ++ t' ->
             String.length pre < String.length t ->
             m CHARSET i t' [] accept = None).
  { intros t v pre t' i Ht Hs Hlen. apply charset_needs_semicolon.
    assert (Hle : String.length pre <= String.length t) by lia.
    symmetry in Hs.
    destruct (app_eq_app _ _ _ _ Hs Hle) as (y & -> & ->).
    rewrite length_app in Hlen.
    destruct y as [|b y]; [simpl in Hlen; lia |].
    rewrite contains_app in Ht. apply orb_false_elim in Ht as [_ Ht].
    simpl in Ht |- *. apply orb_false_elim in Ht as [Hb _]. exact Hb. }
  split.
  - intros ct Hct. unfold charset_of, re_search.
    rewrite search_from_none; [reflexivity |].
    intros pre t Hs. apply charset_needs_semicolon.
    rewrite Hs, contains_app in Hct. apply orb_false_elim in Hct as [_ Ht].
    destruct t as [|b t]; [reflexivity |].
    simpl in Ht |- *. now apply orb_false_elim in Ht as [Hb _].
  - intros t w1 kw w2 w3 enc Ht H1 H2 H3 Hkw Henc Hsp.
    unfold charset_of, re_search.
    set (v := ";" ++ w1 ++ kw ++ w2 ++ "=" ++ w3 ++ enc).
    pose proof (charset_match (String.length t) w1 kw w2 w3 enc
                  H1 H2 H3 Hkw Henc Hsp) as Hm.
    cbv zeta in Hm. fold v in Hm.
    rewrite (search_from_first CHARSET (t ++ v) 0 t v _ _
               (fun pre t' Hs Hlen => Hfail t v pre t' _ Ht Hs Hlen) Hm).
    unfold group_str, group. cbn [m_caps subject lookup_cap Nat.eqb].
    match goal with
    | |- context [String.substring ?a (?b - ?a') _] =>
        replace (b - a') with (String.length enc) by lia
    end.
    assert (Hlen : String.length (t ++ ";" ++ w1 ++ kw ++ w2 ++ "=" ++ w3) =
                   String.length t + 1 + String.length w1 + 7 +
                   String.length w2 + 1 + String.length w3).
    { rewrite !length_app. cbn [String.length].
      rewrite <- (lower_length kw), Hkw. simpl. lia. }
    rewrite <- Hlen.
    pose proof (substring_app (t ++ ";" ++ w1 ++ kw ++ w2 ++ "=" ++ w3)
                  enc "") as Hsub.
    rewrite app_empty_r in Hsub. unfold v.
    rewrite !app_assoc' in Hsub. exact Hsub.
Qed.

(** ** [Page] *)

Section PageFacts.

Lemma lower_lt a : lower_char a = "<"%char -> a = "<"%char.
Proof.
  destruct a as [[] [] [] [] [] [] [] []]; try discriminate; reflexivity.
Qed.

Lemma page_base_needs_lt i s c k :
  starts_with (chr "<") s = false -> m Page_base i s c k = None.
Proof.
  intros H. unfold Page_base. rewrite !m_cat.
  change (lit_i "<base")
    with (Cat (Cls (chr_i "<")) (lit_i "base")).
  rewrite m_cat. cbn [m]. destruct s as [|a s]; [reflexivity |].
  simpl in H. unfold chr in H. unfold chr_i.
  change (lower_char "<") with "<"%char.
  destruct (Ascii.eqb_spec (lower_char a) "<") as [Ha |]; [| reflexivity].
  apply lower_lt in Ha. subst a. discriminate H.
Qed.

Lemma no_lt_suffix t v pre t' :
  contains "<" t = false -> t ++ v = pre ++ t' ->
  String.length pre < String.length t ->
  starts_with (chr "<") t' = false.
Proof.
  intros Ht Hs Hlen.
  assert (Hle : String.length pre <= String.length t) by lia.
  symmetry in Hs.
  destruct (app_eq_app _ _ _ _ Hs Hle) as (y & -> & ->).
  rewrite length_app in Hlen.
  destruct y as [|b y]; [simpl in Hlen; lia |].
  rewrite contains_app in Ht. apply orb_false_elim in Ht as [_ Ht].
  simpl in Ht |- *. apply orb_false_elim in Ht as [Hb _]. exact Hb.
Qed.

Lemma match_result_eq (g a a' j j' b b' : nat) (c : captures) :
  a = a' -> j = j' -> b = b' ->
  Some (a, (g, (j, b)) :: c) = Some (a', (g, (j', b')) :: c).
Proof. now intros -> -> ->. Qed.

Lemma m_cls_true p a s i c k :
  p a = true -> m (Cls p) i (String a s) c k = k (S i) s c.
Proof. intros H. cbn [m]. now rewrite H. Qed.

Lemma m_cls_false p a s i c k :
  p a = false -> m (Cls p) i (String a s) c k = None.
Proof. intros H. cbn [m]. now rewrite H. Qed.

Lemma m_maybe r i s c k :
  m (Maybe r) i s c k =
  match m r i s c k with
  | Some x => Some x
  | None => k i s c
  end.
Proof. reflexivity. Qed.

Lemma lower_h_not_space a : lower_char a = "h"%char -> space a = false.
Proof.
  destruct a as [[] [] [] [] [] [] [] []]; try discriminate; reflexivity.
Qed.

Lemma starts_with_app p x y :
  x <> "" -> starts_with p (x ++ y) = starts_with p x.
Proof. destruct x; [now intros H | reflexivity]. Qed.

Lemma base_char_not_quote a : base_char a = true -> quote_char a = false.
Proof.
  unfold base_char, quote_char, non, cup.
  destruct (chr squote a), (chr dquote a); simpl; try discriminate; reflexivity.
Qed.

(** group 1 of [Page._base] takes the longest run of its class *)
Lemma base_group j b rest c :
  b <> "" -> all_chars base_char b = true ->
  starts_with base_char rest = false ->
  m (Group 1 (Plus base_char)) j (b ++ rest) c accept =
  Some (j + String.length b, (1, (j, j + String.length b)) :: c).
Proof.
  intros Hb Hall Hrest. destruct b as [|b0 b]; [now destruct Hb |].
  simpl in Hall. apply andb_prop in Hall as [H0 Hall].
  rewrite m_group. unfold Plus. rewrite m_cat.
  cbn [String.append]. rewrite (m_cls_true _ _ _ _ _ _ H0), m_star.
  apply star_m_run; [exact Hall | exact Hrest |].
  unfold accept. cbn [String.length]. apply match_result_eq; lia.
Qed.

(** [Page._base] on a base tag *)
Lemma page_base_match i kw1 w1 kw2 w2 w3 q b rest :
  lower kw1 = "<base" ->
  w1 <> "" -> all_chars space w1 = true ->
  lower kw2 = "href" ->
  all_chars space w2 = true -> all_chars space w3 = true ->
  starts_with space (q ++ b) = false ->
  q = "" \/ q = String squote "" \/ q = String dquote "" ->
  b <> "" -> all_chars base_char b = true ->
  starts_with base_char rest = false ->
  let j := i + 5 + String.length w1 + 4 + String.length w2 + 1 +
           String.length w3 + String.length q in
  m Page_base i (kw1 ++ w1 ++ kw2 ++ w2 ++ "=" ++ w3 ++ q ++ b ++ rest)
    [] accept =
  Some (j + String.length b, [(1, (j, j + String.length b))]).
Proof.
  intros Hk1 Hw1 H1 Hk2 H2 H3 Hsp Hq Hb Hall Hrest j.
  assert (Hk20 : starts_with space
                   (kw2 ++ w2 ++ "=" ++ w3 ++ q ++ b ++ rest) = false).
  { destruct kw2 as [|a kw2]; [discriminate |].
    simpl in Hk2. injection Hk2 as Ha _. simpl. now apply lower_h_not_space. }
  assert (Hqb : starts_with space (q ++ b ++ rest) = false).
  { rewrite <- app_assoc', starts_with_app; [exact Hsp |].
    destruct q; [simpl; exact Hb | discriminate]. }
  destruct w1 as [|a w1]; [now destruct Hw1 |].
  simpl in H1. apply andb_prop in H1 as [Ha H1].
  unfold Page_base. rewrite !m_cat.
  change (lit "=") with (Cls (chr "=")).
  rewrite (m_lit_i "<base" kw1) by exact Hk1.
  unfold Plus at 1. rewrite m_cat.
  cbn [String.append]. rewrite (m_cls_true _ _ _ _ _ _ Ha), m_star.
  apply star_m_run; [exact H1 | exact Hk20 |].
  rewrite (m_lit_i "href" kw2) by exact Hk2.
  rewrite ?m_star. apply star_m_run; [exact H2 | reflexivity |].
  change ("=" ++ w3 ++ q ++ b ++ rest) with (String "=" (w3 ++ q ++ b ++ rest)).
  rewrite m_chr_lit, ?m_star. apply star_m_run; [exact H3 | exact Hqb |].
  fold quote_char. fold base_char.
  assert (Hgroup : forall j0,
             m (Group 1 (Plus base_char)) j0 (b ++ rest) [] accept =
             Some (j0 + String.length b, [(1, (j0, j0 + String.length b))]))
    by (intros j0; now apply base_group).
  destruct Hq as [-> | [-> | ->]].
  - cbn [String.append String.length].
    rewrite m_maybe.
    destruct b as [|b0 b]; [now destruct Hb |].
    simpl in Hall. apply andb_prop in Hall as [H0 _].
    cbn [String.append].
    rewrite (m_cls_false _ _ _ _ _ _ (base_char_not_quote _ H0)).
    change (String b0 (b ++ rest)) with (String b0 b ++ rest).
    rewrite Hgroup. subst j. cbn [String.length]. apply match_result_eq; lia.
  - cbn [String.append String.length].
    rewrite m_maybe.
    rewrite (m_cls_true quote_char squote) by reflexivity.
    rewrite Hgroup. subst j. cbn [String.length]. apply match_result_eq; lia.
  - cbn [String.append String.length].
    rewrite m_maybe.
    rewrite (m_cls_true quote_char dquote) by reflexivity.
    rewrite Hgroup. subst j. cbn [String.length]. apply match_result_eq; lia.
Qed.

(** a link needs an equals sign *)
Lemma page_href_needs_eq i s c k r :
  m Page_href i s c k = Some r -> contains "=" s = true.
Proof.
  unfold Page_href. rewrite !m_cat.
  change (lit_i "href")
    with (Cat (Cls (chr_i "h"))
            (Cat (Cls (chr_i "r")) (Cat (Cls (chr_i "e")) (Cls (chr_i "f"))))).
  change (lit "=") with (Cls (chr "=")).
  intros H. repeat m_inv H.
  rewrite m_star in H.
  apply star_m_some in H as (u & v & -> & _ & H & _).
  m_inv H.
  match goal with
  | Hc : chr "=" _ = true |- _ => apply chr_eq in Hc; subst
  end.
  cbn [contains]. rewrite contains_app. cbn [contains].
  rewrite Ascii.eqb_refl. cbn. now rewrite !orb_true_r.
Qed.







End PageFacts.

Section PageTheorems.

Variable urljoin : string -> option string -> string.
Variable unescape : string -> string.

(** X15.  What a new page takes for its base URL.  Text without [<] has no
    base tag: the base URL is the URL of the page.  When the first [<]
    of the text opens a base tag (in any case, with white space before
    [href] and optionally around the equals sign, the value quoted or
    not), the base URL is the value of [href]: the characters up to the
    next quote or [>], taken as they are and not resolved against the
    URL of the page.  The URL of the page is kept in both cases. *)
Theorem page_base_url_from_tag :
  (forall data url,
     contains "<" data = false ->
     new_Page data url = mkPage data url url) /\
  (forall pre kw1 w1 kw2 w2 w3 q b rest url,
     contains "<" pre = false ->
     lower kw1 = "<base" ->
     w1 <> "" -> all_chars space w1 = true ->
     lower kw2 = "href" ->
     all_chars space w2 = true -> all_chars space w3 = true ->
     starts_with space (q ++ b) = false ->
     q = "" \/ q = String squote "" \/ q = String dquote "" ->
     b <> "" -> all_chars base_char b = true ->
     starts_with base_char rest = false ->
     let data :=
       pre ++ kw1 ++ w1 ++ kw2 ++ w2 ++ "=" ++ w3 ++ q ++ b ++ rest in
     new_Page data url = mkPage data url b).
Proof.
  split.
  - intros data url Hd. unfold new_Page, re_search.
    rewrite search_from_none; [reflexivity |].
    intros pre t Hs. apply page_base_needs_lt.
    rewrite Hs, contains_app in Hd. apply orb_false_elim in Hd as [_ Ht].
    destruct t as [|a t]; [reflexivity |].
    simpl in Ht |- *. now apply orb_false_elim in Ht as [Ha _].
  - intros pre kw1 w1 kw2 w2 w3 q b rest url
      Hpre Hk1 Hw1 H1 Hk2 H2 H3 Hsp Hq Hb Hall Hrest data.
    unfold new_Page, re_search. f_equal.
    set (v := kw1 ++ w1 ++ kw2 ++ w2 ++ "=" ++ w3 ++ q ++ b ++ rest).
    pose proof (page_base_match (String.length pre) kw1 w1 kw2 w2 w3 q b rest
                  Hk1 Hw1 H1 Hk2 H2 H3 Hsp Hq Hb Hall Hrest) as Hm.
    cbv zeta in Hm. fold v in Hm. subst data. fold v.
    rewrite (search_from_first Page_base (pre ++ v) 0 pre v _ _
               (fun p t' Hs Hlen =>
                  page_base_needs_lt _ t' [] accept
                    (no_lt_suffix pre v p t' Hpre Hs Hlen)) Hm).
    unfold group_str, group. cbn [m_caps subject lookup_cap Nat.eqb].
    match goal with
    | |- context [String.substring ?a (?b0 - ?a') _] =>
        replace (b0 - a') with (String.length b) by lia
    end.
    assert (Hlen : String.length
                     (pre ++ kw1 ++ w1 ++ kw2 ++ w2 ++ "=" ++ w3 ++ q) =
                   String.length pre + 5 + String.length w1 + 4 +
                   String.length w2 + 1 + String.length w3 + String.length q).
    { rewrite !length_app. cbn [String.length].
      rewrite <- (lower_length kw1), Hk1, <- (lower_length kw2), Hk2.
      simpl. lia. }
    rewrite <- Hlen.
    pose proof (substring_app
                  (pre ++ kw1 ++ w1 ++ kw2 ++ w2 ++ "=" ++ w3 ++ q) b rest)
      as Hsub.
    unfold v. rewrite !app_assoc' in Hsub. exact Hsub.
Qed.

(** X16.  A page whose text holds no equals sign has no links. *)
Theorem page_without_equals_has_no_links p :
  contains "=" (page_data p) = false -> links urljoin unescape p = ∅.
Proof.
  intros Hd. unfold links, finditer. cbn [finditer_from drop].
  rewrite search_from_none; [reflexivity |].
  intros pre t Hs.
  destruct (m Page_href _ t [] accept) eqn:E; [exfalso | reflexivity].
  apply page_href_needs_eq in E.
  rewrite Hs, contains_app, E, orb_true_r in Hd. discriminate.
Qed.


End PageTheorems.

Lemma page_without_equals_has_no_links_witness :
  links Sample.urljoin Sample.unescape
    (new_Page "<html>nothing here</html>" Sample.foo_url) = ∅.
Proof.
  apply (page_without_equals_has_no_links Sample.urljoin Sample.unescape
           (new_Page "<html>nothing here</html>" Sample.foo_url)).
  reflexivity.
Defined.


(** ** The fetch cache *)

Section CacheFacts.

Variable urlopen : string -> outcome Response.
Variable zlib_decompress : string -> outcome string.
Variable gzip_read : string -> outcome string.
Variable bytes_decode : string -> string -> outcome string.
Variable isdir : string -> bool.
Variable urljoin : string -> option string -> string.
Variable ensure_slash : string -> string.

Local Abbreviation get_page' :=
  (get_page urlopen zlib_decompress gzip_read bytes_decode isdir urljoin
     ensure_slash).
Local Abbreviation get_page_try' :=
  (get_page_try urlopen zlib_decompress gzip_read bytes_decode).
Local Abbreviation request_url' := (request_url isdir urljoin ensure_slash).

(** the [try] block writes the cache at the URL of the page it returns,
    and nowhere else *)
Lemma get_page_try_cache_other u st k :
  (forall p, fst (get_page_try' u st) = Ok (Some p) -> k <> page_url p) ->
  _cache (snd (get_page_try' u st)) !! k = _cache st !! k.
Proof.
  unfold get_page_try, bind, logger_debug, modify, lift, raise, ret.
  cbv beta iota.
  repeat (destruct_innermost; cbv beta iota); cbn [fst snd];
    try reflexivity.
  all: intros H; cbn [_cache set_cache add_log add_opened];
    apply lookup_insert_ne; intros <-; now apply (H _ eq_refl).
Qed.

Lemma get_page_except_cache u e st :
  _cache (snd (get_page_except u e st)) = _cache st.
Proof.
  rewrite get_page_except_spec. cbn [snd]. now destruct (is_404 e).
Qed.

Lemma get_page_except_opened u e st :
  opened (snd (get_page_except u e st)) = opened st.
Proof.
  rewrite get_page_except_spec. cbn [snd]. now destruct (is_404 e).
Qed.

(** X18.  When a fetch returns a page, the page is cached under the URL that
    was requested and under the URL it finally came from (where a
    redirect led), so that a later call for the final URL is answered
    from the cache: the final URL itself is never opened. *)
Theorem redirect_target_is_cached url st p st' :
  _cache st !! request_url' url = None ->
  get_page' url st = (Ok (Some p), st') ->
  _cache st' !! request_url' url = Some (Some p) /\
  _cache st' !! page_url p = Some (Some p) /\
  opened st' = opened (add_opened (request_url' url) st) /\
  (request_url' (page_url p) = page_url p ->
   fst (get_page' (page_url p) st') = Ok (Some p) /\
   opened (snd (get_page' (page_url p) st')) = opened st').
Proof.
  intros Hc Hrun.
  rewrite (get_page_miss _ _ _ _ _ _ _ _ _ Hc) in Hrun.
  unfold try_except in Hrun.
  pose proof (get_page_try_opened urlopen zlib_decompress gzip_read
                bytes_decode (request_url' url) st) as Hopen.
  pose proof (get_page_try_some urlopen zlib_decompress gzip_read
                bytes_decode (request_url' url) st p) as Hsome.
  destruct (get_page_try' (request_url' url) st) as [[r | e] st1];
    cbn [fst snd] in *.
  - injection Hrun as -> <-.
    specialize (Hsome st1 eq_refl).
    assert (Hp : _cache (set_cache (fun c => <[request_url' url := Some p]> c)
                           st1) !! page_url p = Some (Some p)).
    { cbn [_cache set_cache].
      destruct (decide (request_url' url = page_url p)) as [-> | Hne].
      - apply lookup_insert_eq.
      - rewrite lookup_insert_ne by exact Hne. exact Hsome. }
    split; [apply lookup_insert_eq |]. split; [exact Hp |].
    split; [exact Hopen |].
    intros Hreq. rewrite <- Hreq in Hp at 1.
    rewrite (get_page_hit _ _ _ _ _ _ _ _ _ _ Hp). split; reflexivity.
  - rewrite get_page_except_spec in Hrun. discriminate.
Qed.

End CacheFacts.

Lemma redirect_target_is_cached_witness :
  exists p st',
    SampleMirror.get_page SampleMirror.foo_request SampleMirror.state
    = (Ok (Some p), st') /\
    page_url p = SampleMirror.foo_url /\
    _cache st' !! SampleMirror.foo_request = Some (Some p) /\
    _cache st' !! SampleMirror.foo_url = Some (Some p) /\
    opened st' = [SampleMirror.foo_request] /\
    opened (snd (SampleMirror.get_page SampleMirror.foo_url st')) =
    [SampleMirror.foo_request].
Proof.
  assert (E : exists st',
             SampleMirror.get_page SampleMirror.foo_request SampleMirror.state
             = (Ok (Some (new_Page SampleMirror.foo_html SampleMirror.foo_url)),
                st'))
    by (eexists; vm_compute; reflexivity).
  destruct E as (st' & E).
  exists (new_Page SampleMirror.foo_html SampleMirror.foo_url), st'.
  destruct (redirect_target_is_cached SampleMirror.urlopen
              Sample.zlib_decompress Sample.gzip_read Sample.bytes_decode
              Sample.isdir Sample.urljoin Sample.ensure_slash
              SampleMirror.foo_request SampleMirror.state _ st' eq_refl E)
    as (H1 & H2 & H3 & H4).
  split; [exact E |]. split; [reflexivity |]. split; [exact H1 |].
  split; [exact H2 |]. split; [exact H3 |].
  destruct (H4 eq_refl) as [_ H5]. rewrite H3 in H5. exact H5.
Defined.

Lemma deflate_response_yields_page_witness :
  exists st',
    SampleMirror.get_page SampleMirror.foo_request SampleMirror.state =
    (Ok (Some (new_Page SampleMirror.foo_html SampleMirror.foo_url)), st') /\
    _cache st' !! SampleMirror.foo_request =
    Some (Some (new_Page SampleMirror.foo_html SampleMirror.foo_url)) /\
    _cache st' !! SampleMirror.foo_url =
    Some (Some (new_Page SampleMirror.foo_html SampleMirror.foo_url)).
Proof.
  apply (deflate_response_yields_page SampleMirror.urlopen
           Sample.zlib_decompress Sample.gzip_read Sample.bytes_decode
           Sample.isdir Sample.urljoin Sample.ensure_slash
           SampleMirror.foo_request SampleMirror.state
           (mkResponse (Some "text/html") (Some "deflate")
              SampleMirror.foo_url (Ok SampleMirror.foo_html))
           SampleMirror.foo_html SampleMirror.foo_html SampleMirror.foo_html);
    reflexivity.
Defined.

Lemma unknown_encoding_yields_no_page_witness :
  exists st',
    SampleMirror.get_page SampleMirror.baz_url SampleMirror.state
    = (Ok None, st') /\
    _cache st' !! SampleMirror.baz_url = Some None /\
    In (Log ERROR "Fetch failed: %s: %s" [SampleMirror.baz_url]) (log st').
Proof.
  apply (unknown_encoding_yields_no_page SampleMirror.urlopen
           Sample.zlib_decompress Sample.gzip_read Sample.bytes_decode
           Sample.isdir Sample.urljoin Sample.ensure_slash
           SampleMirror.baz_url SampleMirror.state
           (mkResponse (Some "text/html") (Some "br") SampleMirror.baz_url
              (Ok SampleMirror.foo_html))
           SampleMirror.foo_html "br");
    (reflexivity || discriminate).
Defined.

(** ** The result dictionary *)

Section ResultFacts.

Lemma update_version_data_lookup result info :
  exists d,
    _update_version_data result info !! di_version info = Some d /\
    metadata d !! "Download-URL" = Some (di_url info) /\
    (forall pv, di_python_version info = Some pv ->
       metadata d !! "Requires-Python" = Some pv) /\
    md5_digest d =
    match di_md5_digest info with
    | Some h => Some h
    | None => result !! di_version info ≫= md5_digest
    end /\
    (forall k, k <> "Download-URL" ->
       (k = "Requires-Python" -> di_python_version info = None) ->
       metadata d !! k =
       match result !! di_version info with
       | Some d0 => metadata d0 !! k
       | None =>
           (<["Version" := di_version info]>
              (<["Name" := di_name info]> ∅) : gmap string string) !! k
       end).
Proof.
  unfold _update_version_data. cbv zeta.
  set (dist := match result !! di_version info with
               | Some dist => dist
               | None => _
               end).
  set (md1 := match di_python_version info with
              | Some v => <["Requires-Python" := v]> (metadata dist)
              | None => metadata dist
              end).
  set (md2 := if decide (md1 !! "Download-URL" = Some (di_url info))
              then md1 else <["Download-URL" := di_url info]> md1).
  eexists. split; [apply lookup_insert_eq |]. cbn [metadata md5_digest].
  assert (H2 : forall k, k <> "Download-URL" -> md2 !! k = md1 !! k).
  { intros k Hk. unfold md2. destruct (decide _); [reflexivity |].
    now apply lookup_insert_ne. }
  split; [| split; [| split]].
  - unfold md2. destruct (decide _) as [H |]; [exact H | apply lookup_insert_eq].
  - intros pv Hpv. rewrite H2 by discriminate. unfold md1. rewrite Hpv.
    apply lookup_insert_eq.
  - unfold dist. destruct (di_md5_digest info); [reflexivity |].
    now destruct (result !! di_version info).
  - intros k Hk Hrp. rewrite H2 by exact Hk.
    assert (H1 : md1 !! k = metadata dist !! k).
    { unfold md1. destruct (di_python_version info) as [pv|]; [| reflexivity].
      apply lookup_insert_ne. intros <-. now specialize (Hrp eq_refl). }
    rewrite H1. unfold dist. now destruct (result !! di_version info).
Qed.

Lemma update_version_data_other result info k :
  k <> di_version info ->
  _update_version_data result info !! k = result !! k.
Proof.
  intros Hk. unfold _update_version_data. cbv zeta.
  now apply lookup_insert_ne.
Qed.

Lemma update_version_data_dom result info :
  dom (_update_version_data result info) = {[di_version info]} ∪ dom result.
Proof. unfold _update_version_data. cbv zeta. apply dom_insert_L. Qed.

Lemma update_version_data_wf result info :
  filed_under_version result ->
  filed_under_version (_update_version_data result info).
Proof.
  intros Hwf v d Hd.
  destruct (decide (v = di_version info)) as [-> | Hne].
  - destruct (update_version_data_lookup result info)
      as (d' & Hd' & Hurl & _ & _ & Hk).
    rewrite Hd' in Hd. injection Hd as <-.
    split; [| split].
    + rewrite Hk by (discriminate || (intros [=])).
      destruct (result !! di_version info) as [d0|] eqn:E.
      * now apply (Hwf _ _ E).
      * apply lookup_insert_eq.
    + rewrite Hk by (discriminate || (intros [=])).
      destruct (result !! di_version info) as [d0|] eqn:E.
      * now apply (Hwf _ _ E).
      * rewrite lookup_insert_ne by discriminate.
        rewrite lookup_insert_eq. eauto.
    + rewrite Hurl. eauto.
  - rewrite update_version_data_other in Hd by exact Hne.
    now apply Hwf.
Qed.

End ResultFacts.

(** X19.  [_update_version_data] files the record of a download under the
    version of the download and nowhere else.  The record names the URL
    of the download; it takes the Python version and the checksum of the
    download when the download has them, and keeps those of a record
    that was there before when it has not.  All other metadata, the
    project name among them, stay as a record that was there had them:
    the name of the first download seen for a version is the one that
    is kept. *)
Theorem update_version_data_entry result info :
  (exists d,
     _update_version_data result info !! di_version info = Some d /\
     metadata d !! "Download-URL" = Some (di_url info) /\
     (forall pv, di_python_version info = Some pv ->
        metadata d !! "Requires-Python" = Some pv) /\
     md5_digest d =
     match di_md5_digest info with
     | Some h => Some h
     | None => result !! di_version info ≫= md5_digest
     end /\
     match result !! di_version info with
     | Some d0 =>
         forall k, k <> "Download-URL" ->
           (k = "Requires-Python" -> di_python_version info = None) ->
           metadata d !! k = metadata d0 !! k
     | None =>
         metadata d !! "Name" = Some (di_name info) /\
         metadata d !! "Version" = Some (di_version info)
     end) /\
  (forall k, k <> di_version info ->
     _update_version_data result info !! k = result !! k) /\
  dom (_update_version_data result info) = {[di_version info]} ∪ dom result.
Proof.
  split; [| split].
  - destruct (update_version_data_lookup result info)
      as (d & Hd & Hurl & Hpv & Hmd5 & Hk).
    exists d. repeat (split; [assumption |]).
    destruct (result !! di_version info) as [d0|]; [exact Hk |].
    split.
    + rewrite Hk by (discriminate || (intros [=])).
      rewrite lookup_insert_ne by discriminate. apply lookup_insert_eq.
    + rewrite Hk by (discriminate || (intros [=])). apply lookup_insert_eq.
  - intros k. apply update_version_data_other.
  - apply update_version_data_dom.
Qed.

(** on download infos, which the model does not use up: recording an
    equal download again changes nothing *)
Lemma update_version_data_idempotent result info :
  _update_version_data (_update_version_data result info) info =
  _update_version_data result info.
Proof.
  unfold _update_version_data at 1. cbv zeta.
  destruct (update_version_data_lookup result info)
    as (d & Hd & Hurl & Hpv & Hmd5 & _).
  rewrite Hd.
  assert (Hmd : match di_python_version info with
                | Some v => <["Requires-Python" := v]> (metadata d)
                | None => metadata d
                end = metadata d).
  { destruct (di_python_version info) as [pv|]; [| reflexivity].
    apply insert_id. now apply Hpv. }
  rewrite Hmd, decide_True by exact Hurl.
  assert (Hdig : match di_md5_digest info with
                 | Some h => Some h
                 | None => md5_digest d
                 end = md5_digest d).
  { rewrite Hmd5. now destruct (di_md5_digest info). }
  rewrite Hdig. apply insert_id. rewrite Hd. now destruct d.
Qed.

(** ** The links of a page *)

Section LinkFacts.

Lemma add_logs_keeps {X} (f : State -> X) records st :
  (forall r s, f (add_log r s) = f s) ->
  f (fold_left (fun s r => add_log r s) records st) = f st.
Proof.
  intros Hf. revert st.
  induction records as [|r records IH]; intros st; simpl;
    [reflexivity | now rewrite IH, Hf].
Qed.

(** everything [process_link] does, but for the log *)
Lemma process_link_effect url link st :
  exists st',
    process_link url link st = (Ok tt, st') /\
    (base_url st' = base_url st /\ project_name st' = project_name st /\
     _cache st' = _cache st /\ opened st' = opened st) /\
    if decide (link ∈ _seen st) then st' = st
    else
      _seen st' = {[link]} ∪ _seen st /\
      match convert_url_to_download_info link (Some (project_name st)) with
      | Some info =>
          result st' = _update_version_data (result st) info /\
          _to_fetch st' = _to_fetch st
      | None =>
          result st' = result st /\
          _to_fetch st' =
          if in_scope link && startswith url (base_url st)
          then put (Some link) (_to_fetch st)
          else _to_fetch st
      end.
Proof.
  unfold process_link, bind, get_state.
  destruct (decide (link ∈ _seen st)) as [Hin | Hnot].
  - exists st. repeat split.
  - unfold modify at 1. unfold _process_download, bind, get_state.
    cbn [project_name set_seen].
    unfold convert_url_to_download_info.
    destruct (convert_url_to_download_info_log link (Some (project_name st)))
      as [info records].
    unfold modify at 1. cbn [fst].
    destruct info as [i |].
    + unfold modify, ret. eexists. split; [reflexivity |].
      cbn [base_url project_name _cache opened _seen _to_fetch result
             set_result].
      rewrite !add_logs_keeps by reflexivity.
      cbn [base_url project_name _cache opened _seen _to_fetch result].
      repeat split.
    + unfold ret at 1. unfold _should_queue, bind.
      rewrite <- should_queue_in_scope.
      destruct (should_queue link) eqn:Hq; cbn [negb andb];
        unfold logger_debug, modify, ret.
      * destruct (startswith url (base_url st));
          (eexists; split; [reflexivity |]);
          cbn [base_url project_name _cache opened _seen _to_fetch result
                 set_to_fetch add_log];
          rewrite !add_logs_keeps by reflexivity;
          cbn [base_url project_name _cache opened _seen _to_fetch result];
          repeat split.
      * eexists. split; [reflexivity |].
        cbn [base_url project_name _cache opened _seen _to_fetch result
               add_log].
        rewrite !add_logs_keeps by reflexivity.
        cbn [base_url project_name _cache opened _seen _to_fetch result].
        repeat split.
Qed.

Lemma not_elem_of_seen_add (l l0 : string) (s : gset string) :
  (l ∉ {[l0]} ∪ s) <-> l <> l0 /\ (l ∉ s).
Proof. rewrite not_elem_of_union, elem_of_singleton. tauto. Qed.

Lemma seen_cons (l0 : string) (ls : list string) (s : gset string) :
  list_to_set ls ∪ ({[l0]} ∪ s) = list_to_set (l0 :: ls) ∪ s.
Proof.
  rewrite list_to_set_cons, (assoc_L (∪)).
  now rewrite (comm_L (∪) (list_to_set ls)).
Qed.

Lemma seen_cons_old (l0 : string) (ls : list string) (s : gset string) :
  l0 ∈ s -> list_to_set ls ∪ s = list_to_set (l0 :: ls) ∪ s.
Proof.
  intros H. rewrite <- seen_cons. f_equal. symmetry.
  apply subseteq_union_1_L. now apply singleton_subseteq_l.
Qed.

Lemma dom_update_version_data_grows result info :
  dom result ⊆ dom (_update_version_data result info).
Proof. rewrite update_version_data_dom. apply union_subseteq_r. Qed.

Lemma version_in_dom_update result info :
  di_version info ∈ dom (_update_version_data result info).
Proof.
  rewrite update_version_data_dom. apply elem_of_union_l.
  now apply elem_of_singleton.
Qed.

End LinkFacts.

(** the loop over links that [urlparse] accepts: every link ends in the
    seen-set; the links put on the queue are, each once, those that were
    not seen before, are no downloads and are in scope, provided the
    page is under the base URL; every new link that is a download has
    its version in the result afterwards, and no version leaves the
    result; nothing is fetched *)
Lemma page_links_processed_once url ls st :
  exists st' puts,
    for_each ls (process_link url) st = (Ok tt, st') /\
    _seen st' = list_to_set ls ∪ _seen st /\
    _to_fetch st' = put_all puts (_to_fetch st) /\
    NoDup puts /\
    (forall l, l ∈ puts <->
       l ∈ ls /\ (l ∉ _seen st) /\
       convert_url_to_download_info l (Some (project_name st)) = None /\
       in_scope l = true /\ startswith url (base_url st) = true) /\
    (forall l info, l ∈ ls -> l ∉ _seen st ->
       convert_url_to_download_info l (Some (project_name st)) = Some info ->
       di_version info ∈ dom (result st')) /\
    dom (result st) ⊆ dom (result st') /\
    (base_url st' = base_url st /\ project_name st' = project_name st /\
     _cache st' = _cache st /\ opened st' = opened st).
Proof.
  revert st. induction ls as [|l0 ls IH]; intros st.
  - exists st, []. simpl. split; [reflexivity |].
    split; [now rewrite union_empty_l_L |].
    split; [reflexivity |]. split; [constructor |].
    split; [| split; [| split; [reflexivity | auto]]].
    + intros l. split; [intros H; now apply elem_of_nil in H |].
      intros [H _]. now apply elem_of_nil in H.
    + intros l info H. now apply elem_of_nil in H.
  - cbn [for_each]. unfold bind.
    destruct (process_link_effect url l0 st)
      as (st1 & -> & (Hb1 & Hn1 & Hc1 & Ho1) & Heff).
    destruct (IH st1)
      as (st' & puts & -> & Hseen & Hq & Hnd & Hputs & Hres & Hdom
          & Hb & Hn & Hc & Ho).
    rewrite Hb1, Hn1 in Hputs. rewrite Hn1 in Hres.
    assert (Hframe : base_url st' = base_url st /\
                     project_name st' = project_name st /\
                     _cache st' = _cache st /\ opened st' = opened st)
      by (repeat split; congruence).
    clear IH Hb1 Hn1 Hc1 Ho1 Hb Hn Hc Ho.
    destruct (decide (l0 ∈ _seen st)) as [Hin | Hnot].
    + subst st1. exists st', puts.
      split; [reflexivity |].
      split; [rewrite Hseen; now apply seen_cons_old |].
      split; [exact Hq |]. split; [exact Hnd |].
      split; [| split; [| split; [exact Hdom | exact Hframe]]].
      * intros l. rewrite Hputs. rewrite elem_of_cons.
        split; [tauto |]. intros ([-> | H] & H'); [tauto | tauto].
      * intros l info [-> | H]%elem_of_cons Hl; [contradiction |].
        now apply Hres.
    + destruct Heff as [Hs1 Heff].
      assert (Hseen' : _seen st' = list_to_set (l0 :: ls) ∪ _seen st)
        by (rewrite Hseen, Hs1; apply seen_cons).
      assert (Hrest : forall l,
                 l ∈ puts <->
                 l <> l0 /\ l ∈ ls /\ (l ∉ _seen st) /\
                 convert_url_to_download_info l (Some (project_name st))
                 = None /\
                 in_scope l = true /\ startswith url (base_url st) = true).
      { intros l. rewrite Hputs, Hs1, not_elem_of_seen_add. tauto. }
      assert (Hl0 : l0 ∉ puts).
      { intros H. apply Hrest in H as (H & _). now apply H. }
      assert (Hres1 : forall l info, l <> l0 -> l ∈ ls -> l ∉ _seen st ->
                 convert_url_to_download_info l (Some (project_name st))
                 = Some info -> di_version info ∈ dom (result st')).
      { intros l info Hne H Hl Hi. apply (Hres l info H); [| exact Hi].
        rewrite Hs1. now apply not_elem_of_seen_add. }
      clear Hputs Hres Hseen Hs1.
      destruct (convert_url_to_download_info l0 (Some (project_name st)))
        as [info0 |] eqn:Hconv.
      * destruct Heff as [Hr1 Hq1].
        exists st', puts.
        split; [reflexivity |]. split; [exact Hseen' |].
        split; [now rewrite Hq, Hq1 |]. split; [exact Hnd |].
        assert (Hdom1 : dom (result st) ⊆ dom (result st')).
        { etrans; [| exact Hdom]. rewrite Hr1.
          apply dom_update_version_data_grows. }
        assert (H0 : di_version info0 ∈ dom (result st')).
        { apply Hdom. rewrite Hr1. apply version_in_dom_update. }
        split; [| split; [| split; [exact Hdom1 | exact Hframe]]].
        -- intros l. rewrite Hrest, elem_of_cons. split; [tauto |].
           intros ([-> | H1] & H2 & H3 & H4); [congruence |].
           destruct (decide (l = l0)) as [-> | Hne]; [congruence | tauto].
        -- intros l info Hl Hs Hi.
           destruct (decide (l = l0)) as [-> | Hne].
           ++ rewrite Hconv in Hi. now injection Hi as <-.
           ++ apply elem_of_cons in Hl as [-> | Hl]; [contradiction |].
              now apply (Hres1 l info).
      * destruct Heff as [Hr1 Hq1].
        assert (Hres' : forall l info, l ∈ l0 :: ls -> l ∉ _seen st ->
                   convert_url_to_download_info l (Some (project_name st))
                   = Some info -> di_version info ∈ dom (result st')).
        { intros l info Hl Hs Hi.
          destruct (decide (l = l0)) as [-> | Hne]; [congruence |].
          apply elem_of_cons in Hl as [-> | Hl]; [contradiction |].
          now apply (Hres1 l info). }
        assert (Hdom' : dom (result st) ⊆ dom (result st'))
          by (now rewrite <- Hr1).
        destruct (in_scope l0 && startswith url (base_url st)) eqn:Hput.
        -- exists st', (l0 :: puts).
           split; [reflexivity |]. split; [exact Hseen' |].
           split; [now rewrite Hq, Hq1 |].
           split; [now constructor |].
           split; [| split; [exact Hres' | split; [exact Hdom' | exact Hframe]]].
           apply andb_prop in Hput as [Hsc Hst].
           intros l. rewrite !elem_of_cons, Hrest. split.
           ++ intros [-> | H]; [tauto | tauto].
           ++ intros ([-> | H1] & H2); [now left |].
              destruct (decide (l = l0)) as [-> | Hne]; [now left | right; tauto].
        -- exists st', puts.
           split; [reflexivity |]. split; [exact Hseen' |].
           split; [now rewrite Hq, Hq1 |]. split; [exact Hnd |].
           split; [| split; [exact Hres' | split; [exact Hdom' | exact Hframe]]].
           intros l. rewrite elem_of_cons, Hrest. split; [tauto |].
           intros ([-> | H1] & H2 & H3 & H4 & H5).
           ++ rewrite H4, H5 in Hput. discriminate.
           ++ destruct (decide (l = l0)) as [-> | Hne]; [| tauto].
              rewrite H4, H5 in Hput. discriminate.
Qed.

(** the loop keeps the base URL and the shape of the result *)
Lemma for_each_links_keeps url ls st :
  base_url (snd (for_each ls (process_link url) st)) = base_url st /\
  (filed_under_version (result st) ->
   filed_under_version (result (snd (for_each ls (process_link url) st)))).
Proof.
  revert st. induction ls as [|l ls IH]; intros st; [now split |].
  cbn [for_each]. unfold bind.
  destruct (process_link_effect url l st) as (st1 & -> & (Hb & _) & Heff).
  destruct (IH st1) as [IHb IHwf]. rewrite IHb, Hb. split; [reflexivity |].
  intros Hwf. apply IHwf.
  destruct (decide (l ∈ _seen st)); [now subst st1 |].
  destruct Heff as [_ Heff].
  destruct (convert_url_to_download_info l (Some (project_name st)))
    as [info|]; destruct Heff as [-> _]; [| exact Hwf].
  now apply update_version_data_wf.
Qed.

(** ** When [get_project] returns *)

Section ReturnFacts.

Lemma stopped_not_waiting ws i w :
  forallb stopped ws = true -> ws !! i = Some w -> stopped w = true.
Proof.
  intros Hall Hi. rewrite forallb_forall in Hall. apply Hall.
  apply list_elem_of_In. now apply (list_elem_of_lookup_2 _ i).
Qed.

Lemma reachable_returned n s :
  reachable n s -> pool_producer s = Returned ->
  forallb stopped (pool_workers s) = true.
Proof.
  induction 1 as [| s s' Hreach IH Hstep]; [discriminate |].
  destruct Hstep
    as [q ws pr i x q' Hi Hget | q ws pr i x link Hi
       | q ws pr i x q' Hi Hdone | q ws pr i x e q' Hi Hdone
       | q ws url | q ws Hzero | q ws k | q ws | q ws Hstopped];
    simpl in *; try discriminate; intros Hpr; try exact (IH Hpr);
    try exact Hstopped;
    specialize (IH Hpr);
    pose proof (stopped_not_waiting _ _ _ IH Hi) as Hs; discriminate Hs.
Qed.

Lemma stopped_working ws : forallb stopped ws = true -> working ws = 0.
Proof.
  unfold working. induction ws as [|w ws IH]; [reflexivity |].
  simpl. intros [Hw Hws]%andb_prop.
  destruct w; try discriminate; simpl; auto.
Qed.

End ReturnFacts.

(** X24.  In every state that the pool of workers reaches: when the count of
    unfinished tasks is zero, which is what [join()] on the queue waits
    for, the queue is empty and no worker is inside the [try] block; and
    when [get_project] has returned from [_wait_threads], every worker
    has left its loop, by [break] or by an exception, no worker holds an
    item, and every [get] has been answered by a [task_done]. *)
Theorem join_means_quiescent n q ws pr :
  reachable n (mkPool q ws pr) ->
  (unfinished_tasks q = 0 -> items q = [] /\ working ws = 0) /\
  (pr = Returned ->
   forallb stopped ws = true /\ List.length ws = n /\
   unfinished_tasks q = List.length (items q) /\ n_get q = n_done q).
Proof.
  intros Hreach.
  pose proof (reachable_invariant _ _ Hreach) as [Hu Hg]. simpl in Hu, Hg.
  split.
  - intros Hzero. rewrite Hzero in Hu. split; [| lia].
    destruct (items q); [reflexivity | simpl in Hu; lia].
  - intros Hpr.
    pose proof (reachable_returned _ _ Hreach Hpr) as Hall. simpl in Hall.
    pose proof (stopped_working _ Hall) as Hw.
    pose proof (reachable_workers _ _ Hreach) as Hlen. simpl in Hlen.
    repeat split; try assumption; lia.
Qed.

Lemma join_means_quiescent_witness :
  forallb stopped [Exited] = true /\
  unfinished_tasks (mkQueue [] 0 2 2) = 0 /\
  reachable 1 (mkPool (mkQueue [] 0 2 2) [Exited] Returned).
Proof.
  pose proof (reachable_init 1) as H0.
  pose proof (reachable_step 1 _ _ H0
                (producer_seed (mkQueue [] 0 0 0) [Waiting]
                   "http://pypi.python.org/simple/foo/")) as H1.
  pose proof (reachable_step 1 _ _ H1
                (worker_get
                   (mkQueue [Some "http://pypi.python.org/simple/foo/"] 1 0 0)
                   [Waiting] Joining 0
                   (Some "http://pypi.python.org/simple/foo/")
                   (mkQueue [] 1 1 0) eq_refl eq_refl)) as H2.
  pose proof (reachable_step 1 _ _ H2
                (worker_done (mkQueue [] 1 1 0)
                   [Working (Some "http://pypi.python.org/simple/foo/")]
                   Joining 0 (Some "http://pypi.python.org/simple/foo/")
                   (mkQueue [] 0 1 1) eq_refl eq_refl)) as H3.
  pose proof (reachable_step 1 _ _ H3
                (producer_join (mkQueue [] 0 1 1) [Waiting] eq_refl)) as H4.
  pose proof (reachable_step 1 _ _ H4
                (producer_sentinel (mkQueue [] 0 1 1) [Waiting] 0)) as H5.
  pose proof (reachable_step 1 _ _ H5
                (worker_get (mkQueue [None] 1 1 1) [Waiting] (Stopping 0) 0
                   None (mkQueue [] 1 2 1) eq_refl eq_refl)) as H6.
  pose proof (reachable_step 1 _ _ H6
                (worker_done (mkQueue [] 1 2 1) [Working None] (Stopping 0) 0
                   None (mkQueue [] 0 2 2) eq_refl eq_refl)) as H7.
  pose proof (reachable_step 1 _ _ H7
                (producer_sentinels_done (mkQueue [] 0 2 2) [Exited])) as H8.
  pose proof (reachable_step 1 _ _ H8
                (producer_return (mkQueue [] 0 2 2) [Exited] eq_refl)) as H9.
  destruct (join_means_quiescent 1 (mkQueue [] 0 2 2) [Exited] Returned H9)
    as [_ Hret].
  destruct (Hret eq_refl) as (Hall & _ & Hu & _).
  split; [exact Hall |]. split; [exact Hu | exact H9].
Defined.

(** ** [DirectoryLocator.get_project] *)

Section DirectoryFacts.

Variable walk : list (string * list string).
Variable path_url : string -> string -> string.

Local Abbreviation step' name :=
  (fun (result : gmap string Distribution) (f : string * string) =>
     directory_file path_url name (fst f) result (snd f)).

(** the two loops are one loop over the files of the walk *)
Lemma directory_get_project_files name :
  directory_get_project walk path_url name =
  fold_left (step' name) (walked_files walk) ∅.
Proof.
  unfold directory_get_project, walked_files.
  generalize (∅ : gmap string Distribution).
  induction walk as [|[root files] w IH]; intros r; [reflexivity |].
  cbn [fold_left flat_map]. rewrite fold_left_app, IH. f_equal.
  clear IH. revert r.
  induction files as [|fn files IH]; intros r; [reflexivity |].
  cbn [fold_left map]. apply IH.
Qed.

Lemma directory_file_cases name root result fn :
  (directory_file path_url name root result fn = result /\
   (endswith_any fn EXTENSIONS = false \/
    convert_url_to_download_info (path_url root fn) (Some name) = None)) \/
  exists info,
    endswith_any fn EXTENSIONS = true /\
    convert_url_to_download_info (path_url root fn) (Some name) = Some info /\
    directory_file path_url name root result fn =
    _update_version_data result info.
Proof.
  unfold directory_file.
  destruct (endswith_any fn EXTENSIONS); [| left; auto]. cbv zeta.
  destruct (convert_url_to_download_info _ _) as [info|];
    [right; eauto | left; auto].
Qed.

End DirectoryFacts.

(** X25.  The mapping that [DirectoryLocator.get_project] returns, for any
    walk of the directory.  Its versions are exactly the versions of the
    files below the directory whose name ends in one of [EXTENSIONS] and
    whose URL parses as a download of the project (so no file ending in
    [.egg] contributes).  Every record is filed under its own version,
    names its project, and has as its download URL the URL of one of the
    files with that version. *)
Theorem directory_get_project_versions
    (walk : list (string * list string))
    (path_url : string -> string -> string) (name : string) :
  let result := directory_get_project walk path_url name in
  filed_under_version result /\
  (forall v,
     v ∈ dom result <->
     exists root fn info,
       (root, fn) ∈ walked_files walk /\
       endswith_any fn EXTENSIONS = true /\
       convert_url_to_download_info (path_url root fn) (Some name)
       = Some info /\
       di_version info = v) /\
  (forall v d,
     result !! v = Some d ->
     exists root fn info,
       (root, fn) ∈ walked_files walk /\
       convert_url_to_download_info (path_url root fn) (Some name)
       = Some info /\
       di_version info = v /\
       metadata d !! "Download-URL" = Some (di_url info)).
Proof.
  cbv zeta. rewrite directory_get_project_files.
  induction (walked_files walk) as [|[root fn] files IH] using rev_ind.
  - simpl. split; [| split].
    + intros v d H. rewrite lookup_empty in H. discriminate.
    + intros v. rewrite dom_empty_L. split; [intros H; now apply elem_of_empty in H |].
      intros (r & f & i & H & _). now apply elem_of_nil in H.
    + intros v d H. rewrite lookup_empty in H. discriminate.
  - rewrite fold_left_app. cbn [fold_left fst snd].
    set (r := fold_left _ files ∅) in *.
    destruct IH as (IHwf & IHdom & IHurl).
    destruct (directory_file_cases path_url name root r fn)
      as [[-> Hnone] | (info & Hext & Hconv & ->)].
    + split; [exact IHwf |]. split.
      * intros v. rewrite IHdom. split.
        -- intros (r0 & f & i & H & H'). exists r0, f, i.
           split; [| exact H']. apply elem_of_app. now left.
        -- intros (r0 & f & i & [H | H]%elem_of_app & He & Hc & Hv).
           ++ now exists r0, f, i.
           ++ apply list_elem_of_singleton in H. injection H as -> ->.
              destruct Hnone; congruence.
      * intros v d Hd. destruct (IHurl v d Hd) as (r0 & f & i & H & H').
        exists r0, f, i. split; [| exact H']. apply elem_of_app. now left.
    + split; [now apply update_version_data_wf |]. split.
      * intros v. rewrite update_version_data_dom, elem_of_union,
          elem_of_singleton, IHdom. split.
        -- intros [-> | (r0 & f & i & H & H')].
           ++ exists root, fn, info. split; [| auto].
              apply elem_of_app. right. now apply list_elem_of_singleton.
           ++ exists r0, f, i. split; [| exact H'].
              apply elem_of_app. now left.
        -- intros (r0 & f & i & [H | H]%elem_of_app & He & Hc & Hv).
           ++ right. now exists r0, f, i.
           ++ apply list_elem_of_singleton in H. injection H as -> ->.
              left. congruence.
      * intros v d Hd.
        destruct (decide (v = di_version info)) as [-> | Hne].
        -- destruct (update_version_data_lookup r info)
             as (d' & Hd' & Hurl & _).
           rewrite Hd' in Hd. injection Hd as <-.
           exists root, fn, info. split; [| auto].
           apply elem_of_app. right. now apply list_elem_of_singleton.
        -- rewrite update_version_data_other in Hd by exact Hne.
           destruct (IHurl v d Hd) as (r0 & f & i & H & H').
           exists r0, f, i. split; [| exact H']. apply elem_of_app. now left.
Qed.

(** * The methods with the failures of their helpers *)

(** ** [_update_version_data] on the dictionary it is given *)

Section InfoDictFacts.

Lemma info_dict_name i : Method.info_dict i !! "name" = Some (di_name i).
Proof. unfold Method.info_dict. apply lookup_insert_eq. Qed.

Lemma info_dict_version i :
  Method.info_dict i !! "version" = Some (di_version i).
Proof.
  unfold Method.info_dict. rewrite lookup_insert_ne by discriminate.
  apply lookup_insert_eq.
Qed.

Lemma info_dict_url i : Method.info_dict i !! "url" = Some (di_url i).
Proof.
  unfold Method.info_dict. rewrite !lookup_insert_ne by discriminate.
  apply lookup_insert_eq.
Qed.

Lemma info_dict_md5_digest i :
  Method.info_dict i !! "md5_digest" = di_md5_digest i.
Proof.
  unfold Method.info_dict. rewrite !lookup_insert_ne by discriminate.
  destruct (di_python_version i), (di_md5_digest i);
    rewrite ?lookup_insert_ne by discriminate;
    rewrite ?lookup_insert_eq, ?lookup_empty; reflexivity.
Qed.

Lemma info_dict_python_version i :
  Method.info_dict i !! "python-version" = di_python_version i.
Proof.
  unfold Method.info_dict. rewrite !lookup_insert_ne by discriminate.
  destruct (di_python_version i), (di_md5_digest i);
    rewrite ?lookup_insert_eq; try reflexivity;
    rewrite ?lookup_insert_ne by discriminate; apply lookup_empty.
Qed.

(** on the dictionary of a download info the method returns, and leaves
    the result that [_update_version_data] describes *)
Lemma update_version_data_info_dict result i :
  Method._update_version_data result (Method.info_dict i) =
  (Ok tt,
   (_update_version_data result i,
    delete "version" (delete "name" (Method.info_dict i)))).
Proof.
  unfold Method._update_version_data, Method.pop.
  rewrite info_dict_name.
  rewrite (lookup_delete_ne _ "name" "version") by discriminate.
  rewrite info_dict_version.
  rewrite !(lookup_delete_ne _ "version") by discriminate.
  rewrite !(lookup_delete_ne _ "name") by discriminate.
  rewrite info_dict_url, info_dict_md5_digest, info_dict_python_version.
  reflexivity.
Qed.

End InfoDictFacts.

(** X20.  [_update_version_data] uses up the dictionary it is given.  On
    the dictionary of a download info it returns, leaves in the result
    what is described for the download info, and has popped [name] and
    [version] from the dictionary.  Called again with that same
    dictionary it raises [KeyError] and leaves the result as it is; so
    the same dictionary is recorded once only.  Called again with a
    fresh dictionary of the same download info it returns, and the
    result is the one after the first call. *)
Theorem update_version_data_pops_info result i :
  let info := Method.info_dict i in
  let popped := delete "version" (delete "name" info) in
  let result' := _update_version_data result i in
  Method._update_version_data result info = (Ok tt, (result', popped)) /\
  popped !! "name" = None /\ popped !! "version" = None /\
  (forall k, k <> "name" -> k <> "version" -> popped !! k = info !! k) /\
  Method._update_version_data result' popped =
  (Raise KeyError, (result', popped)) /\
  Method._update_version_data result' info = (Ok tt, (result', popped)).
Proof.
  cbv zeta. split; [apply update_version_data_info_dict |].
  split; [rewrite lookup_delete_ne by discriminate; apply lookup_delete_eq |].
  split; [apply lookup_delete_eq |].
  split.
  { intros k Hn Hv. rewrite !lookup_delete_ne by congruence. reflexivity. }
  split.
  - unfold Method._update_version_data, Method.pop.
    rewrite lookup_delete_ne by discriminate.
    now rewrite lookup_delete_eq.
  - rewrite update_version_data_info_dict.
    now rewrite update_version_data_idempotent.
Qed.

(** ** [get_page] and the statements before its [try] block *)

Section MethodFetchFacts.

Variable urlopen : string -> outcome Response.
Variable zlib_decompress : string -> outcome string.
Variable gzip_read : string -> outcome string.
Variable bytes_decode : string -> string -> outcome string.
Variable isdir : string -> bool.
Variable ensure_slash : string -> string.
Variable urljoin : string -> option string -> outcome string.
Variable Request : string -> outcome unit.

Local Abbreviation get_page' :=
  (Method.get_page urlopen zlib_decompress gzip_read bytes_decode isdir
     ensure_slash urljoin Request).
Local Abbreviation get_page_try' :=
  (get_page_try urlopen zlib_decompress gzip_read bytes_decode).
Local Abbreviation request_url' :=
  (Method.request_url isdir ensure_slash urljoin).

Lemma request_url_unparsable url :
  unparsable url = true -> request_url' url = Raise ValueError.
Proof.
  intros H. unfold Method.request_url, Method.urlparse. now rewrite H.
Qed.

Lemma request_url_parsable url :
  unparsable url = false ->
  request_url' url =
  if String.eqb (scheme (urlparse url)) "file" &&
     isdir (UrlLib.path (urlparse url))
  then urljoin (ensure_slash url) (Some "index.html")
  else Ok url.
Proof.
  intros H. unfold Method.request_url, Method.urlparse. now rewrite H.
Qed.

Lemma method_get_page_raise url e st :
  request_url' url = Raise e -> get_page' url st = (Raise e, st).
Proof.
  intros H. unfold Method.get_page, bind, lift. now rewrite H.
Qed.

Lemma method_get_page_hit url u st p :
  request_url' url = Ok u -> _cache st !! u = Some p ->
  get_page' url st =
  (Ok p, add_log (Log DEBUG "Returning %s from cache: %s" [u]) st).
Proof.
  intros H Hc. unfold Method.get_page, bind, lift, get_state.
  now rewrite H, Hc.
Qed.

Lemma method_get_page_refused url u st e :
  request_url' url = Ok u -> _cache st !! u = None -> Request u = Raise e ->
  get_page' url st = (Raise e, st).
Proof.
  intros H Hc Hr. unfold Method.get_page, bind, lift, get_state.
  now rewrite H, Hc, Hr.
Qed.

Lemma method_get_page_miss url u st :
  request_url' url = Ok u -> _cache st !! u = None -> Request u = Ok tt ->
  get_page' url st =
  match try_except (get_page_try' u) (get_page_except u) st with
  | (r, st1) =>
      (r, set_cache (fun c => <[u := match r with
                                      | Ok p => p
                                      | Raise _ => None
                                      end]> c) st1)
  end.
Proof.
  intros H Hc Hr. unfold Method.get_page, bind, lift, get_state.
  now rewrite H, Hc, Hr.
Qed.

(** how a call ends: the three ways *)
Lemma method_get_page_cases url st :
  (exists e, get_page' url st = (Raise e, st) /\
             (request_url' url = Raise e \/
              exists u, request_url' url = Ok u /\ _cache st !! u = None /\
                        Request u = Raise e)) \/
  (exists u p, request_url' url = Ok u /\ _cache st !! u = Some p /\
               get_page' url st =
               (Ok p, add_log (Log DEBUG "Returning %s from cache: %s" [u])
                        st)) \/
  (exists u, request_url' url = Ok u /\ _cache st !! u = None /\
             Request u = Ok tt /\
             get_page' url st =
             match try_except (get_page_try' u) (get_page_except u) st with
             | (r, st1) =>
                 (r, set_cache (fun c => <[u := match r with
                                                 | Ok p => p
                                                 | Raise _ => None
                                                 end]> c) st1)
             end).
Proof.
  destruct (request_url' url) as [u | e] eqn:Hreq.
  - destruct (_cache st !! u) as [p |] eqn:Hc.
    + right. left. exists u, p. split; [reflexivity |]. split; [exact Hc |].
      now apply method_get_page_hit.
    + destruct (Request u) as [[] | e] eqn:Hr.
      * right. right. exists u. repeat split; try assumption.
        now apply method_get_page_miss.
      * left. exists e. split; [now apply (method_get_page_refused url u) |].
        right. exists u. auto.
  - left. exists e. split; [now apply method_get_page_raise | now left].
Qed.

(** a call keeps every field that is neither the cache, the log nor the
    record of opened URLs *)
Lemma method_get_page_keeps {X} (f : State -> X) url :
  (forall r st, f (add_log r st) = f st) ->
  (forall u st, f (add_opened u st) = f st) ->
  (forall g st, f (set_cache g st) = f st) ->
  keeps f (get_page' url).
Proof.
  intros Hlog Hopen Hcache st.
  destruct (method_get_page_cases url st)
    as [(e & -> & _) | [(u & p & _ & _ & ->) | (u & _ & _ & _ & ->)]];
    cbn [snd]; [reflexivity | apply Hlog |].
  pose proof (keeps_f_try_except f _ _
                (get_page_try_keeps urlopen zlib_decompress gzip_read
                   bytes_decode f u Hlog Hopen Hcache)
                (fun e => get_page_except_keeps f u e Hlog) st) as H.
  destruct (try_except _ _ st) as [r st1]. cbn [snd] in *.
  now rewrite Hcache.
Qed.

(** X4.  [get_page] raises only from the statements that stand before
    its [try] block: when [urlparse] rejects the URL (a netloc with one
    square bracket and not the other), when [urljoin] fails on the
    [file:] URL of a directory, or when, the requested URL not being in
    the cache, [Request] fails.  It then leaves the locator as it was:
    nothing is cached, nothing is opened, nothing is logged.  In every
    other case it returns a page or none and does not raise: the outcome
    is stored in the cache under the requested URL, so that the same
    call made again is answered from the cache; a failure of the [try]
    block gives none, and is logged at ERROR level unless it is an HTTP
    error with code 404; a response that is not HTML gives none as
    well.  The requested URL is the given one unless the scheme is
    [file]; it cannot be computed only when [urlparse] rejects the URL
    or [urljoin] raises on the [file:] URL of a directory. *)
Theorem get_page_raises_only_before_try url st :
  (unparsable url = true -> get_page' url st = (Raise ValueError, st)) /\
  (forall e, request_url' url = Raise e -> get_page' url st = (Raise e, st)) /\
  (forall u e,
     request_url' url = Ok u -> _cache st !! u = None ->
     Request u = Raise e -> get_page' url st = (Raise e, st)) /\
  (forall u,
     request_url' url = Ok u ->
     (_cache st !! u = None -> Request u = Ok tt) ->
     exists page st',
       get_page' url st = (Ok page, st') /\
       _cache st' !! u = Some page /\
       get_page' url st' =
       (Ok page, add_log (Log DEBUG "Returning %s from cache: %s" [u]) st') /\
       (_cache st !! u = None ->
        (forall e st1,
           get_page_try' u st = (Raise e, st1) ->
           page = None /\
           log st' =
           (log st1 ++
            if is_404 e then []
            else [Log ERROR "Fetch failed: %s: %s" [u]])%list) /\
        (forall e,
           urlopen u = Raise e ->
           page = None /\
           opened st' = (opened st ++ [u])%list /\
           log st' =
           (log st ++
            Log DEBUG "Fetching %s" [u] ::
            if is_404 e then []
            else [Log ERROR "Fetch failed: %s: %s" [u]])%list) /\
        (forall resp,
           urlopen u = Ok resp ->
           is_match HTML_CONTENT_TYPE (content_type resp) = false ->
           page = None))) /\
  (unparsable url = false -> scheme (urlparse url) <> "file" ->
   request_url' url = Ok url) /\
  (forall e,
     request_url' url = Raise e ->
     (unparsable url = true /\ e = ValueError) \/
     (unparsable url = false /\ scheme (urlparse url) = "file" /\
      isdir (UrlLib.path (urlparse url)) = true /\
      urljoin (ensure_slash url) (Some "index.html") = Raise e)).
Proof.
  split; [| split; [| split; [| split; [| split]]]].
  - intros H. apply method_get_page_raise. now apply request_url_unparsable.
  - intros e. apply method_get_page_raise.
  - intros u e. apply method_get_page_refused.
  - intros u Hreq Hr.
    destruct (_cache st !! u) as [p|] eqn:Hc.
    + exists p, (add_log (Log DEBUG "Returning %s from cache: %s" [u]) st).
      split; [now apply method_get_page_hit |].
      split; [exact Hc |].
      split; [now apply method_get_page_hit |].
      discriminate.
    + rewrite (method_get_page_miss url u st Hreq Hc (Hr eq_refl)).
      destruct (try_except_get_page urlopen zlib_decompress gzip_read
                  bytes_decode u st) as (p & st1 & Htry & Hfail).
      rewrite Htry.
      set (st' := set_cache (fun c => <[u := p]> c) st1).
      assert (Hst' : _cache st' !! u = Some p) by apply lookup_insert_eq.
      exists p, st'.
      split; [reflexivity |]. split; [exact Hst' |].
      split; [now apply method_get_page_hit |].
      intros _. split; [| split].
      * intros e st0 He. destruct (Hfail e st0 He) as [-> ->].
        split; [reflexivity |].
        destruct (is_404 e); simpl; [now rewrite app_nil_r | reflexivity].
      * intros e He.
        destruct (Hfail e _ (get_page_try_urlopen_fails urlopen
                               zlib_decompress gzip_read bytes_decode _ st e
                               He)) as [-> ->].
        split; [reflexivity |].
        destruct (is_404 e); simpl; rewrite <- ?app_assoc; auto.
      * intros resp Hresp Hct.
        pose proof (get_page_try_not_html urlopen zlib_decompress gzip_read
                      bytes_decode _ st resp Hresp Hct) as Heq.
        unfold try_except in Htry. rewrite Heq in Htry. congruence.
  - intros Hp Hs. rewrite (request_url_parsable url Hp).
    destruct (String.eqb_spec (scheme (urlparse url)) "file");
      [contradiction | reflexivity].
  - intros e. destruct (unparsable url) eqn:Hp.
    + rewrite (request_url_unparsable url Hp). intros [= <-]. now left.
    + rewrite (request_url_parsable url Hp).
      destruct (String.eqb_spec (scheme (urlparse url)) "file") as [Hs | Hs];
        [| discriminate].
      destruct (isdir (UrlLib.path (urlparse url))); [| discriminate].
      cbn [andb]. intros He. right. auto.
Qed.

(** X17.  One call of [get_page] touches nothing but the cache, the log
    and the network.  The base URL, the project name, the seen-set, the
    queue and the result are left as they are, and no URL leaves the
    cache.  A call raises only when the requested URL cannot be
    computed ([urlparse] or [urljoin] raises) or when, that URL not
    being in the cache, [Request] raises; it then changes nothing at
    all.  After a call that returns, the
    requested URL is in the cache with what was returned; the network
    was used exactly when the requested URL was not in the cache before,
    and then for that URL alone, once; and the cache has changed at the
    requested URL and at the URL of the returned page only. *)
Theorem get_page_touches_cache_log_network url st :
  let r := get_page' url st in
  (base_url (snd r) = base_url st /\ project_name (snd r) = project_name st /\
   _seen (snd r) = _seen st /\ _to_fetch (snd r) = _to_fetch st /\
   result (snd r) = result st) /\
  cache_grows st (snd r) /\
  (forall e,
     fst r = Raise e ->
     snd r = st /\
     (request_url' url = Raise e \/
      exists u, request_url' url = Ok u /\ _cache st !! u = None /\
                Request u = Raise e)) /\
  (forall page,
     fst r = Ok page ->
     exists u,
       request_url' url = Ok u /\
       _cache (snd r) !! u = Some page /\
       opened (snd r) =
       (if decide (is_Some (_cache st !! u)) then opened st
        else opened st ++ [u])%list /\
       (forall k, k <> u ->
          (forall p, page = Some p -> k <> page_url p) ->
          _cache (snd r) !! k = _cache st !! k)).
Proof.
  cbv zeta. split.
  { repeat split; apply (method_get_page_keeps _ url); reflexivity. }
  destruct (method_get_page_cases url st)
    as [(e & -> & He) | [(u & p & Hreq & Hc & ->)
                            | (u & Hreq & Hc & Hr & ->)]];
    cbn [fst snd].
  - split; [unfold cache_grows; reflexivity |].
    split; [intros e' [= <-]; now split | discriminate].
  - split; [unfold cache_grows; reflexivity |].
    split; [discriminate |].
    intros page [= <-]. exists u. split; [exact Hreq |].
    split; [exact Hc |]. rewrite decide_True by eauto.
    split; reflexivity.
  - unfold try_except.
    pose proof (get_page_try_cache_grows urlopen zlib_decompress gzip_read
                  bytes_decode u st) as Hgrow.
    pose proof (get_page_try_opened urlopen zlib_decompress gzip_read
                  bytes_decode u st) as Hopen.
    pose proof (get_page_try_cache_other urlopen zlib_decompress gzip_read
                  bytes_decode u st) as Hother.
    unfold cache_grows in Hgrow |- *.
    destruct (get_page_try' u st) as [[r | e] st1]; cbn [fst snd] in *.
    + cbn [_cache set_cache opened]. rewrite dom_insert_L.
      split; [set_solver |]. split; [discriminate |].
      intros page [= <-]. exists u. split; [exact Hreq |].
      split; [apply lookup_insert_eq |].
      rewrite decide_False by (rewrite Hc; intros [? ?]; discriminate).
      split; [exact Hopen |].
      intros k Hk Hp. rewrite lookup_insert_ne by congruence.
      apply Hother. intros p [= ->]. now apply Hp.
    + pose proof (get_page_except_cache u e st1) as Hc1.
      pose proof (get_page_except_opened u e st1) as Ho1.
      rewrite get_page_except_spec in Hc1, Ho1 |- *. cbn [fst snd] in *.
      cbn [_cache set_cache opened]. rewrite dom_insert_L, Hc1, Ho1.
      split; [set_solver |]. split; [discriminate |].
      intros page [= <-]. exists u. split; [exact Hreq |].
      split; [apply lookup_insert_eq |].
      rewrite decide_False by (rewrite Hc; intros [? ?]; discriminate).
      split; [exact Hopen |].
      intros k Hk _. rewrite lookup_insert_ne by congruence.
      apply Hother. discriminate.
Qed.

End MethodFetchFacts.

Lemma get_page_raises_only_before_try_witness :
  SampleMethod.get_page "http://[::1/simple/foo/" SampleMethod.state
  = (Raise ValueError, SampleMethod.state) /\
  SampleMethod.get_page "simple/foo/" SampleMethod.state
  = (Raise ValueError, SampleMethod.state) /\
  exists st',
    SampleMethod.get_page SampleMirror.baz_url SampleMethod.state
    = (Ok None, st') /\
    _cache st' !! SampleMirror.baz_url = Some None.
Proof.
  split; [| split].
  - apply (get_page_raises_only_before_try SampleMethod.urlopen
             Sample.zlib_decompress Sample.gzip_read Sample.bytes_decode
             Sample.isdir Sample.ensure_slash SampleMethod.urljoin
             SampleMethod.Request "http://[::1/simple/foo/"
             SampleMethod.state).
    reflexivity.
  - apply (get_page_raises_only_before_try SampleMethod.urlopen
             Sample.zlib_decompress Sample.gzip_read Sample.bytes_decode
             Sample.isdir Sample.ensure_slash SampleMethod.urljoin
             SampleMethod.Request "simple/foo/" SampleMethod.state)
      with (u := "simple/foo/"); reflexivity.
  - destruct (get_page_raises_only_before_try SampleMethod.urlopen
                Sample.zlib_decompress Sample.gzip_read Sample.bytes_decode
                Sample.isdir Sample.ensure_slash SampleMethod.urljoin
                SampleMethod.Request SampleMirror.baz_url SampleMethod.state)
      as (_ & _ & _ & Hret & _ & _).
    destruct (Hret SampleMirror.baz_url eq_refl (fun _ => eq_refl))
      as (page & st' & Hrun & Hc & _ & Hmiss).
    destruct (Hmiss eq_refl) as (_ & Hopen & _).
    destruct (Hopen URLError eq_refl) as (-> & _).
    exists st'. split; [exact Hrun | exact Hc].
Defined.

Lemma get_page_touches_cache_log_network_witness :
  snd (SampleMethod.get_page "http://[::1/simple/foo/" SampleMethod.state)
  = SampleMethod.state /\
  opened (snd (SampleMethod.get_page SampleMethod.evil_url
                 SampleMethod.state))
  = [SampleMethod.evil_url].
Proof.
  split.
  - destruct (get_page_touches_cache_log_network SampleMethod.urlopen
                Sample.zlib_decompress Sample.gzip_read Sample.bytes_decode
                Sample.isdir Sample.ensure_slash SampleMethod.urljoin
                SampleMethod.Request "http://[::1/simple/foo/"
                SampleMethod.state) as (_ & _ & Hraise & _).
    now destruct (Hraise ValueError eq_refl).
  - destruct (get_page_touches_cache_log_network SampleMethod.urlopen
                Sample.zlib_decompress Sample.gzip_read Sample.bytes_decode
                Sample.isdir Sample.ensure_slash SampleMethod.urljoin
                SampleMethod.Request SampleMethod.evil_url
                SampleMethod.state) as (_ & _ & _ & Hret).
    assert (E : exists page,
               fst (SampleMethod.get_page SampleMethod.evil_url
                      SampleMethod.state) = Ok page)
      by (vm_compute; eexists; reflexivity).
    destruct E as (page & E).
    destruct (Hret page E) as (u & Hu & _ & Hopen & _).
    injection Hu as <-. exact Hopen.
Defined.

(** with helpers that return, on a URL that [urlparse] accepts, the
    method is [get_page] of the definitions without failures *)
Lemma method_get_page_agrees urlopen zlib_decompress gzip_read bytes_decode
    isdir ensure_slash (urljoin : string -> option string -> string) url st :
  unparsable url = false ->
  Method.get_page urlopen zlib_decompress gzip_read bytes_decode isdir
    ensure_slash (fun base u => Ok (urljoin base u)) (fun _ => Ok tt) url st =
  get_page urlopen zlib_decompress gzip_read bytes_decode isdir urljoin
    ensure_slash url st.
Proof.
  intros Hp.
  unfold Method.get_page, get_page, bind, lift, get_state,
    Method.request_url, request_url, Method.urlparse.
  rewrite Hp. cbv zeta.
  destruct (String.eqb (scheme (urlparse url)) "file" &&
            isdir (UrlLib.path (urlparse url)));
    destruct (_cache st !! _); reflexivity.
Qed.

(** ** The loop over the links, with the failures of [urlparse] *)

Section MethodLinkFacts.

Lemma method_urlparse_parsable url :
  unparsable url = false -> Method.urlparse url = Ok (urlparse url).
Proof. intros H. unfold Method.urlparse. now rewrite H. Qed.

Lemma method_urlparse_unparsable url :
  unparsable url = true -> Method.urlparse url = Raise ValueError.
Proof. intros H. unfold Method.urlparse. now rewrite H. Qed.

Lemma method_convert_log_iff url pn r :
  Method.convert_url_to_download_info_log url pn = Ok r <->
  unparsable url = false /\ convert_url_to_download_info_log url pn = r.
Proof.
  unfold Method.convert_url_to_download_info_log, Method.urlparse,
    convert_url_to_download_info_log.
  destruct (unparsable url); split.
  - discriminate.
  - intros [H _]. discriminate H.
  - intros [= <-]. now split.
  - intros [_ <-]. reflexivity.
Qed.

Lemma method_convert_iff url pn r :
  Method.convert_url_to_download_info url pn = Ok r <->
  unparsable url = false /\ convert_url_to_download_info url pn = r.
Proof.
  unfold Method.convert_url_to_download_info, convert_url_to_download_info.
  destruct (Method.convert_url_to_download_info_log url pn) as [r0 | e] eqn:E.
  - apply method_convert_log_iff in E as [Hp <-]. split.
    + intros [= <-]. now split.
    + intros [_ <-]. reflexivity.
  - split; [discriminate |]. intros [Hp _].
    assert (H : Method.convert_url_to_download_info_log url pn =
                Ok (convert_url_to_download_info_log url pn))
      by (now apply method_convert_log_iff).
    congruence.
Qed.

Lemma method_should_queue_iff link r :
  Method.should_queue link = Ok r <->
  unparsable link = false /\ in_scope link = r.
Proof.
  rewrite <- should_queue_in_scope.
  unfold Method.should_queue, Method.urlparse, should_queue.
  destruct (unparsable link); split.
  - discriminate.
  - intros [H _]. discriminate H.
  - intros [= <-]. now split.
  - intros [_ <-]. reflexivity.
Qed.

(** on a URL that [urlparse] accepts, the methods do what the
    definitions without failures say *)
Lemma method_process_download_parsable url st :
  unparsable url = false ->
  Method._process_download url st = _process_download url st.
Proof.
  intros Hp. unfold Method._process_download, _process_download, bind,
    get_state, lift.
  assert (H : Method.convert_url_to_download_info_log url
                (Some (project_name st)) =
              Ok (convert_url_to_download_info_log url
                    (Some (project_name st))))
    by (now apply method_convert_log_iff).
  rewrite H.
  destruct (convert_url_to_download_info_log url (Some (project_name st)))
    as [info records].
  unfold modify at 1 3. cbn [fst snd].
  destruct info as [i |]; [| reflexivity].
  rewrite update_version_data_info_dict. reflexivity.
Qed.

Lemma method_should_queue_parsable link referrer st :
  unparsable link = false ->
  Method._should_queue link referrer st = _should_queue link referrer st.
Proof.
  intros Hp. unfold Method._should_queue, _should_queue, bind, lift.
  assert (H : Method.should_queue link = Ok (should_queue link)).
  { apply method_should_queue_iff. split; [exact Hp |].
    symmetry. apply should_queue_in_scope. }
  now rewrite H.
Qed.

Lemma method_process_link_parsable url link st :
  unparsable link = false ->
  Method.process_link url link st = process_link url link st.
Proof.
  intros Hp. unfold Method.process_link, process_link, bind, get_state.
  destruct (decide (link ∈ _seen st)); [reflexivity |].
  unfold modify at 1 3.
  rewrite (method_process_download_parsable link _ Hp).
  destruct (_process_download link _) as [[[i |] | e] st1]; try reflexivity.
  now rewrite (method_should_queue_parsable link url st1 Hp).
Qed.

Lemma method_process_link_seen url link st :
  link ∈ _seen st -> Method.process_link url link st = (Ok tt, st).
Proof.
  intros H. unfold Method.process_link, bind, get_state.
  now rewrite decide_True by exact H.
Qed.

Lemma process_link_seen url link st :
  link ∈ _seen st -> process_link url link st = (Ok tt, st).
Proof.
  intros H. unfold process_link, bind, get_state.
  now rewrite decide_True by exact H.
Qed.

(** a new link that [urlparse] rejects is marked as seen, and that is
    all: the exception leaves [_process_download] *)
Lemma method_process_link_unparsable url link st :
  (link ∉ _seen st) -> unparsable link = true ->
  Method.process_link url link st =
  (Raise ValueError, set_seen (fun s => {[link]} ∪ s) st).
Proof.
  intros Hs Hp. unfold Method.process_link, bind, get_state.
  rewrite decide_False by exact Hs.
  unfold modify at 1.
  unfold Method._process_download, bind, get_state, lift,
    Method.convert_url_to_download_info_log.
  now rewrite (method_urlparse_unparsable link Hp).
Qed.

Lemma for_each_app {A} (l1 l2 : list A) (body : A -> M unit) st :
  for_each (l1 ++ l2) body st =
  match for_each l1 body st with
  | (Ok _, st1) => for_each l2 body st1
  | (Raise e, st1) => (Raise e, st1)
  end.
Proof.
  revert st. induction l1 as [|a l1 IH]; intros st; [reflexivity |].
  cbn [for_each app]. unfold bind.
  destruct (body a st) as [[[] | e] st1]; [apply IH | reflexivity].
Qed.

(** the new links that [urlparse] rejects *)
Lemma rejected_links_head (seen : gset string) l0 l :
  unparsable l0 = false ->
  (unparsable l = true -> l ∈ {[l0]} ∪ seen) ->
  unparsable l = true -> l ∈ seen.
Proof.
  intros H0 H Hl. specialize (H Hl).
  apply elem_of_union in H as [H | H]; [| exact H].
  apply elem_of_singleton in H. congruence.
Qed.

(** the loop either meets no new link that [urlparse] rejects, and
    runs as the definitions without failures say, or it ends at the
    first one *)
Lemma method_for_each_cases url ls st :
  (Forall (fun l => unparsable l = true -> l ∈ _seen st) ls /\
   for_each ls (Method.process_link url) st =
   for_each ls (process_link url) st) \/
  (exists before b rest,
     ls = (before ++ b :: rest)%list /\
     Forall (fun l => unparsable l = true -> l ∈ _seen st) before /\
     unparsable b = true /\ (b ∉ _seen st) /\ (b ∉ before) /\
     for_each ls (Method.process_link url) st =
     (Raise ValueError,
      set_seen (fun s => {[b]} ∪ s)
        (snd (for_each before (process_link url) st)))).
Proof.
  revert st. induction ls as [|l0 ls IH]; intros st.
  - left. split; [constructor | reflexivity].
  - destruct (decide (l0 ∈ _seen st)) as [Hin | Hnot].
    + (* seen before: passed over *)
      destruct (IH st) as [[Hall Hrun]
                          | (before & b & rest & -> & Hall & Hb & Hs & Hnb
                             & Hrun)].
      * left. split; [constructor; auto |].
        cbn [for_each]. unfold bind.
        now rewrite method_process_link_seen, process_link_seen by exact Hin.
      * right. exists (l0 :: before), b, rest.
        split; [reflexivity |]. split; [constructor; auto |].
        split; [exact Hb |]. split; [exact Hs |].
        split.
        { apply not_elem_of_cons. split; [congruence | exact Hnb]. }
        cbn [for_each app]. unfold bind.
        rewrite method_process_link_seen, process_link_seen by exact Hin.
        exact Hrun.
    + destruct (unparsable l0) eqn:Hp0.
      * (* the first new link that is rejected *)
        right. exists [], l0, ls.
        split; [reflexivity |]. split; [constructor |].
        split; [exact Hp0 |]. split; [exact Hnot |].
        split; [apply not_elem_of_nil |].
        cbn [for_each app]. unfold bind.
        now rewrite method_process_link_unparsable.
      * destruct (process_link_effect url l0 st) as (st1 & Hrun1 & _ & Heff).
        rewrite decide_False in Heff by exact Hnot.
        destruct Heff as [Hseen1 _].
        destruct (IH st1) as [[Hall Hrun]
                             | (before & b & rest & -> & Hall & Hb & Hs & Hnb
                                & Hrun)].
        -- left. split.
           ++ constructor; [congruence |].
              eapply Forall_impl; [exact Hall |].
              intros l Hl. rewrite Hseen1 in Hl.
              now apply (rejected_links_head _ l0).
           ++ cbn [for_each]. unfold bind.
              rewrite (method_process_link_parsable url l0 st Hp0), Hrun1.
              exact Hrun.
        -- right. exists (l0 :: before), b, rest.
           split; [reflexivity |].
           split.
           { constructor; [congruence |].
             eapply Forall_impl; [exact Hall |].
             intros l Hl. rewrite Hseen1 in Hl.
             now apply (rejected_links_head _ l0). }
           split; [exact Hb |].
           rewrite Hseen1 in Hs. apply not_elem_of_seen_add in Hs as [Hne Hs].
           split; [exact Hs |].
           split.
           { apply not_elem_of_cons. split; [exact Hne | exact Hnb]. }
           cbn [for_each app]. unfold bind.
           rewrite (method_process_link_parsable url l0 st Hp0), Hrun1.
           exact Hrun.
Qed.

(** what the worker needs of the loop: it puts URLs, it raises nothing
    but the [ValueError] of [urlparse], it keeps the base URL and the
    shape of the result *)
Lemma method_for_each_effect url ls st :
  exists r st' puts,
    for_each ls (Method.process_link url) st = (r, st') /\
    (r = Ok tt \/ r = Raise ValueError) /\
    _to_fetch st' = put_all puts (_to_fetch st) /\
    base_url st' = base_url st /\
    (filed_under_version (result st) -> filed_under_version (result st')).
Proof.
  destruct (method_for_each_cases url ls st)
    as [[_ ->] | (before & b & rest & _ & _ & _ & _ & _ & ->)].
  - destruct (only_puts_for_each url ls st) as (st' & puts & Hrun & Hq).
    pose proof (for_each_links_keeps url ls st) as [Hb Hwf].
    rewrite Hrun in Hb, Hwf |- *. cbn [snd] in Hb, Hwf.
    exists (Ok tt), st', puts.
    split; [reflexivity |]. split; [now left |].
    split; [exact Hq |]. split; [exact Hb | exact Hwf].
  - destruct (only_puts_for_each url before st) as (st' & puts & Hrun & Hq).
    pose proof (for_each_links_keeps url before st) as [Hb Hwf].
    rewrite Hrun in Hb, Hwf |- *. cbn [snd] in Hb, Hwf |- *.
    eexists _, _, puts.
    split; [reflexivity |]. split; [now right |].
    split; [exact Hq |]. split; [exact Hb | exact Hwf].
Qed.

End MethodLinkFacts.

(** X21.  The loop over the links of a page, for any list of links and
    any state.  It goes through the links in order and raises at the
    first one that is new (not in the seen-set) and that [urlparse]
    rejects: the [ValueError] leaves [_process_download], that link is
    marked as seen, and the links behind it are not looked at.  With no
    such link the loop returns after the last link.  In both cases:
    every link that was looked at is in the seen-set afterwards; the
    links put on the queue are, each once, those looked at that were not
    seen before, are no downloads and are in scope, provided the page is
    under the base URL, so no link is queued twice; every new link
    looked at that is a download has its version in the result, and no
    version leaves the result; nothing is fetched. *)
Theorem links_loop_stops_at_unparsable_link url ls st :
  exists r st' walked puts,
    for_each ls (Method.process_link url) st = (r, st') /\
    ((r = Ok tt /\ walked = ls /\
      Forall (fun l => unparsable l = true -> l ∈ _seen st) ls) \/
     (exists before b rest,
        r = Raise ValueError /\
        ls = (before ++ b :: rest)%list /\ walked = (before ++ [b])%list /\
        unparsable b = true /\ (b ∉ _seen st) /\
        Forall (fun l => unparsable l = true -> l ∈ _seen st) before)) /\
    _seen st' = list_to_set walked ∪ _seen st /\
    _to_fetch st' = put_all puts (_to_fetch st) /\
    NoDup puts /\
    (forall l, l ∈ puts <->
       l ∈ walked /\ (l ∉ _seen st) /\
       Method.convert_url_to_download_info l (Some (project_name st))
       = Ok None /\
       Method.should_queue l = Ok true /\
       startswith url (base_url st) = true) /\
    (forall l info, l ∈ walked -> l ∉ _seen st ->
       Method.convert_url_to_download_info l (Some (project_name st))
       = Ok (Some info) ->
       di_version info ∈ dom (result st')) /\
    dom (result st) ⊆ dom (result st') /\
    (base_url st' = base_url st /\ project_name st' = project_name st /\
     _cache st' = _cache st /\ opened st' = opened st).
Proof.
  destruct (method_for_each_cases url ls st)
    as [[Hall Hrun] | (before & b & rest & Hls & Hall & Hb & Hs & Hnb & Hrun)].
  - destruct (page_links_processed_once url ls st)
      as (st' & puts & Hold & Hseen & Hq & Hnd & Hputs & Hres & Hdom & Hframe).
    rewrite Hold in Hrun.
    assert (Hparsable : forall l, l ∈ ls -> l ∉ _seen st ->
                                  unparsable l = false).
    { intros l Hl Hns. rewrite Forall_forall in Hall.
      specialize (Hall l Hl). destruct (unparsable l); [| reflexivity].
      now destruct Hns; apply Hall. }
    exists (Ok tt), st', ls, puts.
    split; [exact Hrun |]. split; [left; auto |].
    split; [exact Hseen |]. split; [exact Hq |]. split; [exact Hnd |].
    split; [| split; [| split; [exact Hdom | exact Hframe]]].
    + intros l. rewrite Hputs, method_convert_iff, method_should_queue_iff.
      split; [| tauto].
      intros (Hl & Hns & Hc & Hsc & Hst).
      pose proof (Hparsable l Hl Hns). tauto.
    + intros l info Hl Hns [_ Hc]%method_convert_iff. now apply (Hres l info).
  - destruct (page_links_processed_once url before st)
      as (st1 & puts & Hold & Hseen & Hq & Hnd & Hputs & Hres & Hdom & Hframe).
    rewrite Hold in Hrun. cbn [snd] in Hrun.
    assert (Hparsable : forall l, l ∈ before -> l ∉ _seen st ->
                                  unparsable l = false).
    { intros l Hl Hns. rewrite Forall_forall in Hall.
      specialize (Hall l Hl). destruct (unparsable l); [| reflexivity].
      now destruct Hns; apply Hall. }
    exists (Raise ValueError), (set_seen (fun s => {[b]} ∪ s) st1),
      (before ++ [b])%list, puts.
    split; [exact Hrun |].
    split; [right; exists before, b, rest; auto 10 |].
    cbn [_seen _to_fetch result base_url project_name _cache opened set_seen].
    split.
    { rewrite Hseen, list_to_set_app_L, list_to_set_cons, list_to_set_nil,
        union_empty_r_L.
      rewrite (comm_L (∪) (list_to_set before) {[b]}).
      now rewrite (assoc_L (∪)). }
    split; [exact Hq |]. split; [exact Hnd |].
    split; [| split; [| split; [exact Hdom | exact Hframe]]].
    + intros l. rewrite Hputs, method_convert_iff, method_should_queue_iff,
        elem_of_app, list_elem_of_singleton.
      split.
      * intros (Hl & Hns & Hc & Hsc & Hst).
        pose proof (Hparsable l Hl Hns). tauto.
      * intros ([Hl | ->] & Hns & [Hp Hc] & [_ Hsc] & Hst); [tauto |].
        congruence.
    + intros l info [Hl | ->%list_elem_of_singleton]%elem_of_app Hns
        [Hp Hc]%method_convert_iff; [| congruence].
      now apply (Hres l info).
Qed.

Lemma links_loop_stops_at_unparsable_link_witness :
  exists st',
    for_each [SampleMethod.good_link; SampleMethod.evil_link;
              SampleMethod.late_link]
      (Method.process_link SampleMethod.evil_url) SampleMethod.state
    = (Raise ValueError, st') /\
    _seen st' = {[SampleMethod.good_link; SampleMethod.evil_link]} /\
    items (_to_fetch st') = [] /\
    "0.9" ∈ dom (result st').
Proof.
  destruct (links_loop_stops_at_unparsable_link SampleMethod.evil_url
              [SampleMethod.good_link; SampleMethod.evil_link;
               SampleMethod.late_link] SampleMethod.state)
    as (r & st' & walked & puts & Hrun & _).
  assert (E : for_each [SampleMethod.good_link; SampleMethod.evil_link;
                        SampleMethod.late_link]
                (Method.process_link SampleMethod.evil_url)
                SampleMethod.state =
              (Raise ValueError,
               snd (for_each [SampleMethod.good_link; SampleMethod.evil_link;
                              SampleMethod.late_link]
                      (Method.process_link SampleMethod.evil_url)
                      SampleMethod.state)))
    by (vm_compute; reflexivity).
  rewrite E in Hrun. injection Hrun as <- <-.
  eexists. split; [exact E |].
  split; [vm_compute; reflexivity |].
  split; [vm_compute; reflexivity |].
  apply elem_of_dom. vm_compute. eauto.
Defined.

(** ** The worker loop, with the failures of the helpers *)

Section MethodWorkerFacts.

Variable urlopen : string -> outcome Response.
Variable zlib_decompress : string -> outcome string.
Variable gzip_read : string -> outcome string.
Variable bytes_decode : string -> string -> outcome string.
Variable isdir : string -> bool.
Variable ensure_slash : string -> string.
Variable unescape : string -> outcome string.
Variable urljoin : string -> option string -> outcome string.
Variable Request : string -> outcome unit.

Local Abbreviation get_page' :=
  (Method.get_page urlopen zlib_decompress gzip_read bytes_decode isdir
     ensure_slash urljoin Request).
Local Abbreviation links' := (Method.links unescape urljoin).
Local Abbreviation fetch_body' :=
  (Method.fetch_body urlopen zlib_decompress gzip_read bytes_decode isdir
     ensure_slash unescape urljoin Request).
Local Abbreviation _fetch' :=
  (Method._fetch urlopen zlib_decompress gzip_read bytes_decode isdir
     ensure_slash unescape urljoin Request).
Local Abbreviation request_url' :=
  (Method.request_url isdir ensure_slash urljoin).
Local Abbreviation helper_failure' :=
  (Method.helper_failure unescape urljoin Request).

(** [Page.links] raises only what [urljoin] or [unescape] raises *)
Lemma links_failure p e : links' p = Raise e -> helper_failure' e.
Proof.
  unfold Method.links.
  match goal with |- fold_left ?f _ _ = _ -> _ => set (step := f) end.
  assert (H : forall mos acc,
             fold_left step mos acc = Raise e ->
             acc = Raise e \/ helper_failure' e).
  { induction mos as [|mo mos IH]; intros acc; cbn [fold_left]; [auto |].
    intros Hf. apply IH in Hf as [Hf | Hf]; [| now right].
    destruct acc as [result | e0]; [| now left].
    subst step. cbv beta zeta in Hf.
    destruct (urljoin (page_base_url p) _) as [u | e1] eqn:Hj.
    - destruct (unescape u) as [u' | e1] eqn:Hu; [discriminate |].
      injection Hf as ->. right. right. right. right. eauto.
    - injection Hf as ->. right. right. right. left. eauto. }
  intros Hf. apply H in Hf as [Hf | Hf]; [discriminate | exact Hf].
Qed.

Lemma request_url_failure url e :
  request_url' url = Raise e -> helper_failure' e.
Proof.
  unfold Method.request_url, Method.urlparse.
  destruct (unparsable url); [intros [= <-]; now left |].
  destruct (_ && _); [| discriminate].
  intros H. right. right. left. eauto.
Qed.

Lemma method_get_page_failure u st e :
  fst (get_page' u st) = Raise e -> helper_failure' e.
Proof.
  destruct (method_get_page_cases urlopen zlib_decompress gzip_read
              bytes_decode isdir ensure_slash urljoin Request u st)
    as [(e0 & -> & He) | [(u0 & p & _ & _ & ->) | (u0 & _ & _ & _ & ->)]];
    cbn [fst].
  - intros [= <-].
    destruct He as [He | (u0 & _ & _ & He)];
      [now apply (request_url_failure u) | right; left; eauto].
  - discriminate.
  - destruct (try_except_get_page urlopen zlib_decompress gzip_read
                bytes_decode u0 st) as (p & st1 & -> & _).
    discriminate.
Qed.

(** the [try] block of the loop: it puts URLs, it raises nothing but
    what a helper raises, it keeps the base URL and the shape of the
    result, and it does nothing at all for the sentinel or an empty
    URL *)
Lemma method_fetch_body_effect x st :
  exists r st' puts,
    fetch_body' x st = (r, st') /\
    _to_fetch st' = put_all puts (_to_fetch st) /\
    base_url st' = base_url st /\
    (filed_under_version (result st) -> filed_under_version (result st')) /\
    (forall e, r = Raise e -> helper_failure' e) /\
    (item_truthy x = false -> r = Ok tt /\ st' = st).
Proof.
  assert (Hskip : exists r st' puts,
             ret tt st = (r, st') /\
             _to_fetch st' = put_all puts (_to_fetch st) /\
             base_url st' = base_url st /\
             (filed_under_version (result st) ->
              filed_under_version (result st')) /\
             (forall e, r = Raise e -> helper_failure' e) /\
             (false = false -> r = Ok tt /\ st' = st)).
  { exists (Ok tt), st, [].
    split; [reflexivity |]. split; [reflexivity |]. split; [reflexivity |].
    split; [auto |]. split; [discriminate | auto]. }
  unfold Method.fetch_body.
  destruct x as [u |]; [| exact Hskip].
  cbn [item_truthy]. destruct (truthy u); [| exact Hskip].
  clear Hskip. unfold bind.
  pose proof (method_get_page_keeps urlopen zlib_decompress gzip_read
                bytes_decode isdir ensure_slash urljoin Request _to_fetch u
                (fun _ _ => eq_refl) (fun _ _ => eq_refl)
                (fun _ _ => eq_refl) st) as Hq.
  pose proof (method_get_page_keeps urlopen zlib_decompress gzip_read
                bytes_decode isdir ensure_slash urljoin Request base_url u
                (fun _ _ => eq_refl) (fun _ _ => eq_refl)
                (fun _ _ => eq_refl) st) as Hb.
  pose proof (method_get_page_keeps urlopen zlib_decompress gzip_read
                bytes_decode isdir ensure_slash urljoin Request result u
                (fun _ _ => eq_refl) (fun _ _ => eq_refl)
                (fun _ _ => eq_refl) st) as Hr.
  pose proof (method_get_page_failure u st) as Hf.
  destruct (get_page' u st) as [[[p |] | e] st1]; cbn [fst snd] in *.
  - unfold lift.
    destruct (links' p) as [ls | e] eqn:Hl.
    + destruct (method_for_each_effect u (elements ls) st1)
        as (r & st' & puts & Hrun & Hres & Hq' & Hb' & Hwf).
      exists r, st', puts.
      split; [exact Hrun |]. split; [now rewrite Hq', Hq |].
      split; [now rewrite Hb', Hb |].
      split; [now rewrite <- Hr |].
      split; [| discriminate].
      intros e ->. destruct Hres as [Hres | [= ->]]; [discriminate |].
      now left.
    + exists (Raise e), st1, [].
      split; [reflexivity |]. split; [exact Hq |]. split; [exact Hb |].
      split; [now rewrite Hr |].
      split; [| discriminate].
      intros e0 [= <-]. now apply (links_failure p).
  - exists (Ok tt), st1, [].
    split; [reflexivity |]. split; [exact Hq |]. split; [exact Hb |].
    split; [now rewrite Hr |]. split; discriminate.
  - exists (Raise e), st1, [].
    split; [reflexivity |]. split; [exact Hq |]. split; [exact Hb |].
    split; [now rewrite Hr |].
    split; [| discriminate].
    intros e0 [= <-]. now apply Hf.
Qed.

(** one pass of the loop of [_fetch] always goes through, as long as an
    item is pending: by [break], back to [get()], or with the exception
    of a helper; [task_done] is called in each case *)
Lemma method_fetch_iteration_runs x rest st :
  items (_to_fetch st) = x :: rest ->
  queue_counted (_to_fetch st) ->
  exists exit st' puts,
    fetch_iteration fetch_body' st = Some (exit, st') /\
    (exit = (if negb (item_truthy x) then Break else Continue) \/
     exists e, exit = Propagate e /\ helper_failure' e /\
               item_truthy x = true) /\
    items (_to_fetch st') = (rest ++ map Some puts)%list /\
    n_get (_to_fetch st') = S (n_get (_to_fetch st)) /\
    n_done (_to_fetch st') = S (n_done (_to_fetch st)) /\
    unfinished_tasks (_to_fetch st') + 1 =
    unfinished_tasks (_to_fetch st) + List.length puts /\
    base_url st' = base_url st /\
    (filed_under_version (result st) -> filed_under_version (result st')).
Proof.
  intros Hitems Hcount. unfold queue_counted in Hcount.
  rewrite Hitems in Hcount. simpl in Hcount.
  unfold fetch_iteration, get. rewrite Hitems. unfold try_finally.
  set (st1 := set_to_fetch _ st).
  destruct (method_fetch_body_effect x st1)
    as (r & st2 & puts & Hrun & Hq & Hb & Hwf & Hfail & Hskip).
  rewrite Hrun.
  destruct (put_all_counters puts (_to_fetch st1)) as (H1 & H2 & H3 & H4).
  rewrite <- Hq in H1, H2, H3, H4. subst st1. cbn in H1, H2, H3, H4, Hb, Hwf.
  unfold task_done, task_done_q.
  destruct (unfinished_tasks (_to_fetch st2)) as [|n] eqn:Hn; [lia |].
  destruct r as [[] | e].
  - eexists _, _, puts. split; [reflexivity |]. cbn.
    split; [now left |].
    split; [exact H4 |]. split; [lia |]. split; [lia |]. split; [lia |].
    split; [exact Hb | exact Hwf].
  - eexists _, _, puts. split; [reflexivity |]. cbn.
    split.
    { right. exists e. split; [reflexivity |].
      split; [now apply Hfail |].
      destruct (item_truthy x); [reflexivity |].
      destruct (Hskip eq_refl) as [? _]. discriminate. }
    split; [exact H4 |]. split; [lia |]. split; [lia |]. split; [lia |].
    split; [exact Hb | exact Hwf].
Qed.

(** X22.  A worker that finds a sentinel, or an empty URL, behind [n]
    URLs in the queue leaves [_fetch] within [n + 1] passes.  It leaves
    by [break] after exactly [n + 1] passes, or earlier, within the
    first [n] passes, with an exception that is [ValueError] (which
    [urlparse] raises) or one that [Request], [urljoin] or [unescape]
    raises.  In both cases it has made as many calls of [task_done] as
    of [get], one for each pass; it has taken the first items of the
    queue and no other, one for each pass; and the links it has put are
    at the end of the queue.  An empty URL stops the worker as the
    sentinel does. *)
Theorem worker_leaves_at_sentinel_or_failure pre x rest st :
  items (_to_fetch st) = (map Some pre ++ x :: rest)%list ->
  Forall (fun u => truthy u = true) pre ->
  item_truthy x = false ->
  queue_counted (_to_fetch st) ->
  exists exit st' n puts,
    _fetch' (S (List.length pre)) st = Some (exit, st') /\
    ((exit = Break /\ n = S (List.length pre)) \/
     (exists e, exit = Propagate e /\ helper_failure' e /\
                1 <= n <= List.length pre)) /\
    n_get (_to_fetch st') = n_get (_to_fetch st) + n /\
    n_done (_to_fetch st') = n_done (_to_fetch st) + n /\
    unfinished_tasks (_to_fetch st') + n =
    unfinished_tasks (_to_fetch st) + List.length puts /\
    items (_to_fetch st') =
    (skipn n (items (_to_fetch st)) ++ map Some puts)%list /\
    (exit = Break -> items (_to_fetch st') = (rest ++ map Some puts)%list).
Proof.
  revert rest st. induction pre as [|u pre IH]; intros rest st Hitems Hpre Hx Hc.
  - simpl in Hitems.
    destruct (method_fetch_iteration_runs x rest st Hitems Hc)
      as (exit & st' & puts & Hrun & Hexit & Hi & Hg & Hd & Hu & _).
    destruct Hexit as [-> | (e & _ & _ & Ht)]; [| congruence].
    rewrite Hx in Hrun. cbn [negb] in Hrun.
    exists Break, st', 1, puts. cbn [Method._fetch List.length]. rewrite Hrun.
    split; [reflexivity |]. split; [now left |].
    split; [lia |]. split; [lia |]. split; [lia |].
    rewrite Hitems. cbn [skipn]. split; [exact Hi | intros _; exact Hi].
  - simpl in Hitems. apply Forall_cons in Hpre as [Hu Hpre].
    destruct (method_fetch_iteration_runs (Some u) _ st Hitems Hc)
      as (exit & st1 & puts1 & Hrun & Hexit & Hi & Hg & Hd & Hun & _).
    change (_fetch' (S (List.length (u :: pre))) st)
      with (match fetch_iteration fetch_body' st with
            | Some (Continue, st'0) => _fetch' (S (List.length pre)) st'0
            | other => other
            end).
    rewrite Hrun.
    destruct Hexit as [-> | (e & -> & He & _)].
    + cbn [item_truthy]. rewrite Hu. cbn [negb].
      rewrite <- app_assoc in Hi. cbn [app] in Hi.
      assert (Hc1 : queue_counted (_to_fetch st1)).
      { unfold queue_counted in *. rewrite Hi. rewrite Hitems in Hc.
        rewrite !List.length_app in *. cbn [List.length] in *.
        rewrite !List.length_app, !length_map in *. cbn [List.length] in *.
        rewrite ?length_map in *. lia. }
      destruct (IH _ st1 Hi Hpre Hx Hc1)
        as (exit & st' & n & puts & Hrun' & Hexit & Hg' & Hd' & Hun' & Hi'
            & Hbreak).
      exists exit, st', (S n), (puts1 ++ puts)%list.
      split; [exact Hrun' |].
      split.
      { destruct Hexit as [[-> ->] | (e & -> & He & Hn)];
          [now left | right].
        exists e. cbn [List.length]. split; [reflexivity |].
        split; [exact He | lia]. }
      rewrite List.length_app.
      split; [lia |]. split; [lia |]. split; [lia |].
      assert (Hn : n <= List.length (map Some pre ++ x :: rest)).
      { rewrite List.length_app, length_map. cbn [List.length].
        destruct Hexit as [[_ ->] | (e & _ & _ & Hn)]; lia. }
      split.
      * rewrite Hi', Hi, Hitems. cbn [skipn].
        replace (map Some pre ++ x :: rest ++ map Some puts1)%list
          with ((map Some pre ++ x :: rest) ++ map Some puts1)%list
          by (now rewrite <- app_assoc).
        rewrite (drop_app_le _ _ n Hn), map_app, <- app_assoc.
        reflexivity.
      * intros Hb. rewrite (Hbreak Hb), map_app. now rewrite app_assoc.
    + exists (Propagate e), st1, 1, puts1.
      split; [reflexivity |].
      split.
      { right. exists e. cbn [List.length]. split; [reflexivity |].
        split; [exact He | lia]. }
      split; [lia |]. split; [lia |]. split; [lia |].
      rewrite Hitems. cbn [skipn]. split; [exact Hi | discriminate].
Qed.

(** X23.  Whenever [_fetch] returns, it has left its loop by [break],
    or an exception has left it that is [ValueError] (which [urlparse]
    raises) or one that [Request], [urljoin] or [unescape] raises.  In
    both cases it has made as many calls of [task_done] as of [get], at
    least one; the queue still counts its pending items; the base URL
    is as before; and every record of the result is filed under its own
    version with a name and a download URL if this was so when the
    worker started. *)
Theorem fetch_exit_is_break_or_helper_failure fuel st exit st' :
  queue_counted (_to_fetch st) ->
  _fetch' fuel st = Some (exit, st') ->
  (exit = Break \/ exists e, exit = Propagate e /\ helper_failure' e) /\
  queue_counted (_to_fetch st') /\
  n_get (_to_fetch st') + n_done (_to_fetch st) =
  n_done (_to_fetch st') + n_get (_to_fetch st) /\
  n_get (_to_fetch st) < n_get (_to_fetch st') /\
  base_url st' = base_url st /\
  (filed_under_version (result st) -> filed_under_version (result st')).
Proof.
  revert st. induction fuel as [|fuel IH]; intros st Hc; [discriminate |].
  cbn [Method._fetch].
  destruct (items (_to_fetch st)) as [|x rest] eqn:Hitems.
  { unfold fetch_iteration, get. rewrite Hitems. discriminate. }
  destruct (method_fetch_iteration_runs x rest st Hitems Hc)
    as (exit1 & st1 & puts & Hrun & Hexit & Hi & Hg & Hd & Hun & Hb & Hwf).
  assert (Hc1 : queue_counted (_to_fetch st1)).
  { unfold queue_counted in *. rewrite Hi. rewrite Hitems in Hc.
    rewrite List.length_app, length_map. cbn [List.length] in Hc. lia. }
  rewrite Hrun.
  destruct Hexit as [-> | (e & -> & He & _)].
  - destruct (item_truthy x); cbn [negb].
    + intros Hrest.
      destruct (IH st1 Hc1 Hrest) as (He & Hc' & Hbal & Hlt & Hb' & Hwf').
      split; [exact He |]. split; [exact Hc' |].
      split; [lia |]. split; [lia |]. split; [congruence | auto].
    + intros [= <- <-]. split; [now left |]. split; [exact Hc1 |].
      split; [lia |]. split; [lia |]. split; [exact Hb | exact Hwf].
  - intros [= <- <-]. split; [right; eauto |]. split; [exact Hc1 |].
    split; [lia |]. split; [lia |]. split; [exact Hb | exact Hwf].
Qed.

End MethodWorkerFacts.

Lemma worker_leaves_at_sentinel_or_failure_witness :
  exists st' puts,
    SampleMethod._fetch 3 SampleMethod.queued_state
    = Some (Propagate ValueError, st') /\
    n_get (_to_fetch st') = 1 /\ n_done (_to_fetch st') = 1 /\
    items (_to_fetch st') =
    ([Some SampleMirror.baz_url; None] ++ map Some puts)%list.
Proof.
  destruct (worker_leaves_at_sentinel_or_failure SampleMethod.urlopen
              Sample.zlib_decompress Sample.gzip_read Sample.bytes_decode
              Sample.isdir Sample.ensure_slash SampleMethod.unescape
              SampleMethod.urljoin SampleMethod.Request
              [SampleMethod.evil_url; SampleMirror.baz_url] None []
              SampleMethod.queued_state)
    as (exit & st' & n & puts & Hrun & Hexit & Hg & Hd & _ & Hi & _).
  - reflexivity.
  - repeat constructor.
  - reflexivity.
  - unfold queue_counted. simpl. lia.
  - assert (E : exists st0,
               SampleMethod._fetch 3 SampleMethod.queued_state =
               Some (Propagate ValueError, st0) /\
               n_get (_to_fetch st0) = 1)
      by (vm_compute; eexists; split; reflexivity).
    destruct E as (st0 & E & N).
    change (SampleMethod._fetch 3 SampleMethod.queued_state
            = Some (exit, st')) in Hrun.
    rewrite E in Hrun. injection Hrun as <- <-.
    rewrite N in Hg. cbn in Hg.
    assert (n = 1) as -> by lia.
    exists st0, puts. split; [exact E |].
    split; [exact N |]. split; [rewrite Hd; reflexivity |].
    exact Hi.
Defined.

Lemma fetch_exit_is_break_or_helper_failure_witness :
  exists st',
    SampleMethod.mirror_fetch 5 SampleMirror.queued_state
    = Some (Break, st') /\
    n_get (_to_fetch st') = n_done (_to_fetch st') /\
    base_url st' = SampleMirror.index_url /\
    filed_under_version (result st').
Proof.
  assert (E : exists st',
             SampleMethod.mirror_fetch 5 SampleMirror.queued_state
             = Some (Break, st'))
    by (vm_compute; eexists; reflexivity).
  destruct E as (st' & E). exists st'.
  destruct (fetch_exit_is_break_or_helper_failure SampleMirror.urlopen
              Sample.zlib_decompress Sample.gzip_read Sample.bytes_decode
              Sample.isdir Sample.ensure_slash SampleMethod.unescape
              SampleMethod.urljoin SampleMethod.Request
              5 SampleMirror.queued_state Break st')
    as (_ & _ & Hbal & _ & Hb & Hwf).
  - unfold queue_counted. simpl. lia.
  - exact E.
  - split; [exact E |].
    split; [simpl in Hbal; lia |].
    split; [exact Hb |].
    apply Hwf. intros v d H. unfold SampleMirror.queued_state in H.
    cbn [result] in H. rewrite lookup_empty in H. discriminate.
Defined.

(** with helpers that return, [Page.links] is the set of the
    definitions without failures *)
Lemma method_links_agrees (urljoin : string -> option string -> string)
    (unescape : string -> string) p :
  Method.links (fun s => Ok (unescape s)) (fun base u => Ok (urljoin base u)) p
  = Ok (links urljoin unescape p).
Proof.
  unfold Method.links, links.
  generalize (finditer Page_href (page_data p)). intros mos.
  match goal with |- fold_left ?f _ _ = _ => set (step := f) end.
  match goal with |- _ = Ok (list_to_set (map ?f _)) => set (link := f) end.
  assert (H : forall l (acc : gset string),
             fold_left step l (Ok acc) = Ok (list_to_set (map link l) ∪ acc)).
  { induction l as [|mo l IH]; intros acc; cbn [fold_left map].
    - now rewrite list_to_set_nil, union_empty_l_L.
    - change (step (Ok acc) mo) with (Ok (A:=gset string) ({[link mo]} ∪ acc)).
      rewrite IH. f_equal. apply seen_cons. }
  rewrite H. now rewrite union_empty_r_L.
Qed.
